(** * eDisGo: grid constraint checks and the PowerModels exporter

    A shallow embedding of [edisgo/flex_opt/check_tech_constraints.py] and
    [edisgo/io/powermodels_io.py], followed by the properties established
    about them.

    Conventions of the embedding:
    - Python floats are exact rationals ([Q]), a decimal literal the
      rational it writes; a missing value ([NaN]) is [None] in an
      [option Q].
    - A pandas [Series] is its list of labels together with the value at each
      label; a [DataFrame] is its row labels, its column labels and the cell
      at each pair of labels.  Labels are unique, as in the tables the
      program builds.
    - A raised exception is the left injection of a sum, the returned value
      the right one.  Output on the console and in the log is left out.
    - What the program takes from other code is a parameter of the model:
      [np.hypot], the sort behind [sort_values], [pypsa]'s per-unit
      calculation and [calculate_impedance_for_parallel_components].  The
      module [examples] names instances of them for the worked examples. *)

From Stdlib Require Import QArith Qabs Qminmax Qround ZArith List String Ascii Bool Lia Lqa.
From Stdlib Require Import Sorting.Sorted Sorting.Permutation Sorting.Mergesort Orders.
From stdpp Require Import base gmap strings pretty.
Import ListNotations.

Open Scope Q_scope.
Open Scope string_scope.
Open Scope list_scope.

(** ** Python exceptions *)

Module Py.

Inductive exn : Type :=
| Exception (msg : string)
| ValueError (msg : string)
| KeyError (key : string)
| IndexError (msg : string)
| TypeError (msg : string)
| AttributeError (name : string)
| UnboundLocalError (var : string).

(** The outcome of a call: [inl e] when [e] was raised, [inr v] when [v] was
    returned. *)
Definition result (A : Type) : Type := (exn + A)%type.

Definition ret {A} (a : A) : result A := inr a.
Definition raise {A} (e : exn) : result A := inl e.

Definition bind {A B} (m : result A) (k : A -> result B) : result B :=
  match m with
  | inl e => inl e
  | inr a => k a
  end.

End Py.

Import Py.

Notation "'let*' x := m 'in' k" := (bind m (fun x => k))
  (at level 10, x pattern, m at level 100, k at level 200).

(** ** Floats *)

Module np.

Definition Qltb (x y : Q) : bool := negb (Qle_bool y x).

(** Arithmetic and comparison on cells that may be [NaN]: an operation with
    a [NaN] operand is [NaN], a comparison with a [NaN] operand is [False].
    Division follows [Qdiv]; a zero divisor (which gives an infinity in
    numpy) is outside this model, and the properties that divide assume
    non-zero load factors. *)
Definition sub (a b : option Q) : option Q :=
  match a, b with Some x, Some y => Some (x - y) | _, _ => None end.

Definition div (a b : option Q) : option Q :=
  match a, b with Some x, Some y => Some (x / y) | _, _ => None end.

Definition abs (a : option Q) : option Q :=
  match a with Some x => Some (Qabs x) | None => None end.

Definition lt (a b : option Q) : bool :=
  match a, b with Some x, Some y => Qltb x y | _, _ => false end.

Definition gt (a b : option Q) : bool := lt b a.

Definition isna (a : option Q) : bool :=
  match a with Some _ => false | None => true end.

(** [np.pi]: the double nearest to the circle constant. *)
Definition pi : Q := 884279719003555 # 281474976710656.

End np.

(** ** The parts of pandas the program uses *)

Module pd.

Record Series (I V : Type) : Type := mkSeries {
  s_index : list I;
  s_val : I -> V
}.
Arguments mkSeries {I V} _ _.
Arguments s_index {I V} _.
Arguments s_val {I V} _ _.

Record DataFrame (R C V : Type) : Type := mkFrame {
  index : list R;
  columns : list C;
  cell : R -> C -> V
}.
Arguments mkFrame {R C V} _ _ _.
Arguments index {R C V} _.
Arguments columns {R C V} _.
Arguments cell {R C V} _ _ _.

Section Frames.
Context {R C : Type} `{EqDecision R} `{EqDecision C}.

(** [labels.isin(others)] for one label. *)
Definition isin {A} `{EqDecision A} (x : A) (l : list A) : bool :=
  bool_decide (x ∈ l).

(** [df.empty]: some axis has length zero. *)
Definition empty {V} (df : DataFrame R C V) : bool :=
  match index df, columns df with
  | _ :: _, _ :: _ => false
  | _, _ => true
  end.

(** [df.T] *)
Definition T {V} (df : DataFrame R C V) : DataFrame C R V :=
  mkFrame (columns df) (index df) (fun c r => cell df r c).

(** [df[mask]]: cells where the mask is false become [NaN]. *)
Definition where_ (df : DataFrame R C Q) (mask : R -> C -> bool)
  : DataFrame R C (option Q) :=
  mkFrame (index df) (columns df)
          (fun r c => if mask r c then Some (cell df r c) else None).

(** [df[mask]] on a frame that may already hold [NaN]. *)
Definition mask_nan (df : DataFrame R C (option Q)) (mask : R -> C -> bool)
  : DataFrame R C (option Q) :=
  mkFrame (index df) (columns df)
          (fun r c => if mask r c then cell df r c else None).

(** [df.dropna(how="all")]: drop the rows whose cells are all [NaN]. *)
Definition dropna_all (df : DataFrame R C (option Q)) : DataFrame R C (option Q) :=
  mkFrame
    (List.filter (fun r => existsb (fun c => negb (np.isna (cell df r c))) (columns df))
            (index df))
    (columns df) (cell df).

(** [df.dropna()]: drop the rows that hold a [NaN]. *)
Definition dropna (df : DataFrame R C (option Q)) : DataFrame R C (option Q) :=
  mkFrame
    (List.filter (fun r => forallb (fun c => negb (np.isna (cell df r c))) (columns df))
            (index df))
    (columns df) (cell df).

(** [df.loc[keep]] with a boolean row selector. *)
Definition loc_rows {V} (df : DataFrame R C V) (keep : R -> bool) : DataFrame R C V :=
  mkFrame (List.filter keep (index df)) (columns df) (cell df).

(** [pd.concat([a, b])]: the rows of [b] below the rows of [a]. *)
Definition concat {V} (a b : DataFrame R C V) : DataFrame R C V :=
  mkFrame (index a ++ index b) (columns a)
          (fun r c => if isin r (index a) then cell a r c else cell b r c).

(** The largest value of a labelled list and the first label that holds it. *)
Fixpoint argmax {I} (l : list (I * Q)) : option (I * Q) :=
  match l with
  | [] => None
  | (i, x) :: l' =>
      match argmax l' with
      | Some (j, y) => if np.Qltb x y then Some (j, y) else Some (i, x)
      | None => Some (i, x)
      end
  end.

(** The smallest value of a labelled list and the first label that holds it. *)
Fixpoint argmin {I} (l : list (I * Q)) : option (I * Q) :=
  match l with
  | [] => None
  | (i, x) :: l' =>
      match argmin l' with
      | Some (j, y) => if np.Qltb y x then Some (j, y) else Some (i, x)
      | None => Some (i, x)
      end
  end.

(** [df.max(axis=1)] and [df.idxmax(axis=1)] for one row. *)
Definition row_cells (df : DataFrame R C Q) (r : R) : list (C * Q) :=
  map (fun c => (c, cell df r c)) (columns df).

Definition max_axis1 (df : DataFrame R C Q) (r : R) : option Q :=
  option_map snd (argmax (row_cells df r)).

Definition idxmax_axis1 (df : DataFrame R C Q) (r : R) : option C :=
  option_map fst (argmax (row_cells df r)).

(** [(df > x).any().any()] and the like. *)
Definition any_any {V} (df : DataFrame R C V) (p : V -> bool) : bool :=
  existsb (fun c => existsb (fun r => p (cell df r c)) (index df)) (columns df).

End Frames.

(** [df.loc[:, labels]] and [df[labels]]: the listed columns, [KeyError] on
    a label the frame does not have. *)
Definition loc_columns {R V} (df : DataFrame R string V) (labels : list string)
  : result (DataFrame R string V) :=
  match List.filter (fun c => negb (isin c (columns df))) labels with
  | [] => ret (mkFrame (index df) labels (cell df))
  | c :: _ => raise (KeyError c)
  end.

(** [s.loc[labels]] *)
Definition series_loc {I V} `{EqDecision I} `{Pretty I}
    (s : Series I V) (labels : list I) : result (Series I V) :=
  match List.filter (fun i => negb (isin i (s_index s))) labels with
  | [] => ret (mkSeries labels (s_val s))
  | i :: _ => raise (KeyError (pretty i))
  end.

(** [s.apply(f)] *)
Definition apply {I V W} (s : Series I V) (f : V -> W) : Series I W :=
  mkSeries (s_index s) (fun i => f (s_val s i)).

(** [pd.DataFrame(data, index=index)]: a frame from its columns, each the
    list of its values in index order. *)
Definition from_dict {R} `{EqDecision R} (index : list R) (data : list (string * list Q))
  : DataFrame R string Q :=
  mkFrame index (map fst data)
    (fun r c =>
       match List.find (fun p => String.eqb (fst p) c) data with
       | Some (_, values) =>
           match List.find (fun p => bool_decide (fst p = r)) (combine index values) with
           | Some (_, v) => v
           | None => 0
           end
       | None => 0
       end).

(** [pd.DataFrame()] *)
Definition no_data {R} : DataFrame R string Q := mkFrame [] [] (fun _ _ => 0).

End pd.

(** ** Aligning two time-indexed tables

    Arithmetic between two pandas objects first aligns their labels: equal
    indexes are kept as they are, different ones are replaced by their sorted
    union, and a cell missing on either side is [NaN]. *)

Module align.
Import pd.

Definition Timestamp : Type := Z.

Fixpoint insert_sorted (t : Timestamp) (l : list Timestamp) : list Timestamp :=
  match l with
  | [] => [t]
  | x :: l' =>
      if (t <? x)%Z then t :: l
      else if (t =? x)%Z then l
      else x :: insert_sorted t l'
  end.

Definition union_sorted (a b : list Timestamp) : list Timestamp :=
  fold_right insert_sorted [] (a ++ b).

Definition align_index (a b : list Timestamp) : list Timestamp :=
  if decide (a = b) then a else union_sorted a b.

(** Column labels are names; the order in which pandas lists the union of two
    different sets of columns plays no role in the program. *)
Definition align_columns (a b : list string) : list string :=
  if decide (a = b) then a else a ++ List.filter (fun c => negb (isin c a)) b.

(** The cell of a frame after reindexing: [NaN] outside its labels. *)
Definition get (df : DataFrame Timestamp string (option Q))
    (t : Timestamp) (c : string) : option Q :=
  if isin t (index df) && isin c (columns df) then cell df t c else None.

Definition get_s (s : Series Timestamp (option Q)) (t : Timestamp) : option Q :=
  if isin t (s_index s) then s_val s t else None.

Definition some_cells (df : DataFrame Timestamp string Q)
  : DataFrame Timestamp string (option Q) :=
  mkFrame (index df) (columns df) (fun t c => Some (cell df t c)).

(** [a - b] and [a / b] on frames *)
Definition binop (op : option Q -> option Q -> option Q)
    (a b : DataFrame Timestamp string (option Q))
  : DataFrame Timestamp string (option Q) :=
  mkFrame (align_index (index a) (index b))
          (align_columns (columns a) (columns b))
          (fun t c => op (get a t c) (get b t c)).

(** [a / b] on series *)
Definition binop_s (op : option Q -> option Q -> option Q)
    (a b : Series Timestamp (option Q)) : Series Timestamp (option Q) :=
  mkSeries (align_index (s_index a) (s_index b))
           (fun t => op (get_s a t) (get_s b t)).

(** [s.dropna()] *)
Definition dropna_s (s : Series Timestamp (option Q)) : Series Timestamp (option Q) :=
  mkSeries (List.filter (fun t => negb (np.isna (s_val s t))) (s_index s)) (s_val s).

(** The labelled values of a series (of one column of a frame) that are not
    [NaN], in index order. *)
Definition items_s {I} (s : Series I (option Q)) : list (I * Q) :=
  omap (fun t => match s_val s t with Some x => Some (t, x) | None => None end)
       (s_index s).

Definition column_items {R C} (df : DataFrame R C (option Q)) (c : C) : list (R * Q) :=
  omap (fun r => match cell df r c with Some x => Some (r, x) | None => None end)
       (index df).

(** [s.min()], [s.idxmin()] (missing values skipped) *)
Definition min_s {I} (s : Series I (option Q)) : option Q :=
  option_map snd (argmin (items_s s)).

Definition idxmin_s {I} (s : Series I (option Q)) : option I :=
  option_map fst (argmin (items_s s)).

(** [df.iloc[:, 0]] *)
Definition iloc_col0 (df : DataFrame Timestamp string (option Q))
  : result (Series Timestamp (option Q)) :=
  match columns df with
  | c :: _ => ret (mkSeries (index df) (fun t => cell df t c))
  | [] => raise (IndexError "single positional indexer is out-of-bounds")
  end.

End align.

(** ** edisgo/flex_opt/check_tech_constraints.py *)

Module check_tech_constraints.
Import pd align.

(** *** The EDisGo object, as far as the checks read it *)

Record Line : Type := mkLine {
  line_name : string;
  bus0 : string;
  bus1 : string;
  s_nom : Q
}.

Record Transformer : Type := mkTransformer {
  trafo_name : string;
  trafo_bus0 : string;
  trafo_bus1 : string;
  trafo_s_nom : Q
}.

(** The classes the checks dispatch on with [isinstance]; [Grid_] is any
    grid that is neither an [MVGrid] nor an [LVGrid]. *)
Inductive GridClass : Type := MVGrid | LVGrid | Grid_.

Record Grid : Type := mkGrid {
  grid_class : GridClass;
  station_name : string;
  grid_lines_df : list Line;
  transformers_df : list Transformer;
  buses_df : list string;
  station : list string
}.

Record Topology : Type := mkTopology {
  lines_df : list Line;
  mv_grid : Grid;
  lv_grids : list Grid;
  transformers_hvmv_df : list Transformer;
  rings : list (list string)
}.

(** The two values of [timesteps_load_feedin_case]. *)
Inductive Case : Type := feedin_case | load_case.

Definition case_name (c : Case) : string :=
  match c with feedin_case => "feed-in_case" | load_case => "load_case" end.

Record Config : Type := mkConfig {
  grid_expansion_load_factors : string -> Q;
  grid_expansion_allowed_voltage_deviations : string -> Q
}.

Record Results : Type := mkResults {
  i_res : DataFrame Timestamp string Q;
  s_res : DataFrame Timestamp string Q;
  v_res : DataFrame Timestamp string Q;
  pfa_slack : DataFrame Timestamp string Q
}.

Record EDisGo : Type := mkEDisGo {
  topology : Topology;
  config : Config;
  timesteps_load_feedin_case : Series Timestamp Case;
  results : Results
}.

(** The error kinds of the checks, each the exception the code raises. *)
Definition NoResultsAvailable : exn :=
  Exception "No power flow results to check over-load for. Please perform power flow analysis first.".

Definition PrerequisiteMissing : exn :=
  ValueError "MV was not included in power flow analysis, wherefore load of HV/MV station cannot be calculated.".

Definition FatalConstraintViolation : exn :=
  ValueError "Maximum allowed voltage deviation of 10% exceeded.".

Definition InvalidGrid : exn := ValueError "Inserted grid is invalid.".

(** *** Allowed line loading *)

Definition line_names (l : list Line) : list string := map line_name l.

(** The lines of a voltage level: the MV grid's lines, or all others. *)
Definition lines_in_voltage_level (edisgo_obj : EDisGo) (voltage_level fn : string)
  : result (list Line) :=
  let mv_grid := mv_grid (topology edisgo_obj) in
  if String.eqb voltage_level "lv" then
    ret (List.filter (fun l => negb (isin (line_name l) (line_names (grid_lines_df mv_grid))))
                (lines_df (topology edisgo_obj)))
  else if String.eqb voltage_level "mv" then
    ret (grid_lines_df mv_grid)
  else
    raise (ValueError (voltage_level ++
      " is not a valid option for input variable 'voltage_level'" ++ fn ++
      ". Try 'mv' or 'lv'.")).

(** The column [s_nom] of a line table, and [lines_df.loc[names].s_nom]. *)
Definition s_nom_of (lines_df : list Line) (name : string) : Q :=
  match find (fun l => String.eqb (line_name l) name) lines_df with
  | Some l => s_nom l
  | None => 0
  end.

Definition s_nom_series (lines_df : list Line) (names : list string) : Series string Q :=
  mkSeries names (s_nom_of lines_df).

Definition scale (s : Series string Q) (k : Q) : Series string Q :=
  mkSeries (s_index s) (fun n => s_val s n * k).

Definition concat_s (a b : Series string Q) : Series string Q :=
  mkSeries (s_index a ++ s_index b)
           (fun n => if isin n (s_index a) then s_val a n else s_val b n).

Definition line_load_factor (edisgo_obj : EDisGo) (voltage_level : string) (case : Case) : Q :=
  grid_expansion_load_factors (config edisgo_obj)
    (voltage_level ++ "_" ++ case_name case ++ "_line").

Definition buses_in_cycles (edisgo_obj : EDisGo) : list string :=
  List.concat (rings (topology edisgo_obj)).

(** A line is in a cycle when both its buses are. *)
Definition in_cycle (edisgo_obj : EDisGo) (l : Line) : bool :=
  isin (bus0 l) (buses_in_cycles edisgo_obj) && isin (bus1 l) (buses_in_cycles edisgo_obj).

(** The body of the loop over the two cases. *)
Definition allowed_load_per_case (edisgo_obj : EDisGo) (voltage_level : string)
    (lines_df : list Line) (case : Case) : Series string Q :=
  let load_factor := line_load_factor edisgo_obj voltage_level case in
  if negb (Qeq_bool load_factor 1) then
    let lines_in_cycles := line_names (List.filter (in_cycle edisgo_obj) lines_df) in
    let lines_radial_feeders :=
      line_names (List.filter (fun l => negb (isin (line_name l) lines_in_cycles)) lines_df) in
    concat_s (scale (s_nom_series lines_df lines_in_cycles) load_factor)
             (s_nom_series lines_df lines_radial_feeders)
  else
    scale (s_nom_series lines_df (line_names lines_df)) load_factor.

(** A series of series, expanded to a frame: one row per label, the columns
    of the first row. *)
Definition expand (s : Series Timestamp (Series string Q)) : DataFrame Timestamp string Q :=
  mkFrame (s_index s)
          (match s_index s with t :: _ => s_index (s_val s t) | [] => [] end)
          (fun t n => s_val (s_val s t) n).

Definition _lines_allowed_load_voltage_level (edisgo_obj : EDisGo) (voltage_level : string)
  : result (DataFrame Timestamp string Q) :=
  let* lines_df := lines_in_voltage_level edisgo_obj voltage_level
                     " in function lines_allowed_load_voltage_level" in
  let* cases := series_loc (timesteps_load_feedin_case edisgo_obj)
                           (index (i_res (results edisgo_obj))) in
  ret (expand (apply cases (allowed_load_per_case edisgo_obj voltage_level lines_df))).

(** [pd.concat([a, b], axis=1)] of two frames over the same index. *)
Definition concat_axis1 (a b : DataFrame Timestamp string Q) : DataFrame Timestamp string Q :=
  mkFrame (index a) (columns a ++ columns b)
          (fun t c => if isin c (columns a) then cell a t c else cell b t c).

Definition lines_allowed_load (edisgo_obj : EDisGo) (lines : option (list string))
  : result (DataFrame Timestamp string Q) :=
  let* allowed_load_lv := _lines_allowed_load_voltage_level edisgo_obj "lv" in
  let* allowed_load_mv := _lines_allowed_load_voltage_level edisgo_obj "mv" in
  let allowed_load := concat_axis1 allowed_load_lv allowed_load_mv in
  match lines with
  | None => ret allowed_load
  | Some lines => loc_columns allowed_load lines
  end.

Definition lines_relative_load (edisgo_obj : EDisGo) (lines : option (list string))
  : result (DataFrame Timestamp string (option Q)) :=
  let lines := match lines with
               | None => columns (i_res (results edisgo_obj))
               | Some lines => lines
               end in
  let* allowed_loading := lines_allowed_load edisgo_obj (Some lines) in
  let* loading := loc_columns (s_res (results edisgo_obj)) lines in
  ret (binop np.div (some_cells loading) (some_cells allowed_loading)).

(** *** Line over-loading *)

Record CritLine : Type := mkCritLine {
  crit_line : string;
  max_rel_overload : Q;
  line_time_index : option Timestamp;
  line_voltage_level : string
}.

Definition _line_overload (edisgo_obj : EDisGo) (voltage_level : string)
  : result (list CritLine) :=
  if empty (i_res (results edisgo_obj)) then raise NoResultsAvailable
  else
    let* lines_df := lines_in_voltage_level edisgo_obj voltage_level "" in
    let lines := line_names lines_df in
    let* relative_i_res := lines_relative_load edisgo_obj (Some lines) in
    let over := mask_nan relative_i_res
                  (fun t c => np.gt (cell relative_i_res t c) (Some 1)) in
    ret (omap (fun c =>
                 match argmax (column_items over c) with
                 | Some (_, m) =>
                     Some (mkCritLine c m
                             (option_map fst (argmax (column_items relative_i_res c)))
                             voltage_level)
                 | None => None
                 end)
              (columns relative_i_res)).

Definition mv_line_overload (edisgo_obj : EDisGo) : result (list CritLine) :=
  _line_overload edisgo_obj "mv".

Definition lv_line_overload (edisgo_obj : EDisGo) : result (list CritLine) :=
  _line_overload edisgo_obj "lv".

(** *** Station loading *)

Section Stations.

(** [np.hypot]: the apparent power of an active and a reactive power. It is
    a square root, so it is a parameter of the model. *)
Variable hypot : Q -> Q -> Q.

Definition Qsum (l : list Q) : Q := fold_left Qplus l 0.

(** [df.p] *)
Definition column (df : DataFrame Timestamp string Q) (name : string)
  : result (Series Timestamp Q) :=
  if isin name (columns df) then ret (mkSeries (index df) (fun t => cell df t name))
  else raise (AttributeError name).

Definition _station_load (edisgo_obj : EDisGo) (grid : Grid)
  : result (DataFrame Timestamp string Q) :=
  match grid_class grid with
  | LVGrid =>
      let* s := loc_columns (s_res (results edisgo_obj))
                            (map trafo_name (transformers_df grid)) in
      ret (mkFrame (index s) [station_name grid]
                   (fun t _ => Qsum (map (cell s t) (columns s))))
  | MVGrid =>
      let mv_lines := line_names (grid_lines_df (mv_grid (topology edisgo_obj))) in
      if negb (existsb (fun l => isin l (columns (i_res (results edisgo_obj)))) mv_lines)
      then raise PrerequisiteMissing
      else
        let* p := column (pfa_slack (results edisgo_obj)) "p" in
        let* q := column (pfa_slack (results edisgo_obj)) "q" in
        ret (mkFrame (s_index p) [station_name grid]
                     (fun t _ => hypot (s_val p t) (s_val q t)))
  | Grid_ => raise InvalidGrid
  end.

Definition voltage_level_of (grid : Grid) : result string :=
  match grid_class grid with
  | LVGrid => ret "lv"
  | MVGrid => ret "mv"
  | Grid_ => raise InvalidGrid
  end.

Definition transformer_load_factor (edisgo_obj : EDisGo) (voltage_level : string)
    (case : Case) : Q :=
  grid_expansion_load_factors (config edisgo_obj)
    (voltage_level ++ "_" ++ case_name case ++ "_transformer").

Definition _station_allowed_load (edisgo_obj : EDisGo) (grid : Grid)
  : result (DataFrame Timestamp string Q) :=
  let* vt := match grid_class grid with
             | LVGrid => ret ("lv", transformers_df grid)
             | MVGrid => ret ("mv", transformers_hvmv_df (topology edisgo_obj))
             | Grid_ => raise InvalidGrid
             end in
  let '(voltage_level, transformers_df) := vt in
  let s_station := Qsum (map trafo_s_nom transformers_df) in
  let load_factor := apply (timesteps_load_feedin_case edisgo_obj)
                           (transformer_load_factor edisgo_obj voltage_level) in
  ret (mkFrame (s_index load_factor) [station_name grid]
               (fun t _ => s_station * s_val load_factor t)).

(** *** Station over-loading *)

Record CritStation : Type := mkCritStation {
  crit_station : string;
  s_missing : option Q;
  station_time_index : option Timestamp;
  station_grid : Grid
}.

Definition _station_overload (edisgo_obj : EDisGo) (grid : Grid)
  : result (list CritStation) :=
  let* voltage_level := voltage_level_of grid in
  let* s_station_pfa := _station_load edisgo_obj grid in
  let* s_station_allowed := _station_allowed_load edisgo_obj grid in
  let s_res := binop np.sub (some_cells s_station_allowed) (some_cells s_station_pfa) in
  let s_res := mask_nan s_res (fun t c => np.lt (cell s_res t c) (Some 0)) in
  if negb (empty (dropna s_res)) then
    let load_factor := apply (timesteps_load_feedin_case edisgo_obj)
                         (fun c => Some (transformer_load_factor edisgo_obj voltage_level c)) in
    let* s_res0 := iloc_col0 s_res in
    let s_missing := dropna_s (binop_s np.div s_res0 load_factor) in
    ret [mkCritStation (station_name grid) (np.abs (min_s s_missing))
                       (idxmin_s s_missing) grid]
  else ret [].

Definition hv_mv_station_overload (edisgo_obj : EDisGo) : result (list CritStation) :=
  _station_overload edisgo_obj (mv_grid (topology edisgo_obj)).

Definition mv_lv_station_overload (edisgo_obj : EDisGo) : result (list CritStation) :=
  fold_left (fun acc lv_grid =>
               let* crit_stations := acc in
               let* crit := _station_overload edisgo_obj lv_grid in
               ret (crit_stations ++ crit))
            (lv_grids (topology edisgo_obj)) (ret []).

End Stations.

(** *** Voltage limits *)

Definition voltage_deviation (edisgo_obj : EDisGo) (key : string) : Q :=
  grid_expansion_allowed_voltage_deviations (config edisgo_obj) key.

Definition _mv_allowed_voltage_limits (edisgo_obj : EDisGo) (voltage_levels : string)
  : result (Series Timestamp Q * Series Timestamp Q) :=
  let feedin_case_lower := voltage_deviation edisgo_obj "feed-in_case_lower" in
  let load_case_upper := voltage_deviation edisgo_obj "load_case_upper" in
  let offset := voltage_deviation edisgo_obj "hv_mv_trafo_offset" in
  let control_deviation := voltage_deviation edisgo_obj "hv_mv_trafo_control_deviation" in
  if String.eqb voltage_levels "mv_lv" || String.eqb voltage_levels "mv" then
    let feedin_case_upper :=
      1 + offset + control_deviation
      + voltage_deviation edisgo_obj (voltage_levels ++ "_feed-in_case_max_v_deviation") in
    let load_case_lower :=
      1 + offset - control_deviation
      - voltage_deviation edisgo_obj (voltage_levels ++ "_load_case_max_v_deviation") in
    let v_limits_upper :=
      apply (timesteps_load_feedin_case edisgo_obj)
            (fun c => match c with feedin_case => feedin_case_upper
                              | load_case => load_case_upper end) in
    let v_limits_lower :=
      apply (timesteps_load_feedin_case edisgo_obj)
            (fun c => match c with feedin_case => feedin_case_lower
                              | load_case => load_case_lower end) in
    ret (v_limits_upper, v_limits_lower)
  else
    raise (ValueError ("Specified mode " ++ voltage_levels ++ " is not a valid option.")).

(** *** Voltage deviations *)

(** [df - values] and [-df + values], the values taken along the columns. *)
Definition minus_values (df : DataFrame string Timestamp Q) (values : Series Timestamp Q)
  : DataFrame string Timestamp Q :=
  mkFrame (index df) (columns df) (fun b t => cell df b t - s_val values t).

Definition neg_plus_values (df : DataFrame string Timestamp Q) (values : Series Timestamp Q)
  : DataFrame string Timestamp Q :=
  mkFrame (index df) (columns df) (fun b t => - cell df b t + s_val values t).

Definition voltage_diff (edisgo_obj : EDisGo) (buses : list string)
    (v_dev_allowed_upper v_dev_allowed_lower : Series Timestamp Q)
  : result (DataFrame string Timestamp Q * DataFrame string Timestamp Q) :=
  let* v_mag_pu_pfa := loc_columns (v_res (results edisgo_obj)) buses in
  let* upper := series_loc v_dev_allowed_upper (index v_mag_pu_pfa) in
  let* lower := series_loc v_dev_allowed_lower (index v_mag_pu_pfa) in
  let overvoltage :=
    dropna_all (where_ (T v_mag_pu_pfa)
                       (fun b t => np.Qltb (s_val upper t) (cell v_mag_pu_pfa t b))) in
  let undervoltage :=
    dropna_all (where_ (T v_mag_pu_pfa)
                       (fun b t => np.Qltb (cell v_mag_pu_pfa t b) (s_val lower t))) in
  (* sort buses with under- and overvoltage issues in a way that worst case
     is saved *)
  let* buses_both :=
    loc_columns v_mag_pu_pfa
      (List.filter (fun b => isin b (index undervoltage)) (index overvoltage)) in
  let voltage_diff_ov0 := minus_values (T buses_both) upper in
  let voltage_diff_uv0 := neg_plus_values (T buses_both) lower in
  let voltage_diff_ov1 :=
    loc_rows voltage_diff_ov0
      (fun b => np.gt (max_axis1 voltage_diff_ov0 b) (max_axis1 voltage_diff_uv0 b)) in
  let voltage_diff_uv1 :=
    loc_rows voltage_diff_uv0 (fun b => negb (isin b (index voltage_diff_ov1))) in
  (* handle buses with overvoltage issues and append to voltage_diff_ov *)
  let* buses_ov :=
    loc_columns v_mag_pu_pfa
      (List.filter (fun b => negb (isin b (columns buses_both))) (index overvoltage)) in
  let voltage_diff_ov :=
    concat voltage_diff_ov1 (minus_values (T buses_ov) upper) in
  (* handle buses with undervoltage issues and append to voltage_diff_uv *)
  let* buses_uv :=
    loc_columns v_mag_pu_pfa
      (List.filter (fun b => negb (isin b (columns buses_both))) (index undervoltage)) in
  let voltage_diff_uv :=
    concat voltage_diff_uv1 (neg_plus_values (T buses_uv) lower) in
  ret (voltage_diff_uv, voltage_diff_ov).

Record CritBus : Type := mkCritBus {
  crit_bus : string;
  v_diff_max : option Q;
  bus_time_index : option Timestamp
}.

Definition _append_crit_buses (df : DataFrame string Timestamp Q) : list CritBus :=
  map (fun b => mkCritBus b (max_axis1 df b) (idxmax_axis1 df b)) (index df).

Section VoltageDeviation.

(** [crit_buses_grid.sort_values(by=["v_diff_max"], ascending=False)]: the
    sort is pandas' own and is called with its default kind, so it is a
    parameter here; [sorts_descending] below is what pandas promises of it. *)
Variable sort_values : list CritBus -> list CritBus.

Definition _voltage_deviation (edisgo_obj : EDisGo) (buses : list string)
    (v_limits_upper v_limits_lower : Series Timestamp Q) : result (list CritBus) :=
  let crit_buses_grid := [] in
  let* uv_ov := voltage_diff edisgo_obj buses v_limits_upper v_limits_lower in
  let '(voltage_diff_uv, voltage_diff_ov) := uv_ov in
  (* append to crit buses dataframe *)
  let crit_buses_grid :=
    if negb (empty voltage_diff_ov)
    then crit_buses_grid ++ _append_crit_buses voltage_diff_ov
    else crit_buses_grid in
  let crit_buses_grid :=
    if negb (empty voltage_diff_uv)
    then crit_buses_grid ++ _append_crit_buses voltage_diff_uv
    else crit_buses_grid in
  ret (match crit_buses_grid with
       | [] => crit_buses_grid
       | _ :: _ => sort_values crit_buses_grid
       end).

End VoltageDeviation.

(** *** The ten-percent criterion *)

Definition check_ten_percent_voltage_deviation (edisgo_obj : EDisGo) : result unit :=
  let v_mag_pu_pfa := v_res (results edisgo_obj) in
  if any_any v_mag_pu_pfa (fun v => np.Qltb (11 # 10) v)
     || any_any v_mag_pu_pfa (fun v => np.Qltb v (9 # 10))
  then raise FatalConstraintViolation
  else ret tt.

(** *** Loops over grids and time steps *)

(** [for x in xs], the state threaded through the body; the first exception
    ends the loop. *)
Fixpoint for_in {A St : Type} (xs : list A) (body : A -> St -> result St) (s : St)
  : result St :=
  match xs with
  | [] => ret s
  | x :: xs' => let* s' := body x s in for_in xs' body s'
  end.

(** *** Relative loading of stations and components *)

Section RelativeLoad.

Variable hypot : Q -> Q -> Q.

(** The index pandas gives the concatenation of two frames along the columns
    when their indexes differ and neither is empty: their union, in an order
    that depends on the class of the index and on the version of pandas. *)
Variable union_unaligned : list Timestamp -> list Timestamp -> list Timestamp.

(** [pd.DataFrame()] *)
Definition no_frame : DataFrame Timestamp string (option Q) :=
  mkFrame [] [] (fun _ _ => None).

(** [pd.concat([a, b], axis=1)]: the columns of [b] to the right of the
    columns of [a].  Two equal indexes are kept, an empty index gives way to
    the other one; a cell outside the index of its frame is [NaN]. *)
Definition concat_index (a b : list Timestamp) : list Timestamp :=
  if decide (a = b) then a
  else match a, b with
       | [], _ => b
       | _, [] => a
       | _, _ => union_unaligned a b
       end.

Definition concat_columns (a b : DataFrame Timestamp string (option Q))
  : DataFrame Timestamp string (option Q) :=
  mkFrame (concat_index (index a) (index b)) (columns a ++ columns b)
          (fun t c => if isin c (columns a) then get a t c else get b t c).

(** The default of the argument [grids]: all LV grids, then the MV grid. *)
Definition grids_or_all (edisgo_obj : EDisGo) (grids : option (list Grid)) : list Grid :=
  match grids with
  | None => lv_grids (topology edisgo_obj) ++ [mv_grid (topology edisgo_obj)]
  | Some grids => grids
  end.

Definition stations_allowed_load (edisgo_obj : EDisGo) (grids : option (list Grid))
  : result (DataFrame Timestamp string (option Q)) :=
  let grids := grids_or_all edisgo_obj grids in
  for_in grids
    (fun grid allowed_loading =>
       let* allowed := _station_allowed_load edisgo_obj grid in
       ret (concat_columns allowed_loading (some_cells allowed)))
    no_frame.

Definition stations_relative_load (edisgo_obj : EDisGo) (grids : option (list Grid))
  : result (DataFrame Timestamp string (option Q)) :=
  let grids := grids_or_all edisgo_obj grids in
  (* get allowed loading *)
  let* allowed_loading := stations_allowed_load edisgo_obj (Some grids) in
  (* get loading from power flow results *)
  let* loading :=
    for_in grids
      (fun grid loading =>
         (* check that grid was included in power flow analysis *)
         match _station_load hypot edisgo_obj grid with
         | inr load => ret (concat_columns loading (some_cells load))
         | inl _ => ret loading
         end)
      no_frame in
  let* allowed := loc_columns allowed_loading (columns loading) in
  ret (binop np.div loading allowed).

Definition components_relative_load (edisgo_obj : EDisGo)
  : result (DataFrame Timestamp string (option Q)) :=
  let* stations_rel_load := stations_relative_load edisgo_obj None in
  let* lines_rel_load := lines_relative_load edisgo_obj None in
  ret (concat_columns lines_rel_load stations_rel_load).

End RelativeLoad.

(** *** Voltage limits of an LV grid *)

(** [df.loc[:, label]] and [s.loc[label]] with one label. *)
Definition loc_column (df : DataFrame Timestamp string Q) (label : string)
  : result (Series Timestamp Q) :=
  if isin label (columns df) then ret (mkSeries (index df) (fun t => cell df t label))
  else raise (KeyError label).

Definition loc_label {V} (s : Series Timestamp V) (t : Timestamp) : result V :=
  if isin t (s_index s) then ret (s_val s t) else raise (KeyError (pretty t)).

(** [pd.Series(values, index=index)] *)
Definition series_of_values (values : list Q) (index : list Timestamp)
  : Series Timestamp Q :=
  mkSeries index
    (fun t => match List.find (fun p => bool_decide (fst p = t)) (combine index values) with
              | Some (_, v) => v
              | None => 0
              end).

(** [mode == "stations"] for an argument that may be [None]. *)
Definition is_stations (mode : option string) : bool :=
  match mode with Some m => String.eqb m "stations" | None => false end.

Definition _lv_allowed_voltage_limits (edisgo_obj : EDisGo) (lv_grid : Grid)
    (mode : option string) : result (Series Timestamp Q * Series Timestamp Q) :=
  (* get reference voltages for different modes *)
  let* reference :=
    if is_stations mode then
      (* reference voltage is voltage at stations' primary side *)
      let* bus_station_primary :=
        match transformers_df lv_grid with
        | t :: _ => ret (trafo_bus0 t)
        | [] => raise (IndexError "single positional indexer is out-of-bounds")
        end in
      let* voltage_base := loc_column (v_res (results edisgo_obj)) bus_station_primary in
      ret (voltage_base, "mv_lv_station")
    else
      (* reference voltage is voltage at stations' secondary side *)
      let* bus_station_secondary :=
        match station lv_grid with
        | b :: _ => ret b
        | [] => raise (IndexError "index 0 is out of bounds for axis 0 with size 0")
        end in
      let* voltage_base := loc_column (v_res (results edisgo_obj)) bus_station_secondary in
      ret (voltage_base, "lv") in
  let '(voltage_base, config_string) := reference in
  let timeindex := s_index voltage_base in
  let v_allowed_per_case (case : Case) (which : string) : Series Timestamp Q :=
    match case with
    | feedin_case =>
        if String.eqb which "upper" then
          mkSeries timeindex
            (fun t => s_val voltage_base t
                      + voltage_deviation edisgo_obj
                          (config_string ++ "_feed-in_case_max_v_deviation"))
        else
          mkSeries timeindex (fun _ => voltage_deviation edisgo_obj "feed-in_case_lower")
    | load_case =>
        if String.eqb which "upper" then
          mkSeries timeindex (fun _ => voltage_deviation edisgo_obj "load_case_upper")
        else
          mkSeries timeindex
            (fun t => s_val voltage_base t
                      - voltage_deviation edisgo_obj
                          (config_string ++ "_load_case_max_v_deviation"))
    end in
  (* create series with upper and lower voltage limits for each time step *)
  let load_feedin_case := timesteps_load_feedin_case edisgo_obj in
  let* limits :=
    for_in timeindex
      (fun t '(v_limits_upper, v_limits_lower) =>
         let* case := loc_label load_feedin_case t in
         let* upper := loc_label (v_allowed_per_case case "upper") t in
         let* lower := loc_label (v_allowed_per_case case "lower") t in
         ret (v_limits_upper ++ [upper], v_limits_lower ++ [lower]))
      ([], []) in
  let '(v_limits_upper, v_limits_lower) := limits in
  ret (series_of_values v_limits_upper timeindex,
       series_of_values v_limits_lower timeindex).

(** *** Voltage deviations per grid *)

Section GridReports.

Variable sort_values : list CritBus -> list CritBus.

(** [repr(grid)] and [str(grid)]: the names the grid classes give their
    objects; the classes are not part of this module. *)
Variable repr : Grid -> string.
Variable str : Grid -> string.

Definition mv_voltage_deviation (edisgo_obj : EDisGo) (voltage_levels : string)
  : result (gmap string (list CritBus)) :=
  let crit_buses : gmap string (list CritBus) := ∅ in
  (* get allowed lower and upper voltage limits *)
  let* limits := _mv_allowed_voltage_limits edisgo_obj voltage_levels in
  let '(v_limits_upper, v_limits_lower) := limits in
  (* find buses with voltage issues and their maximum voltage deviation *)
  let* crit_buses_grid :=
    _voltage_deviation sort_values edisgo_obj
      (buses_df (mv_grid (topology edisgo_obj))) v_limits_upper v_limits_lower in
  match crit_buses_grid with
  | _ :: _ => ret (<[repr (mv_grid (topology edisgo_obj)) := crit_buses_grid]> crit_buses)
  | [] => ret crit_buses
  end.

(** [if mode:] for an argument that is [None] or a string. *)
Definition truthy (mode : option string) : bool :=
  match mode with
  | Some m => negb (String.eqb m "")
  | None => false
  end.

Definition mode_name (mode : option string) : string :=
  match mode with Some m => m | None => "None" end.

Definition lv_voltage_deviation (edisgo_obj : EDisGo) (mode : option string)
    (voltage_levels : string) : result (gmap string (list CritBus)) :=
  let crit_buses : gmap string (list CritBus) := ∅ in
  (* the limits are bound here for 'mv_lv' and in the loop for 'lv' *)
  let* limits :=
    if String.eqb voltage_levels "mv_lv" then
      let* limits := _mv_allowed_voltage_limits edisgo_obj "mv_lv" in ret (Some limits)
    else if negb (String.eqb "lv" voltage_levels) then
      raise (ValueError (voltage_levels ++
        " is not a valid option for input variable 'voltage_levels' in function lv_voltage_deviation. Try 'mv_lv' or 'lv'."))
    else ret None in
  for_in (lv_grids (topology edisgo_obj))
    (fun lv_grid crit_buses =>
       let* buses :=
         if truthy mode then
           if is_stations mode then ret (station lv_grid)
           else raise (ValueError (mode_name mode ++
             " is not a valid option for input variable 'mode' in function lv_voltage_deviation. Try 'stations' or None."))
         else ret (buses_df lv_grid) in
       let* limits :=
         if String.eqb voltage_levels "lv" then
           _lv_allowed_voltage_limits edisgo_obj lv_grid mode
         else
           match limits with
           | Some limits => ret limits
           | None => raise (UnboundLocalError "v_limits_upper")
           end in
       let '(v_limits_upper, v_limits_lower) := limits in
       let* crit_buses_grid :=
         _voltage_deviation sort_values edisgo_obj buses v_limits_upper v_limits_lower in
       match crit_buses_grid with
       | _ :: _ => ret (<[str lv_grid := crit_buses_grid]> crit_buses)
       | [] => ret crit_buses
       end)
    crit_buses.

End GridReports.

End check_tech_constraints.

(** ** edisgo/io/powermodels_io.py *)

Module powermodels_io.
Import pd.

Definition Timestamp : Type := Z.

(** *** The PyPSA network, as far as the exporter reads it *)

Record Bus : Type := mkBus {
  bus_name : string;
  control : string;
  v_mag_pu_max : Q;
  v_mag_pu_min : Q;
  v_mag_pu_set : Q;
  v_nom : Q
}.

Record Generator : Type := mkGenerator {
  gen_name : string;
  gen_at_bus : string;
  gen_p_set : Q;
  gen_q_set : Q;
  gen_p_max_pu : Q;
  gen_p_min_pu : Q;
  gen_p_nom : Q
}.

Record Line : Type := mkLine {
  line_name : string;
  line_bus0 : string;
  line_bus1 : string;
  line_r_pu : Q;
  line_x_pu : Q;
  line_b_pu : Q;
  line_g_pu : Q;
  line_s_nom : Q
}.

Record Transformer : Type := mkTransformer {
  trafo_name : string;
  trafo_bus0 : string;
  trafo_bus1 : string;
  trafo_r : Q;
  trafo_x : Q;
  trafo_s_nom : Q;
  trafo_r_pu : Q;
  trafo_x_pu : Q;
  trafo_b_pu : Q;
  trafo_g_pu : Q;
  trafo_tap_ratio : Q;
  trafo_phase_shift : Q
}.

Record Load : Type := mkLoad {
  load_name : string;
  load_at_bus : string;
  load_p_set : Q;
  load_q_set : Q;
  load_cop : Q;
  load_p_max : Q
}.

Record StorageUnit : Type := mkStorageUnit {
  stor_name : string;
  stor_at_bus : string;
  stor_p_set : Q;
  stor_q_set : Q;
  state_of_charge_initial : Q;
  stor_p_max_pu : Q;
  stor_p_min_pu : Q
}.

Record Network : Type := mkNetwork {
  buses : list Bus;
  generators : list Generator;
  lines : list Line;
  transformers : list Transformer;
  loads : list Load;
  storage_units : list StorageUnit;
  snapshots : list Timestamp;
  generators_t_p_set : DataFrame Timestamp string Q;
  generators_t_q_set : DataFrame Timestamp string Q;
  loads_t_p_set : DataFrame Timestamp string Q;
  loads_t_q_set : DataFrame Timestamp string Q;
  storage_units_t_p_set : DataFrame Timestamp string Q;
  storage_units_t_q_set : DataFrame Timestamp string Q
}.

Definition with_transformers (psa_net : Network) (t : list Transformer) : Network :=
  mkNetwork (buses psa_net) (generators psa_net) (lines psa_net) t (loads psa_net)
            (storage_units psa_net) (snapshots psa_net)
            (generators_t_p_set psa_net) (generators_t_q_set psa_net)
            (loads_t_p_set psa_net) (loads_t_q_set psa_net)
            (storage_units_t_p_set psa_net) (storage_units_t_q_set psa_net).

(** The flexibility bands of the charging points, as
    [electromobility.get_flexibility_bands] returns them. *)
Record FlexBands : Type := mkFlexBands {
  upper_power : DataFrame Timestamp string Q;
  lower_energy : DataFrame Timestamp string Q;
  upper_energy : DataFrame Timestamp string Q
}.

Record EDisGo : Type := mkEDisGo {
  to_pypsa : Network;
  topology_id : Z;
  get_flexibility_bands : FlexBands
}.

(** *** The PowerModels dictionary *)

Record BusRec : Type := mkBusRec {
  bus_index : nat;
  bus_i : nat;
  zone : Z;
  bus_type : nat;
  vmax : Q;
  vmin : Q;
  va : Q;
  vm : Q;
  base_kv : Q
}.

Record GenRec : Type := mkGenRec {
  pg : Q;
  qg : Q;
  gen_pmax : Q;
  gen_pmin : Q;
  gen_qmax : Q;
  gen_qmin : Q;
  vg : Q;
  mbase : Q;
  gen_bus : nat;
  gen_status : Z;
  gen_index : nat;
  model : Z;
  ncost : Z;
  cost : list Q
}.

Record BranchRec : Type := mkBranchRec {
  br_name : string;
  br_r : Q;
  br_x : Q;
  f_bus : nat;
  t_bus : nat;
  g_to : Q;
  g_fr : Q;
  b_to : Q;
  b_fr : Q;
  shift : Q;
  br_status : Q;
  rate_a : Q;
  rate_b : Q;
  rate_c : Q;
  angmin : Q;
  angmax : Q;
  transformer : bool;
  tap : Q;
  br_index : nat
}.

Record LoadRec : Type := mkLoadRec {
  load_pd : Q;
  load_qd : Q;
  load_bus : nat;
  load_status : bool;
  load_index : nat
}.

Record StorageRec : Type := mkStorageRec {
  stor_x : Q;
  stor_r : Q;
  ps : Q;
  qs : Q;
  stor_pmax : Q;
  stor_pmin : Q;
  p_loss : Q;
  stor_qmax : Q;
  stor_qmin : Q;
  q_loss : Q;
  energy : Q;
  energy_rating : Q;
  thermal_rating : Q;
  charge_rating : Q;
  discharge_rating : Q;
  charge_efficiency : Q;
  discharge_efficiency : Q;
  storage_bus : nat;
  stor_status : bool;
  stor_index : nat
}.

Record EmobRec : Type := mkEmobRec {
  cp_pd : Q;
  cp_qd : Q;
  cp_p_max : Q;
  cp_e_min : Q;
  cp_e_max : Q;
  cp_bus : nat;
  cp_index : nat
}.

Record HeatpumpRec : Type := mkHeatpumpRec {
  hp_pd : Q;
  hp_qd : Q;
  hp_p_max : Q;
  hp_cop : Q;
  hp_bus : nat;
  hp_index : nat
}.

(** One entry of a section of [pm["time_series"]]. *)
Inductive TsRec : Type :=
| TsGen (pg qg : list Q)
| TsLoad (pd qd : list Q)
| TsStorage (ps qs : list Q)
| TsEmob (p_max e_min e_max : list Q).

Record TimeSeries : Type := mkTimeSeries {
  ts_gen : gmap string TsRec;
  ts_load : gmap string TsRec;
  ts_storage : gmap string TsRec;
  ts_electromobility : gmap string TsRec;
  ts_heatpumps : gmap string TsRec;
  num_steps : nat
}.

(** [time_series] is [None] while it is the empty dictionary [_init_pm] puts
    there, [time_elapsed] is [None] while the key is absent. *)
Record PM : Type := mkPM {
  gen : gmap string GenRec;
  branch : gmap string BranchRec;
  bus : gmap string BusRec;
  dcline : gmap string unit;
  load : gmap string LoadRec;
  storage : gmap string StorageRec;
  switch : gmap string unit;
  electromobility : gmap string EmobRec;
  heatpumps : gmap string HeatpumpRec;
  dsm : gmap string unit;
  baseMVA : Z;
  source_version : Z;
  shunt : gmap string unit;
  sourcetype : string;
  per_unit : bool;
  name : string;
  time_elapsed : option Z;
  time_series : option TimeSeries
}.

Definition _init_pm : PM :=
  mkPM ∅ ∅ ∅ ∅ ∅ ∅ ∅ ∅ ∅ ∅ 1 2 ∅ "eDisGo" true "name" None None.

(** Assignments to one key of [pm]. *)
Definition set_gen (f : gmap string GenRec -> gmap string GenRec) (pm : PM) : PM :=
  mkPM (f (gen pm)) (branch pm) (bus pm) (dcline pm) (load pm) (storage pm) (switch pm)
       (electromobility pm) (heatpumps pm) (dsm pm) (baseMVA pm) (source_version pm)
       (shunt pm) (sourcetype pm) (per_unit pm) (name pm) (time_elapsed pm) (time_series pm).

Definition set_branch (f : gmap string BranchRec -> gmap string BranchRec) (pm : PM) : PM :=
  mkPM (gen pm) (f (branch pm)) (bus pm) (dcline pm) (load pm) (storage pm) (switch pm)
       (electromobility pm) (heatpumps pm) (dsm pm) (baseMVA pm) (source_version pm)
       (shunt pm) (sourcetype pm) (per_unit pm) (name pm) (time_elapsed pm) (time_series pm).

Definition set_bus (f : gmap string BusRec -> gmap string BusRec) (pm : PM) : PM :=
  mkPM (gen pm) (branch pm) (f (bus pm)) (dcline pm) (load pm) (storage pm) (switch pm)
       (electromobility pm) (heatpumps pm) (dsm pm) (baseMVA pm) (source_version pm)
       (shunt pm) (sourcetype pm) (per_unit pm) (name pm) (time_elapsed pm) (time_series pm).

Definition set_load (f : gmap string LoadRec -> gmap string LoadRec) (pm : PM) : PM :=
  mkPM (gen pm) (branch pm) (bus pm) (dcline pm) (f (load pm)) (storage pm) (switch pm)
       (electromobility pm) (heatpumps pm) (dsm pm) (baseMVA pm) (source_version pm)
       (shunt pm) (sourcetype pm) (per_unit pm) (name pm) (time_elapsed pm) (time_series pm).

Definition set_storage (f : gmap string StorageRec -> gmap string StorageRec) (pm : PM) : PM :=
  mkPM (gen pm) (branch pm) (bus pm) (dcline pm) (load pm) (f (storage pm)) (switch pm)
       (electromobility pm) (heatpumps pm) (dsm pm) (baseMVA pm) (source_version pm)
       (shunt pm) (sourcetype pm) (per_unit pm) (name pm) (time_elapsed pm) (time_series pm).

Definition set_electromobility (f : gmap string EmobRec -> gmap string EmobRec) (pm : PM) : PM :=
  mkPM (gen pm) (branch pm) (bus pm) (dcline pm) (load pm) (storage pm) (switch pm)
       (f (electromobility pm)) (heatpumps pm) (dsm pm) (baseMVA pm) (source_version pm)
       (shunt pm) (sourcetype pm) (per_unit pm) (name pm) (time_elapsed pm) (time_series pm).

Definition set_heatpumps (f : gmap string HeatpumpRec -> gmap string HeatpumpRec) (pm : PM) : PM :=
  mkPM (gen pm) (branch pm) (bus pm) (dcline pm) (load pm) (storage pm) (switch pm)
       (electromobility pm) (f (heatpumps pm)) (dsm pm) (baseMVA pm) (source_version pm)
       (shunt pm) (sourcetype pm) (per_unit pm) (name pm) (time_elapsed pm) (time_series pm).

Definition set_time_series (ts : TimeSeries) (pm : PM) : PM :=
  mkPM (gen pm) (branch pm) (bus pm) (dcline pm) (load pm) (storage pm) (switch pm)
       (electromobility pm) (heatpumps pm) (dsm pm) (baseMVA pm) (source_version pm)
       (shunt pm) (sourcetype pm) (per_unit pm) (name pm) (time_elapsed pm) (Some ts).

Definition set_header (nm : string) (elapsed base version : Z) (pm : PM) : PM :=
  mkPM (gen pm) (branch pm) (bus pm) (dcline pm) (load pm) (storage pm) (switch pm)
       (electromobility pm) (heatpumps pm) (dsm pm) base version
       (shunt pm) (sourcetype pm) (per_unit pm) nm (Some elapsed) (time_series pm).

(** *** Helpers: loops and label lookups *)

(** [for i in np.arange(len(rows))], the state threaded through the body;
    the first exception ends the loop. *)
Fixpoint for_each_from {A St : Type} (i : nat) (rows : list A)
    (body : nat -> A -> St -> result St) (s : St) : result St :=
  match rows with
  | [] => ret s
  | a :: rows' => let* s' := body i a s in for_each_from (S i) rows' body s'
  end.

Definition for_each {A St : Type} (rows : list A)
    (body : nat -> A -> St -> result St) (s : St) : result St :=
  for_each_from 0 rows body s.

Fixpoint mapM {A B : Type} (f : A -> result B) (l : list A) : result (list B) :=
  match l with
  | [] => ret []
  | a :: l' => let* b := f a in let* bs := mapM f l' in ret (b :: bs)
  end.

(** The position of the first occurrence of a label. *)
Fixpoint position (label : string) (labels : list string) : option nat :=
  match labels with
  | [] => None
  | l :: labels' =>
      if String.eqb l label then Some 0%nat else option_map S (position label labels')
  end.

(** [str(i)] *)
Definition str (i : nat) : string := pretty i.

(** [df[comp].values.tolist()] *)
Definition tolist (df : DataFrame Timestamp string Q) (comp : string) : result (list Q) :=
  if isin comp (columns df) then ret (map (fun t => cell df t comp) (index df))
  else raise (KeyError comp).

(** [loads.drop(labels)] and [loads.loc[labels]] *)
Definition drop (loads : list Load) (labels : list string) : result (list Load) :=
  match List.filter (fun n => negb (isin n (map load_name loads))) labels with
  | [] => ret (List.filter (fun l => negb (isin (load_name l) labels)) loads)
  | n :: _ => raise (KeyError n)
  end.

Definition loc (loads : list Load) (labels : list string) : result (list Load) :=
  mapM (fun n => match find (fun l => String.eqb (load_name l) n) loads with
                 | Some l => ret l
                 | None => raise (KeyError n)
                 end)
       labels.

Definition startswith (prefix s : string) : bool := String.prefix prefix s.

(** *** _mapping *)

Definition _mapping (psa_net : Network) (name kind : string) : result nat :=
  let* df :=
    if String.eqb kind "bus" then ret (map bus_name (buses psa_net))
    else if String.eqb kind "gen" then ret (map gen_name (generators psa_net))
    else if String.eqb kind "storage" then ret (map stor_name (storage_units psa_net))
    else if String.eqb kind "load" then
      ret (List.filter (startswith "Load") (map load_name (loads psa_net)))
    else if String.eqb kind "emob" then
      ret (List.filter (startswith "Charging") (map load_name (loads psa_net)))
    else (* only a warning is logged, [df] stays unbound *)
      raise (UnboundLocalError "df") in
  match position name df with
  | Some i => ret (i + 1)%nat
  | None => raise (IndexError "index 0 is out of bounds for axis 0 with size 0")
  end.

(** *** Component tables *)

Definition bus_types : list string := ["PQ"; "PV"; "Slack"; "None"].

Definition _build_bus (psa_net : Network) (pm : PM) : result PM :=
  let* bus_types_int :=
    mapM (fun b => match position (control b) bus_types with
                   | Some i => ret (i + 1)%nat
                   | None => raise (ValueError ("'" ++ control b ++ "' is not in list"))
                   end)
         (buses psa_net) in
  for_each (combine (buses psa_net) bus_types_int)
    (fun i '(b, ty) pm =>
       ret (set_bus (insert (str (i + 1))
              (mkBusRec (i + 1) (i + 1) 1 ty
                        (Qmin (v_mag_pu_max b) (105 # 100))
                        (Qmax (v_mag_pu_min b) (985 # 1000))
                        0 (v_mag_pu_set b) (v_nom b))) pm))
    pm.

Definition with_bus_type (ty : nat) (b : BusRec) : BusRec :=
  mkBusRec (bus_index b) (bus_i b) (zone b) ty (vmax b) (vmin b) (va b) (vm b) (base_kv b).

Definition _build_gen (psa_net : Network) (pm : PM) : result PM :=
  (* the slack bus is the bus of the slack generator *)
  let* slack_gen :=
    match List.filter (fun g => String.eqb (gen_name g) "Generator_slack") (generators psa_net) with
    | g :: _ => ret (gen_at_bus g)
    | [] => raise (IndexError "index 0 is out of bounds for axis 0 with size 0")
    end in
  let* slack_idx := _mapping psa_net slack_gen "bus" in
  let* pm :=
    match bus pm !! str slack_idx with
    | Some b => ret (set_bus (insert (str slack_idx) (with_bus_type 3 b)) pm)
    | None => raise (KeyError (str slack_idx))
    end in
  for_each (generators psa_net)
    (fun i g pm =>
       let* idx_bus := _mapping psa_net (gen_at_bus g) "bus" in
       ret (set_gen (insert (str (i + 1))
              (mkGenRec (gen_p_set g) (gen_q_set g) (gen_p_max_pu g) (gen_p_min_pu g)
                        1 0 1 (gen_p_nom g) idx_bus 1 (i + 1) 2 3 [120; 20; 0])) pm))
    pm.

(** A row of [pd.concat([psa_net.lines, psa_net.transformers])]: lines have
    no tap ratio and no phase shift, so these cells are [NaN] in their rows. *)
Record BranchRow : Type := mkBranchRow {
  row_name : string;
  row_r_pu : Q;
  row_x_pu : Q;
  row_b_pu : Q;
  row_g_pu : Q;
  row_s_nom : Q;
  row_tap_ratio : option Q;
  row_phase_shift : option Q
}.

Definition row_of_line (l : Line) : BranchRow :=
  mkBranchRow (line_name l) (line_r_pu l) (line_x_pu l) (line_b_pu l) (line_g_pu l)
              (line_s_nom l) None None.

Definition row_of_transformer (t : Transformer) : BranchRow :=
  mkBranchRow (trafo_name t) (trafo_r_pu t) (trafo_x_pu t) (trafo_b_pu t) (trafo_g_pu t)
              (trafo_s_nom t) (Some (trafo_tap_ratio t)) (Some (trafo_phase_shift t)).

Definition fillna (x : option Q) (d : Q) : Q :=
  match x with Some v => v | None => d end.

Definition _build_branch (psa_net : Network) (pm : PM) : result PM :=
  let branches := map row_of_line (lines psa_net)
                  ++ map row_of_transformer (transformers psa_net) in
  for_each (lines psa_net)
    (fun i l pm =>
       let* idx_f_bus := _mapping psa_net (line_bus0 l) "bus" in
       let* idx_t_bus := _mapping psa_net (line_bus1 l) "bus" in
       match branches !! i with
       | Some row =>
           ret (set_branch (insert (str (i + 1))
                  (mkBranchRec (row_name row) (row_r_pu row) (row_x_pu row)
                               idx_f_bus idx_t_bus
                               (row_g_pu row / 2) (row_g_pu row / 2)
                               (row_b_pu row / 2) (row_b_pu row / 2)
                               (fillna (row_phase_shift row) 0)
                               1 (row_s_nom row) 250 250
                               (- np.pi / 6) (np.pi / 6)
                               (negb (np.isna (row_tap_ratio row)))
                               (fillna (row_tap_ratio row) 1)
                               (i + 1))) pm)
       | None => raise (IndexError "index out of bounds")
       end)
    pm.

Definition _build_load (psa_net : Network) (pm : PM) (flexible_cps flexible_hps : list string)
  : result PM :=
  let* loads1 := drop (loads psa_net) flexible_cps in
  let* loads_df := drop loads1 flexible_hps in
  for_each loads_df
    (fun i l pm =>
       let* idx_bus := _mapping psa_net (load_at_bus l) "bus" in
       ret (set_load (insert (str (i + 1))
              (mkLoadRec (load_p_set l) (load_q_set l) idx_bus true (i + 1))) pm))
    pm.

Definition _build_storage (psa_net : Network) (pm : PM) : result PM :=
  for_each (storage_units psa_net)
    (fun i s pm =>
       let* idx_bus := _mapping psa_net (stor_at_bus s) "bus" in
       ret (set_storage (insert (str (i + 1))
              (mkStorageRec 0 0 (stor_p_set s) (stor_q_set s)
                            (stor_p_max_pu s) (stor_p_min_pu s)
                            0 1 0 0 (state_of_charge_initial s)
                            0 0 0 0 1 1 idx_bus true (i + 1))) pm))
    pm.

Definition _build_electromobility (psa_net : Network) (pm : PM) (flexible_cps : list string)
  : result PM :=
  if (length flexible_cps =? 0)%nat then ret pm
  else
    let* emob_df := loc (loads psa_net) flexible_cps in
    for_each emob_df
      (fun i l pm =>
         let* idx_bus := _mapping psa_net (load_at_bus l) "bus" in
         ret (set_electromobility (insert (str (i + 1))
                (mkEmobRec (load_p_set l) (load_q_set l) 1 0 1 idx_bus (i + 1))) pm))
      pm.

Definition _build_heatpumps (psa_net : Network) (pm : PM) (flexible_hps : list string)
  : result PM :=
  if (length flexible_hps =? 0)%nat then ret pm
  else
    let* heat_df := loc (loads psa_net) flexible_hps in
    for_each heat_df
      (fun i l pm =>
         let* idx_bus := _mapping psa_net (load_at_bus l) "bus" in
         ret (set_heatpumps (insert (str (i + 1))
                (mkHeatpumpRec (load_p_set l) (load_q_set l) (load_p_max l) (load_cop l)
                               idx_bus (i + 1))) pm))
      pm.

(** *** Time series *)

Definition empty_frame : DataFrame Timestamp string Q := mkFrame [] [] (fun _ _ => 0).

(** [len(x)] of an argument whose default is [None]. *)
Definition len (l : option (list string)) : result nat :=
  match l with
  | Some l => ret (length l)
  | None => raise (TypeError "object of type 'NoneType' has no len()")
  end.

(** Reading a local variable that an earlier branch may have left unbound. *)
Definition bound {A : Type} (x : option A) (var : string) : result A :=
  match x with
  | Some a => ret a
  | None => raise (UnboundLocalError var)
  end.

(** [df[df.columns[df.columns.str.startswith(prefix)]]] *)
Definition columns_startswith (prefix : string) (df : DataFrame Timestamp string Q)
  : DataFrame Timestamp string Q :=
  mkFrame (index df) (List.filter (startswith prefix) (columns df)) (cell df).

(** The local variables of [_build_component_timeseries] after its first
    chain of branches: [pm_comp], [p_set], [q_set] and the three flexibility
    bands; [None] is a variable no branch has bound. *)
Definition Locals : Type :=
  (option (gmap string TsRec) * option (DataFrame Timestamp string Q)
   * option (DataFrame Timestamp string Q) * option FlexBands)%type.

Definition _build_component_timeseries (psa_net : Network) (kind : string)
    (edisgo_obj : option EDisGo) (flexible_cps flexible_hps : option (list string))
  : result (gmap string TsRec) :=
  let* locals :=
    if String.eqb kind "gen" then
      ret (Some ∅, Some (generators_t_p_set psa_net), Some (generators_t_q_set psa_net),
           None) : result Locals
    else if String.eqb kind "load" then
      ret (Some ∅, Some (columns_startswith "Load" (loads_t_p_set psa_net)),
           Some (columns_startswith "Load" (loads_t_q_set psa_net)), None)
    else if String.eqb kind "storage" then
      ret (Some ∅, Some (storage_units_t_p_set psa_net),
           Some (storage_units_t_q_set psa_net), None)
    else if String.eqb kind "emob" then
      let* n := len flexible_cps in
      if (n =? 0)%nat then
        (* [pm_comp] is bound in the other branch only *)
        ret (None, Some empty_frame, None, None)
      else
        let* p_set := loc_columns (loads_t_p_set psa_net) (default [] flexible_cps) in
        let* obj := match edisgo_obj with
                    | Some o => ret o
                    | None => raise (AttributeError "electromobility")
                    end in
        ret (Some ∅, Some p_set, None, Some (get_flexibility_bands obj))
    else if String.eqb kind "heatpumps" then
      let* n := len flexible_hps in
      if (n =? 0)%nat then ret (Some ∅, Some empty_frame, None, None)
      else
        let* p_set := loc_columns (loads_t_p_set psa_net) (default [] flexible_hps) in
        ret (Some ∅, Some p_set, None, None)
    else
      ret (None, None, None, None) in
  let '(pm_comp, p_set, q_set, bands) := locals in
  let* p_set := bound p_set "p_set" in
  let* pm_comp :=
    for_each (columns p_set)
      (fun _ comp pm_comp =>
         let* comp_i := _mapping psa_net comp kind in
         if String.eqb kind "gen" then
           let* a := tolist p_set comp in
           let* q_set := bound q_set "q_set" in
           let* b := tolist q_set comp in
           let* d := bound pm_comp "pm_comp" in
           ret (Some (<[str comp_i := TsGen a b]> d))
         else if String.eqb kind "load" then
           let* a := tolist p_set comp in
           let* q_set := bound q_set "q_set" in
           let* b := tolist q_set comp in
           let* d := bound pm_comp "pm_comp" in
           ret (Some (<[str comp_i := TsLoad a b]> d))
         else if String.eqb kind "storage" then
           let* a := tolist p_set comp in
           let* q_set := bound q_set "q_set" in
           let* b := tolist q_set comp in
           let* d := bound pm_comp "pm_comp" in
           ret (Some (<[str comp_i := TsStorage a b]> d))
         else if String.eqb kind "emob" then
           let* n := len flexible_cps in
           if (0 <? n)%nat then
             let* bands := bound bands "p_max" in
             let* a := tolist (upper_power bands) comp in
             let* b := tolist (lower_energy bands) comp in
             let* c := tolist (upper_energy bands) comp in
             let* d := bound pm_comp "pm_comp" in
             ret (Some (<[str comp_i := TsEmob a b c]> d))
           else ret pm_comp
         else ret pm_comp)
      pm_comp in
  bound pm_comp "pm_comp".

Definition _build_timeseries (psa_net : Network) (pm : PM) (edisgo_obj : EDisGo)
    (flexible_cps flexible_hps : list string) : result PM :=
  let* g := _build_component_timeseries psa_net "gen" None None None in
  let* l := _build_component_timeseries psa_net "load" None None None in
  let* s := _build_component_timeseries psa_net "storage" None None None in
  let* e := _build_component_timeseries psa_net "emob" (Some edisgo_obj)
              (Some flexible_cps) None in
  let* h := _build_component_timeseries psa_net "heatpumps" None None
              (Some flexible_hps) in
  ret (set_time_series (mkTimeSeries g l s e h (length (snapshots psa_net))) pm).

(** *** Aggregation of parallel transformers *)

Section Exporter.

(** [edisgo.tools.tools.calculate_impedance_for_parallel_components]: from
    the [r], [x] and [s_nom] of the transformers of one group to those of
    their parallel combination. *)
Variable calculate_impedance_for_parallel_components : list (Q * Q * Q) -> Q * Q * Q.

(** [pypsa.pf.calculate_dependent_values]: fills in the per-unit values. *)
Variable calculate_dependent_values : Network -> Network.

Definition bus_pair (t : Transformer) : string * string := (trafo_bus0 t, trafo_bus1 t).

Definition rxs (t : Transformer) : Q * Q * Q := (trafo_r t, trafo_x t, trafo_s_nom t).

Definition same_pair (k : string * string) (t : Transformer) : bool :=
  bool_decide (bus_pair t = k).

(** The keys of a [groupby], each once.  pandas lists them sorted; the merge
    below does not depend on their order. *)
Fixpoint group_keys (l : list (string * string)) : list (string * string) :=
  match l with
  | [] => []
  | k :: l' => k :: List.filter (fun k' => negb (bool_decide (k' = k))) (group_keys l')
  end.

(** [index[:-2]] *)
Definition drop_last_two (index : string) : string :=
  String.substring 0 (String.length index - 2) index.

Definition rename (f : string -> string) (t : Transformer) : Transformer :=
  mkTransformer (f (trafo_name t)) (trafo_bus0 t) (trafo_bus1 t) (trafo_r t) (trafo_x t)
                (trafo_s_nom t) (trafo_r_pu t) (trafo_x_pu t) (trafo_b_pu t) (trafo_g_pu t)
                (trafo_tap_ratio t) (trafo_phase_shift t).

Definition with_rxs (t : Transformer) (v : Q * Q * Q) : Transformer :=
  mkTransformer (trafo_name t) (trafo_bus0 t) (trafo_bus1 t)
                (fst (fst v)) (snd (fst v)) (snd v)
                (trafo_r_pu t) (trafo_x_pu t) (trafo_b_pu t) (trafo_g_pu t)
                (trafo_tap_ratio t) (trafo_phase_shift t).

(** [df[~df.index.duplicated(keep="first")]] *)
Fixpoint drop_duplicated (seen : list string) (l : list Transformer) : list Transformer :=
  match l with
  | [] => []
  | t :: l' =>
      if isin (trafo_name t) seen then drop_duplicated seen l'
      else t :: drop_duplicated (trafo_name t :: seen) l'
  end.

Definition aggregate_parallel_transformers (psa_trafos : list Transformer)
  : list Transformer :=
  let trafo_df :=
    map (fun k => (k, calculate_impedance_for_parallel_components
                        (map rxs (List.filter (same_pair k) psa_trafos))))
        (group_keys (map bus_pair psa_trafos)) in
  let psa_trafos := map (rename drop_last_two) psa_trafos in
  let psa_trafos := drop_duplicated [] psa_trafos in
  (* the left merge on the columns both tables have, [bus0] and [bus1] *)
  flat_map (fun t => map (fun kv => with_rxs t (snd kv))
                         (List.filter (fun kv => bool_decide (fst kv = bus_pair t)) trafo_df))
           psa_trafos.

(** *** to_powermodels *)

Definition to_powermodels (edisgo_object : EDisGo) (flexible_cps flexible_hps : list string)
  : result PM :=
  let psa_net := to_pypsa edisgo_object in
  let psa_net :=
    with_transformers psa_net (aggregate_parallel_transformers (transformers psa_net)) in
  let psa_net := calculate_dependent_values psa_net in
  let pm := _init_pm in
  let timesteps := length (snapshots psa_net) in
  let pm := set_header ("ding0_" ++ pretty (topology_id edisgo_object) ++ "_t_"
                        ++ pretty timesteps) 0 1 2 pm in
  let* pm := _build_bus psa_net pm in
  let* pm := _build_gen psa_net pm in
  let* pm := _build_branch psa_net pm in
  let* pm := _build_storage psa_net pm in
  let* pm := _build_load psa_net pm flexible_cps flexible_hps in
  let* pm := _build_electromobility psa_net pm flexible_cps in
  let* pm := _build_heatpumps psa_net pm flexible_hps in
  _build_timeseries psa_net pm edisgo_object flexible_cps flexible_hps.

End Exporter.

End powermodels_io.

(** ** The vocabulary of the properties

    The predicates the properties are stated with, and names for the
    intermediate tables of the functions they are about. *)

Module constraint_terms.
Import pd align check_tech_constraints.

(** Some bus voltage of the result set lies strictly outside [0.9, 1.1]. *)
Definition outside_band (edisgo_obj : EDisGo) : Prop :=
  let v := v_res (results edisgo_obj) in
  exists t b, In t (index v) /\ In b (columns v)
              /\ (11 # 10 < cell v t b \/ cell v t b < 9 # 10).

(** No power flow was ever run: the result tables hold no rows and no
    columns. *)
Definition never_run (r : Results) : Prop :=
  index (i_res r) = [] /\ columns (i_res r) = []
  /\ index (s_res r) = [] /\ columns (s_res r) = []
  /\ index (v_res r) = [] /\ columns (v_res r) = []
  /\ index (pfa_slack r) = [] /\ columns (pfa_slack r) = [].

(** [q] is the largest value [dev] takes on the time steps [idx]. *)
Definition is_peak (dev : Timestamp -> Q) (idx : list Timestamp) (q : Q) : Prop :=
  (exists t, In t idx /\ dev t == q) /\ forall t, In t idx -> dev t <= q.

Section VoltageTables.

Variable edisgo_obj : EDisGo.
Variable buses : list string.
Variables upper lower : Series Timestamp Q.

Local Abbreviation v := (v_res (results edisgo_obj)).
Local Abbreviation idx := (index (v_res (results edisgo_obj))).

(** The deviation above the upper and below the lower limit. *)
Definition over_dev (b : string) (t : Timestamp) : Q := cell v t b - s_val upper t.
Definition under_dev (b : string) (t : Timestamp) : Q := - cell v t b + s_val lower t.

Definition overvoltage_at (b : string) : Prop :=
  exists t, In t idx /\ s_val upper t < cell v t b.
Definition undervoltage_at (b : string) : Prop :=
  exists t, In t idx /\ cell v t b < s_val lower t.

(** The intermediate tables of [voltage_diff], by the names the code gives
    them; [voltage_facts.voltage_diff_returns] shows that the last two are
    what the function returns. *)
Definition v_mag_pu_pfa : DataFrame Timestamp string Q := mkFrame idx buses (cell v).

Definition overvoltage : DataFrame string Timestamp (option Q) :=
  dropna_all (where_ (T v_mag_pu_pfa) (fun b t => np.Qltb (s_val upper t) (cell v t b))).

Definition undervoltage : DataFrame string Timestamp (option Q) :=
  dropna_all (where_ (T v_mag_pu_pfa) (fun b t => np.Qltb (cell v t b) (s_val lower t))).

Definition both : list string :=
  List.filter (fun b => isin b (index undervoltage)) (index overvoltage).

Definition buses_both : DataFrame Timestamp string Q := mkFrame idx both (cell v).

Definition voltage_diff_ov0 : DataFrame string Timestamp Q :=
  minus_values (T buses_both) (mkSeries idx (s_val upper)).

Definition voltage_diff_uv0 : DataFrame string Timestamp Q :=
  neg_plus_values (T buses_both) (mkSeries idx (s_val lower)).

Definition over_wins (b : string) : bool :=
  np.gt (max_axis1 voltage_diff_ov0 b) (max_axis1 voltage_diff_uv0 b).

Definition voltage_diff_ov1 : DataFrame string Timestamp Q :=
  loc_rows voltage_diff_ov0 over_wins.

Definition voltage_diff_uv1 : DataFrame string Timestamp Q :=
  loc_rows voltage_diff_uv0 (fun b => negb (isin b (index voltage_diff_ov1))).

Definition only (which : DataFrame string Timestamp (option Q)) : list string :=
  List.filter (fun b => negb (isin b both)) (index which).

Definition voltage_diff_ov : DataFrame string Timestamp Q :=
  concat voltage_diff_ov1
         (minus_values (T (mkFrame idx (only overvoltage) (cell v)))
                       (mkSeries idx (s_val upper))).

Definition voltage_diff_uv : DataFrame string Timestamp Q :=
  concat voltage_diff_uv1
         (neg_plus_values (T (mkFrame idx (only undervoltage) (cell v)))
                          (mkSeries idx (s_val lower))).

(** The rows of the report before sorting: the overvoltage rows, then the
    undervoltage rows. *)
Definition unsorted_rows : list CritBus :=
  _append_crit_buses voltage_diff_ov ++ _append_crit_buses voltage_diff_uv.

End VoltageTables.

(** "At least as large", a missing value after every number. *)
Definition key_ge (a b : option Q) : Prop :=
  match a, b with
  | Some x, Some y => y <= x
  | _, None => True
  | None, Some _ => False
  end.


(** Every row is at least as large as every later row. *)
Definition descending (rows : list CritBus) : Prop :=
  StronglySorted (fun r r' => key_ge (v_diff_max r) (v_diff_max r')) rows.


(** What [sort_values(by=["v_diff_max"], ascending=False)] promises for
    every sort kind: the same rows, in descending order of the column. *)
Definition sorts_descending (sort_values : list CritBus -> list CritBus) : Prop :=
  forall rows, Permutation rows (sort_values rows) /\ descending (sort_values rows).

Section StationTables.

Variable edisgo_obj : EDisGo.
Variable grid : Grid.
Variable voltage_level : string.
Variables pfa allowed : DataFrame Timestamp string Q.

Local Abbreviation cases := (timesteps_load_feedin_case edisgo_obj).
Local Abbreviation st := (station_name grid).

(** The load factor of the station's transformers at a time step. *)
Definition load_factor_at (t : Timestamp) : Q :=
  transformer_load_factor edisgo_obj voltage_level (s_val cases t).

(** Allowed minus realized loading of the station. *)
Definition residual (t : Timestamp) : Q := cell allowed t st - cell pfa t st.

(** The time steps for which both loadings are known. *)
Definition known (t : Timestamp) : Prop := In t (index allowed) /\ In t (index pfa).

Definition s_res_masked : DataFrame Timestamp string (option Q) :=
  let s_res := binop np.sub (some_cells allowed) (some_cells pfa) in
  mask_nan s_res (fun t c => np.lt (cell s_res t c) (Some 0)).

Definition s_missing_series : Series Timestamp (option Q) :=
  dropna_s
    (binop_s np.div
       (mkSeries (index s_res_masked) (fun t => cell s_res_masked t st))
       (apply cases (fun c => Some (transformer_load_factor edisgo_obj voltage_level c)))).

End StationTables.

End constraint_terms.

Module exporter_terms.
Import pd powermodels_io.

Definition bus_names (psa_net : Network) : list string := map bus_name (buses psa_net).

(** The index [_mapping] gives a bus of the network. *)
Definition bus_number (psa_net : Network) (name : string) : nat :=
  match position name (bus_names psa_net) with
  | Some i => (i + 1)%nat
  | None => 0%nat
  end.

(** The record the exporter writes for the line at position [i]. *)
Definition line_record (psa_net : Network) (i : nat) (l : Line) : BranchRec :=
  mkBranchRec (line_name l) (line_r_pu l) (line_x_pu l)
              (bus_number psa_net (line_bus0 l)) (bus_number psa_net (line_bus1 l))
              (line_g_pu l / 2) (line_g_pu l / 2) (line_b_pu l / 2) (line_b_pu l / 2)
              0 1 (line_s_nom l) 250 250 (- np.pi / 6) (np.pi / 6) false 1 (i + 1).

(** The buses of every line are buses of the network. *)
Definition lines_connected (psa_net : Network) (lines : list Line) : Prop :=
  forall l, In l lines ->
            In (line_bus0 l) (bus_names psa_net) /\ In (line_bus1 l) (bus_names psa_net).

Section Loop.

Variable psa_net : Network.

(** The body of the loop of [_build_branch]. *)
Definition branch_body (i : nat) (l : Line) (pm : PM) : result PM :=
  let branches := map row_of_line (lines psa_net)
                  ++ map row_of_transformer (transformers psa_net) in
  let* idx_f_bus := _mapping psa_net (line_bus0 l) "bus" in
  let* idx_t_bus := _mapping psa_net (line_bus1 l) "bus" in
  match branches !! i with
  | Some row =>
      ret (set_branch (insert (str (i + 1))
             (mkBranchRec (row_name row) (row_r_pu row) (row_x_pu row)
                          idx_f_bus idx_t_bus
                          (row_g_pu row / 2) (row_g_pu row / 2)
                          (row_b_pu row / 2) (row_b_pu row / 2)
                          (fillna (row_phase_shift row) 0)
                          1 (row_s_nom row) 250 250
                          (- np.pi / 6) (np.pi / 6)
                          (negb (np.isna (row_tap_ratio row)))
                          (fillna (row_tap_ratio row) 1)
                          (i + 1))) pm)
  | None => raise (IndexError "index out of bounds")
  end.

End Loop.

(** The branch section holds the records of the lines of the network under
    the keys 1..len(lines), and nothing else. *)
Definition branch_of_lines (psa_net : Network) (table : gmap string BranchRec) : Prop :=
  (forall i l, lines psa_net !! i = Some l ->
               table !! str (i + 1) = Some (line_record psa_net i l))
  /\ (forall k rec, table !! k = Some rec ->
         exists i l, lines psa_net !! i = Some l /\ k = str (i + 1)
                     /\ rec = line_record psa_net i l
                     /\ br_name rec = line_name l /\ transformer rec = false).

End exporter_terms.

Module line_load_terms.
Import pd align check_tech_constraints.

(** The lines a call is about: the given ones, the lines of the current
    results by default. *)
Definition lines_or_all (edisgo_obj : EDisGo) (lines : option (list string)) : list string :=
  match lines with
  | None => columns (i_res (results edisgo_obj))
  | Some lines => lines
  end.

(** The rows of the report, one column of the table of relative loads at a
    time. *)
Definition crit_line_of (rel : DataFrame Timestamp string (option Q))
    (voltage_level c : string) : option CritLine :=
  match argmax (column_items
                  (mask_nan rel (fun t c => np.gt (cell rel t c) (Some 1))) c) with
  | Some (_, m) =>
      Some (mkCritLine c m (option_map fst (argmax (column_items rel c))) voltage_level)
  | None => None
  end.

End line_load_terms.

Module relative_load_terms.
Import pd align check_tech_constraints.

(** The grid is an MV grid or an LV grid. *)
Definition valid_grid (grid : Grid) : Prop := grid_class grid <> Grid_.

(** The transformers of the grid's station and the voltage level their load
    factors are configured for. *)
Definition station_transformers (edisgo_obj : EDisGo) (grid : Grid) : list Transformer :=
  match grid_class grid with
  | LVGrid => transformers_df grid
  | _ => transformers_hvmv_df (topology edisgo_obj)
  end.

Definition station_level (grid : Grid) : string :=
  match grid_class grid with LVGrid => "lv" | _ => "mv" end.

(** The rating of the station times the load factor of the time step's
    case. *)
Definition allowed_station_load (edisgo_obj : EDisGo) (grid : Grid) (t : Timestamp) : Q :=
  Qsum (map trafo_s_nom (station_transformers edisgo_obj grid))
  * transformer_load_factor edisgo_obj (station_level grid)
      (s_val (timesteps_load_feedin_case edisgo_obj) t).

(** The loading of the grid's station can be read from the results. *)
Definition station_load_known (hypot : Q -> Q -> Q) (edisgo_obj : EDisGo) (grid : Grid)
  : bool :=
  match _station_load hypot edisgo_obj grid with inr _ => true | inl _ => false end.

(** The time steps the loading of the grid's station is read for, and the
    loading at a time step: the apparent power over the transformers of an
    LV grid, the apparent power at the slack for the MV grid. *)
Definition station_load_index (edisgo_obj : EDisGo) (grid : Grid) : list Timestamp :=
  match grid_class grid with
  | LVGrid => index (s_res (results edisgo_obj))
  | _ => index (pfa_slack (results edisgo_obj))
  end.

Definition station_load_at (hypot : Q -> Q -> Q) (edisgo_obj : EDisGo) (grid : Grid)
    (t : Timestamp) : Q :=
  match grid_class grid with
  | LVGrid =>
      Qsum (map (cell (s_res (results edisgo_obj)) t)
                (map trafo_name (transformers_df grid)))
  | _ =>
      hypot (cell (pfa_slack (results edisgo_obj)) t "p")
            (cell (pfa_slack (results edisgo_obj)) t "q")
  end.

(** Whether a grid adds a column to a table that is built one grid at a
    time, given the column each grid adds, if it adds one. *)
Definition adds (column_of : Grid -> option (Timestamp -> Q)) (grid : Grid) : bool :=
  match column_of grid with Some _ => true | None => false end.

End relative_load_terms.

Module voltage_limit_terms.
Import pd align check_tech_constraints.

(** The MV voltage limits of a case, from the configuration. *)
Definition mv_upper_limit (edisgo_obj : EDisGo) (voltage_levels : string) (case : Case) : Q :=
  match case with
  | feedin_case =>
      1 + voltage_deviation edisgo_obj "hv_mv_trafo_offset"
      + voltage_deviation edisgo_obj "hv_mv_trafo_control_deviation"
      + voltage_deviation edisgo_obj (voltage_levels ++ "_feed-in_case_max_v_deviation")
  | load_case => voltage_deviation edisgo_obj "load_case_upper"
  end.

Definition mv_lower_limit (edisgo_obj : EDisGo) (voltage_levels : string) (case : Case) : Q :=
  match case with
  | feedin_case => voltage_deviation edisgo_obj "feed-in_case_lower"
  | load_case =>
      1 + voltage_deviation edisgo_obj "hv_mv_trafo_offset"
      - voltage_deviation edisgo_obj "hv_mv_trafo_control_deviation"
      - voltage_deviation edisgo_obj (voltage_levels ++ "_load_case_max_v_deviation")
  end.

(** The bus whose voltage the limits of an LV grid refer to, and the prefix
    of the configured deviations: the primary side of the station in mode
    'stations', its secondary side otherwise. *)
Definition reference_bus (lv_grid : Grid) (mode : option string) : option string :=
  if is_stations mode then
    match transformers_df lv_grid with t :: _ => Some (trafo_bus0 t) | [] => None end
  else
    match station lv_grid with b :: _ => Some b | [] => None end.

Definition config_string (mode : option string) : string :=
  if is_stations mode then "mv_lv_station" else "lv".

(** The LV voltage limits at a time step: relative to the reference voltage
    where the case allows a deviation, the configured absolute limit on the
    other side. *)
Definition lv_upper_limit (edisgo_obj : EDisGo) (mode : option string) (ref : string)
    (t : Timestamp) : Q :=
  match s_val (timesteps_load_feedin_case edisgo_obj) t with
  | feedin_case =>
      cell (v_res (results edisgo_obj)) t ref
      + voltage_deviation edisgo_obj (config_string mode ++ "_feed-in_case_max_v_deviation")
  | load_case => voltage_deviation edisgo_obj "load_case_upper"
  end.

Definition lv_lower_limit (edisgo_obj : EDisGo) (mode : option string) (ref : string)
    (t : Timestamp) : Q :=
  match s_val (timesteps_load_feedin_case edisgo_obj) t with
  | feedin_case => voltage_deviation edisgo_obj "feed-in_case_lower"
  | load_case =>
      cell (v_res (results edisgo_obj)) t ref
      - voltage_deviation edisgo_obj (config_string mode ++ "_load_case_max_v_deviation")
  end.

End voltage_limit_terms.

Module lv_report_terms.
Import pd align check_tech_constraints constraint_terms.

(** The buses of an LV grid that a mode checks. *)
Definition checked_buses (lv_grid : Grid) (mode : option string) : list string :=
  if is_stations mode then station lv_grid else buses_df lv_grid.

(** The report of one grid: its violating buses, sorted. *)
Definition grid_report (sort_values : list CritBus -> list CritBus) (edisgo_obj : EDisGo)
    (buses : list string) (upper lower : Series Timestamp Q) : list CritBus :=
  match unsorted_rows edisgo_obj buses upper lower with
  | [] => []
  | _ :: _ => sort_values (unsorted_rows edisgo_obj buses upper lower)
  end.

(** Some checked bus leaves the limits at some time step. *)
Definition violated (edisgo_obj : EDisGo) (buses : list string)
    (upper lower : Series Timestamp Q) : Prop :=
  exists b, In b buses
            /\ (overvoltage_at edisgo_obj upper b \/ undervoltage_at edisgo_obj lower b).

End lv_report_terms.

Module section_terms.
Import pd powermodels_io.

(** The bus of the slack generator: of the first generator with the name
    'Generator_slack'. *)
Definition slack_bus (psa_net : Network) : option string :=
  match List.filter (fun g => String.eqb (gen_name g) "Generator_slack")
                    (generators psa_net) with
  | g :: _ => Some (gen_at_bus g)
  | [] => None
  end.

(** The record [_build_bus] writes for the bus at position [i]. *)
Definition bus_written (i : nat) (b : Bus) (r : BusRec) : Prop :=
  bus_i r = (i + 1)%nat /\ bus_index r = (i + 1)%nat
  /\ position (control b) bus_types = Some (bus_type r - 1)%nat
  /\ (1 <= bus_type r <= 4)%nat
  /\ vmax r = Qmin (v_mag_pu_max b) (105 # 100)
  /\ vmin r = Qmax (v_mag_pu_min b) (985 # 1000)
  /\ vm r = v_mag_pu_set b /\ base_kv r = v_nom b
  /\ zone r = 1%Z /\ va r = 0.

End section_terms.

Module series_terms.
Import pd powermodels_io.

(** [df[comp].values.tolist()] of a column the frame has. *)
Definition values (df : DataFrame Timestamp string Q) (comp : string) : list Q :=
  map (fun t => cell df t comp) (index df).

(** The time series entry of a generator. *)
Definition generator_series (psa_net : Network) (comp : string) : TsRec :=
  TsGen (values (generators_t_p_set psa_net) comp)
        (values (generators_t_q_set psa_net) comp).


End series_terms.

Module header_terms.
Import pd powermodels_io.

(** The sections no component builder fills, and the scalar entries. *)
Definition unused_sections (pm : PM)
  : gmap string unit * gmap string unit * gmap string unit * gmap string unit :=
  (dcline pm, switch pm, shunt pm, dsm pm).

Definition scalars (pm : PM) : string * option Z * Z * Z * string * bool :=
  (name pm, time_elapsed pm, baseMVA pm, source_version pm, sourcetype pm, per_unit pm).

End header_terms.

(** ** Example inputs *)

Module examples.
Import pd align check_tech_constraints.

Definition no_grid : Grid := mkGrid MVGrid "MVGrid_1_station" [] [] [] [].

Definition no_topology : Topology := mkTopology [] no_grid [] [] [].

Definition unit_config : Config := mkConfig (fun _ => 1) (fun _ => 0).

(** Four time steps in which one bus has the voltages 0.88, 1.12, 1.0 and
    1.0 p.u. *)
Definition scenario_bus_voltages : EDisGo :=
  mkEDisGo no_topology unit_config
    (mkSeries [1; 2; 3; 4]%Z (fun _ => load_case))
    (mkResults no_data no_data
       (from_dict [1; 2; 3; 4]%Z [("Bus_1", [88 # 100; 112 # 100; 1; 1])])
       no_data).

(** A rational stand-in for [np.hypot], for the examples that have to name
    one: the square root is taken on twelve decimal places.  The theorems
    hold for every [hypot]. *)
Definition hypot_12 (p q : Q) : Q :=
  Z.sqrt (Qfloor ((p * p + q * q) * (1000000000000000000000000 # 1)))
  # 1000000000000.

(** An MV grid with one line and an LV grid with one transformer, before any
    power flow was run: every result table is empty. *)
Definition mv_grid_1 : Grid :=
  mkGrid MVGrid "MVGrid_1_station"
         [mkLine "Line_1" "Bus_MV_1" "Bus_MV_2" 1] [] ["Bus_MV_1"; "Bus_MV_2"] ["Bus_MV_1"].

Definition lv_grid_1 : Grid :=
  mkGrid LVGrid "LVGrid_1_station"
         [] [mkTransformer "Transformer_lv_1_1" "Bus_MV_2" "Bus_LV_1" (63 # 100)]
         ["Bus_LV_1"] ["Bus_LV_1"].

Definition topology_1 : Topology :=
  mkTopology [mkLine "Line_1" "Bus_MV_1" "Bus_MV_2" 1] mv_grid_1 [lv_grid_1]
             [mkTransformer "Transformer_hvmv_1" "Bus_HV" "Bus_MV_1" 40] [].

Definition no_results : Results := mkResults no_data no_data no_data no_data.

Definition before_power_flow : EDisGo :=
  mkEDisGo topology_1 unit_config
    (mkSeries [1; 2]%Z (fun _ => load_case)) no_results.

(** Two MV lines A-B and B-C on a ring and a radial line C-D; the load
    factor of MV lines is 0.5 in the load case and 1.0 in the feed-in case.
    Time step 1 is a load case, time step 2 a feed-in case. *)
Definition ring_lines : list Line :=
  [mkLine "Line_AB" "Bus_A" "Bus_B" 1;
   mkLine "Line_BC" "Bus_B" "Bus_C" 1;
   mkLine "Line_CD" "Bus_C" "Bus_D" 2].

Definition ring_grid : Grid :=
  mkGrid MVGrid "MVGrid_1_station" ring_lines []
         ["Bus_A"; "Bus_B"; "Bus_C"; "Bus_D"] ["Bus_A"].

Definition ring_config : Config :=
  mkConfig (fun key => if String.eqb key "mv_load_case_line" then 1 # 2 else 1)
           (fun _ => 0).

Definition load_then_feedin : Series Timestamp Case :=
  mkSeries [1; 2]%Z (fun t => if (t =? 1)%Z then load_case else feedin_case).

Definition ring_network : EDisGo :=
  mkEDisGo (mkTopology ring_lines ring_grid [] [] [["Bus_A"; "Bus_B"; "Bus_C"]])
           ring_config load_then_feedin
           (mkResults
              (from_dict [1; 2]%Z
                 [("Line_AB", [1 # 10; 1 # 10]); ("Line_BC", [1 # 10; 1 # 10]);
                  ("Line_CD", [1 # 10; 1 # 10])])
              (from_dict [1; 2]%Z
                 [("Line_AB", [6 # 10; 6 # 10]); ("Line_BC", [4 # 10; 4 # 10]);
                  ("Line_CD", [1; 1])])
              no_data no_data).

(** Four buses over four time steps, the allowed band 0.9 to 1.1 p.u.:
    Bus_1 is 0.02 below at step 1 and 0.03 above at step 2, Bus_2 is 0.05
    below at step 1 and 0.02 above at step 2, Bus_3 is 0.05 above at step 2,
    Bus_4 stays inside. *)
Definition voltage_buses : list string := ["Bus_1"; "Bus_2"; "Bus_3"; "Bus_4"].

Definition voltage_network : EDisGo :=
  mkEDisGo no_topology unit_config
    (mkSeries [1; 2; 3; 4]%Z (fun _ => load_case))
    (mkResults no_data no_data
       (from_dict [1; 2; 3; 4]%Z
          [("Bus_1", [88 # 100; 113 # 100; 1; 1]);
           ("Bus_2", [85 # 100; 112 # 100; 1; 1]);
           ("Bus_3", [1; 115 # 100; 1; 1]);
           ("Bus_4", [1; 1; 1; 1])])
       no_data).

Definition upper_limit : Series Timestamp Q := mkSeries [1; 2; 3; 4]%Z (fun _ => 11 # 10).
Definition lower_limit : Series Timestamp Q := mkSeries [1; 2; 3; 4]%Z (fun _ => 9 # 10).




(** A sort that does what pandas promises of [sort_values]: merge sort on
    "at least as large", missing values last. *)
Definition key_geb (a b : option Q) : bool :=
  match a, b with
  | Some x, Some y => Qle_bool y x
  | _, None => true
  | None, Some _ => false
  end.

Module CritBusOrder <: Orders.TotalLeBool.
Definition t : Type := CritBus.
Definition leb (a b : t) : bool := key_geb (v_diff_max a) (v_diff_max b).
Lemma leb_total (a b : t) : leb a b = true \/ leb b a = true.
Proof.
  unfold leb, key_geb.
  destruct (v_diff_max a) as [x|], (v_diff_max b) as [y|]; auto.
  destruct (Qle_bool y x) eqn:E; [now left|right].
  apply Qle_bool_iff. apply Qlt_le_weak. apply Qnot_le_lt.
  intros H. apply Qle_bool_iff in H. congruence.
Qed.
End CritBusOrder.

Module CritBusSort := Mergesort.Sort CritBusOrder.

Definition merge_sort_values : list CritBus -> list CritBus := CritBusSort.sort.

(** An LV grid whose station has one transformer of 1 MVA.  The load factor
    of LV transformers is 1.0 in the load case and 0.5 in the feed-in case.
    At time step 1, a load case, the station carries 1.10 MVA; at time step
    2, a feed-in case, 0.58 MVA. *)
Definition lv_grid_2 : Grid :=
  mkGrid LVGrid "LVGrid_2_station"
         [] [mkTransformer "Transformer_lv_2_1" "Bus_MV_2" "Bus_LV_2" 1]
         ["Bus_LV_2"] ["Bus_LV_2"].

Definition two_case_config : Config :=
  mkConfig (fun key => if String.eqb key "lv_feed-in_case_transformer" then 1 # 2 else 1)
           (fun _ => 0).

Definition two_case_network : EDisGo :=
  mkEDisGo (mkTopology [] mv_grid_1 [lv_grid_2] [] [])
           two_case_config load_then_feedin
           (mkResults
              (from_dict [1; 2]%Z [("Transformer_lv_2_1", [1; 1])])
              (from_dict [1; 2]%Z [("Transformer_lv_2_1", [110 # 100; 58 # 100])])
              no_data no_data).

(** The table a call returned, nothing if it raised. *)
Definition returned (r : result (DataFrame Timestamp string Q))
  : DataFrame Timestamp string Q :=
  match r with inr df => df | inl _ => no_data end.

Definition lv_2_load : DataFrame Timestamp string Q :=
  returned (_station_load hypot_12 two_case_network lv_grid_2).

Definition lv_2_allowed : DataFrame Timestamp string Q :=
  returned (_station_allowed_load two_case_network lv_grid_2).

End examples.

Module exporter_examples.
Import pd powermodels_io.

(** A stand-in for [calculate_impedance_for_parallel_components], for the
    examples that have to name one: the combination of [n] equal
    transformers in parallel, [r / n], [x / n] and [n * s_nom].  The theorems
    hold for every such function. *)
Definition parallel_equal (group : list (Q * Q * Q)) : Q * Q * Q :=
  match group with
  | (r, x, s_nom) :: _ =>
      let n := inject_Z (Z.of_nat (length group)) in (r / n, x / n, s_nom * n)
  | [] => (0, 0, 0)
  end.

(** One transformer between two buses, under the name it has in the
    topology and under the name it has after one aggregation. *)
Definition one_transformer : list Transformer :=
  [mkTransformer "Transformer_lv_grid_1_1" "Bus_MV_2" "Bus_LV_1"
                 (1 # 100) (4 # 100) (63 # 100) 0 0 0 0 1 0].

Definition aggregated_transformers : list Transformer :=
  [mkTransformer "Transformer_lv_grid_1" "Bus_MV_2" "Bus_LV_1"
                 (1 # 100) (4 # 100) (63 # 100) 0 0 0 0 1 0;
   mkTransformer "Transformer_lv_grid_20" "Bus_MV_3" "Bus_LV_2"
                 (2 # 100) (5 # 100) (40 # 100) 0 0 0 0 1 0].

(** A stand-in for [pypsa.pf.calculate_dependent_values], for the examples
    that have to name one: the networks of the examples carry their per-unit
    values already. *)
Definition per_unit_values_given (psa_net : Network) : Network := psa_net.

(** Two buses, one line, one transformer, the slack generator, and three
    loads: a charging point that is not flexible, a conventional load and a
    flexible charging point.  Two snapshots. *)
Definition small_loads : list Load :=
  [mkLoad "Charging_Point_public" "Bus_2" (1 # 100) 0 0 0;
   mkLoad "Load_residential" "Bus_2" (2 # 100) 0 0 0;
   mkLoad "Charging_Point_home" "Bus_1" (3 # 100) 0 0 0].

Definition small_network : Network :=
  mkNetwork
    [mkBus "Bus_1" "Slack" (11 # 10) (9 # 10) 1 20;
     mkBus "Bus_2" "PQ" (11 # 10) (9 # 10) 1 20]
    [mkGenerator "Generator_slack" "Bus_1" 0 0 1 0 1]
    [mkLine "Line_1" "Bus_1" "Bus_2" (1 # 100) (2 # 100) 0 0 1]
    one_transformer
    small_loads
    []
    [1; 2]%Z
    (from_dict [1; 2]%Z [("Generator_slack", [0; 0])])
    (from_dict [1; 2]%Z [("Generator_slack", [0; 0])])
    (from_dict [1; 2]%Z
       [("Charging_Point_public", [1 # 100; 1 # 100]);
        ("Load_residential", [2 # 100; 2 # 100]);
        ("Charging_Point_home", [3 # 100; 3 # 100])])
    (from_dict [1; 2]%Z
       [("Charging_Point_public", [0; 0]);
        ("Load_residential", [0; 0]);
        ("Charging_Point_home", [0; 0])])
    (from_dict [1; 2]%Z [])
    (from_dict [1; 2]%Z []).

Definition small_edisgo : EDisGo :=
  mkEDisGo small_network 1
    (mkFlexBands
       (from_dict [1; 2]%Z [("Charging_Point_home", [1; 1])])
       (from_dict [1; 2]%Z [("Charging_Point_home", [0; 0])])
       (from_dict [1; 2]%Z [("Charging_Point_home", [5; 5])])).

End exporter_examples.

Module report_examples.
Import pd align check_tech_constraints.

(** A stand-in for the union pandas takes of two different indexes, for the
    examples that have to name one: the labels of the first, then the new
    labels of the second.  The theorems hold for every such function. *)
Definition union_in_order (a b : list Timestamp) : list Timestamp :=
  a ++ List.filter (fun t => negb (isin t a)) b.

(** A stand-in for [repr] and [str] of a grid: the name of its station
    without the ending '_station'. *)
Definition grid_name (grid : Grid) : string :=
  substring 0 (String.length (station_name grid) - 8) (station_name grid).

(** The allowed band 0.9 to 1.1 p.u. in the load case, for the MV level and
    relative to the reference bus of an LV grid. *)
Definition band_config : Config :=
  mkConfig (fun _ => 1)
    (fun key =>
       if String.eqb key "load_case_upper" then 11 # 10
       else if String.eqb key "feed-in_case_lower" then 9 # 10
       else if String.eqb key "mv_lv_load_case_max_v_deviation" then 1 # 10
       else if String.eqb key "mv_lv_feed-in_case_max_v_deviation" then 1 # 10
       else if String.eqb key "lv_load_case_max_v_deviation" then 1 # 10
       else if String.eqb key "lv_feed-in_case_max_v_deviation" then 1 # 10
       else 0).

(** The buses of [examples.voltage_network] in three grids: Bus_1 and Bus_2
    in the MV grid, Bus_3 and Bus_4 each the one bus of an LV grid behind a
    transformer at Bus_2. *)
Definition mv_grid_3 : Grid :=
  mkGrid MVGrid "MVGrid_1_station" [] [] ["Bus_1"; "Bus_2"] ["Bus_1"].

Definition lv_grid_3 : Grid :=
  mkGrid LVGrid "LVGrid_3_station"
         [] [mkTransformer "Transformer_lv_3_1" "Bus_2" "Bus_3" 1] ["Bus_3"] ["Bus_3"].

Definition lv_grid_4 : Grid :=
  mkGrid LVGrid "LVGrid_4_station"
         [] [mkTransformer "Transformer_lv_4_1" "Bus_2" "Bus_4" 1] ["Bus_4"] ["Bus_4"].

Definition banded_network : EDisGo :=
  mkEDisGo (mkTopology [] mv_grid_3 [lv_grid_3; lv_grid_4] [] [])
           band_config
           (timesteps_load_feedin_case examples.voltage_network)
           (results examples.voltage_network).

End report_examples.

(** * Properties *)

(** ** Basic facts about the pandas model *)

Module pd_facts.
Import pd align.

Lemma Qltb_lt (x y : Q) : np.Qltb x y = true <-> x < y.
Proof.
  unfold np.Qltb. rewrite negb_true_iff.
  split; intros H.
  - apply Qnot_le_lt. intros Hle. apply Qle_bool_iff in Hle. congruence.
  - destruct (Qle_bool y x) eqn:E; [|reflexivity].
    apply Qle_bool_iff in E. exfalso. apply (Qlt_not_le _ _ H E).
Qed.

Lemma Qltb_ge (x y : Q) : np.Qltb x y = false <-> y <= x.
Proof.
  unfold np.Qltb. rewrite negb_false_iff. apply Qle_bool_iff.
Qed.

Lemma isin_In {A} `{EqDecision A} (x : A) (l : list A) : isin x l = true <-> In x l.
Proof.
  unfold isin. rewrite bool_decide_eq_true. apply list_elem_of_In.
Qed.

Lemma isin_not_In {A} `{EqDecision A} (x : A) (l : list A) : isin x l = false <-> ~ In x l.
Proof.
  rewrite <- isin_In. destruct (isin x l); split; congruence.
Qed.

Lemma filter_nil_iff {A} (f : A -> bool) (l : list A) :
  List.filter f l = [] <-> forall x, In x l -> f x = false.
Proof.
  induction l as [|a l IH]; simpl.
  - split; [intros _ x []|reflexivity].
  - destruct (f a) eqn:E.
    + split; [intros H0; discriminate H0|].
      intros H. specialize (H a (or_introl eq_refl)). congruence.
    + rewrite IH. split.
      * intros H x [<-|Hx]; auto.
      * intros H x Hx. apply H. now right.
Qed.

(** [df.loc[:, labels]] returns exactly when every label is a column. *)
Lemma loc_columns_ok {R V} (df : DataFrame R string V) (labels : list string) :
  (forall c, In c labels -> In c (columns df)) ->
  loc_columns df labels = inr (mkFrame (index df) labels (cell df)).
Proof.
  intros H. unfold loc_columns.
  replace (List.filter _ labels) with (@nil string); [reflexivity|].
  symmetry. apply filter_nil_iff. intros c Hc.
  rewrite negb_false_iff. apply isin_In. auto.
Qed.

Lemma loc_columns_inr {R V} (df out : DataFrame R string V) (labels : list string) :
  loc_columns df labels = inr out ->
  out = mkFrame (index df) labels (cell df) /\ forall c, In c labels -> In c (columns df).
Proof.
  unfold loc_columns, ret. destruct (List.filter _ labels) eqn:E; [|discriminate].
  intros [= <-]. split; [reflexivity|].
  intros c Hc. rewrite filter_nil_iff in E. specialize (E c Hc).
  rewrite negb_false_iff in E. now apply isin_In.
Qed.

Lemma loc_columns_missing {R V} (df : DataFrame R string V) (labels : list string) c :
  In c labels -> ~ In c (columns df) ->
  exists c', loc_columns df labels = inl (KeyError c').
Proof.
  intros Hc Hn. unfold loc_columns.
  destruct (List.filter _ labels) as [|c' ?] eqn:E.
  - rewrite filter_nil_iff in E. specialize (E c Hc).
    rewrite negb_false_iff in E. apply isin_In in E. contradiction.
  - eauto.
Qed.

Lemma series_loc_ok {I V} `{EqDecision I} `{Pretty I} (s : Series I V) (labels : list I) :
  (forall i, In i labels -> In i (s_index s)) ->
  series_loc s labels = inr (mkSeries labels (s_val s)).
Proof.
  intros Hin. unfold series_loc.
  replace (List.filter _ labels) with (@nil I); [reflexivity|].
  symmetry. apply filter_nil_iff. intros c Hc.
  rewrite negb_false_iff. apply isin_In. auto.
Qed.

Lemma series_loc_inr {I V} `{EqDecision I} `{Pretty I} (s out : Series I V) (labels : list I) :
  series_loc s labels = inr out -> out = mkSeries labels (s_val s).
Proof.
  unfold series_loc, ret. destruct (List.filter _ labels); [|discriminate]. now intros [= <-].
Qed.

Lemma any_any_true {R C V} (df : DataFrame R C V) (p : V -> bool) :
  any_any df p = true <->
  exists r c, In r (index df) /\ In c (columns df) /\ p (cell df r c) = true.
Proof.
  unfold any_any. rewrite existsb_exists. split.
  - intros (c & Hc & Hr). apply existsb_exists in Hr as (r & Hr & Hp). eauto 6.
  - intros (r & c & Hr & Hc & Hp). exists c. split; [assumption|].
    apply existsb_exists. eauto.
Qed.

(** Closes [List.NoDup l] for a list of distinct literals. *)
Ltac distinct_names :=
  repeat (constructor; [simpl; intuition discriminate|]); constructor.

End pd_facts.

(** ** The ten-percent criterion *)

Module ten_percent.
Import pd check_tech_constraints constraint_terms pd_facts.

Lemma raises_iff_outside_band (edisgo_obj : EDisGo) :
  check_ten_percent_voltage_deviation edisgo_obj = inl FatalConstraintViolation
  <-> outside_band edisgo_obj.
Proof.
  unfold check_ten_percent_voltage_deviation, outside_band.
  destruct (any_any _ _ || any_any _ _) eqn:E.
  - split; [intros _|reflexivity].
    apply orb_true_iff in E as [E|E];
      apply any_any_true in E as (t & b & Ht & Hb & Hp);
      apply Qltb_lt in Hp; exists t, b; auto.
  - split; [discriminate|].
    intros (t & b & Ht & Hb & Hv). exfalso.
    apply orb_false_iff in E as [E1 E2].
    destruct Hv as [Hv|Hv]; apply Qltb_lt in Hv.
    + assert (any_any (v_res (results edisgo_obj)) (fun v => np.Qltb (11 # 10) v) = true)
        by (apply any_any_true; eauto). congruence.
    + assert (any_any (v_res (results edisgo_obj)) (fun v => np.Qltb v (9 # 10)) = true)
        by (apply any_any_true; eauto). congruence.
Qed.

(** C5: the strict-band check raises [FatalConstraintViolation] exactly when
    some bus voltage at some time step of the result set is strictly above
    1.1 p.u. or strictly below 0.9 p.u., and returns normally otherwise; it
    is a function of its input and changes nothing.  For the voltage series
    0.88, 1.12, 1.0, 1.0 it raises. *)
Theorem C5_strict_band_check :
  (forall edisgo_obj,
      check_ten_percent_voltage_deviation edisgo_obj = inl FatalConstraintViolation
      <-> outside_band edisgo_obj)
  /\ (forall edisgo_obj,
         ~ outside_band edisgo_obj <->
         check_ten_percent_voltage_deviation edisgo_obj = inr tt)
  /\ check_ten_percent_voltage_deviation examples.scenario_bus_voltages
     = inl FatalConstraintViolation.
Proof.
  split; [exact raises_iff_outside_band|]. split.
  - intros obj. rewrite <- raises_iff_outside_band.
    unfold check_ten_percent_voltage_deviation.
    destruct (any_any _ _ || any_any _ _); split; intros H;
      try reflexivity; try discriminate; try congruence.
    exfalso. apply H. reflexivity.
  - vm_compute. reflexivity.
Qed.

End ten_percent.

(** ** Checks on a result set without data *)

Module without_results.
Import pd align check_tech_constraints constraint_terms pd_facts.

Lemma line_overload_guard (edisgo_obj : EDisGo) (voltage_level : string) :
  empty (i_res (results edisgo_obj)) = true ->
  _line_overload edisgo_obj voltage_level = inl NoResultsAvailable.
Proof.
  intros H. unfold _line_overload. now rewrite H.
Qed.

Lemma existsb_isin_nil (l : list string) :
  existsb (fun x => isin x (@nil string)) l = false.
Proof.
  induction l as [|a l IH]; [reflexivity|]. simpl. rewrite IH. reflexivity.
Qed.

Section Stations.
Variable hypot : Q -> Q -> Q.

Lemma station_overload_mv (edisgo_obj : EDisGo) (grid : Grid) :
  columns (i_res (results edisgo_obj)) = [] ->
  grid_class grid = MVGrid ->
  _station_overload hypot edisgo_obj grid = inl PrerequisiteMissing.
Proof.
  intros Hc Hg. unfold _station_overload, voltage_level_of, _station_load.
  rewrite Hg, Hc. simpl. now rewrite existsb_isin_nil.
Qed.

Lemma station_overload_lv (edisgo_obj : EDisGo) (grid : Grid) t rest :
  columns (s_res (results edisgo_obj)) = [] ->
  grid_class grid = LVGrid ->
  transformers_df grid = t :: rest ->
  _station_overload hypot edisgo_obj grid = inl (KeyError (trafo_name t)).
Proof.
  intros Hc Hg Ht. unfold _station_overload, voltage_level_of, _station_load.
  rewrite Hg, Ht. simpl. unfold loc_columns. rewrite Hc. reflexivity.
Qed.

(** C6 (as the code has it): on a result set without data the line overload
    check raises [NoResultsAvailable], for every voltage level.  The station
    overload check has no such guard; it fails while it reads the station's
    loading: for the MV grid with the error of a medium voltage level that
    was not part of the power flow ([PrerequisiteMissing]), for an LV grid
    with the [KeyError] of its first transformer, which the empty table of
    apparent powers does not have.  Neither returns a report. *)
Theorem C6_checks_without_results (edisgo_obj : EDisGo) :
  never_run (results edisgo_obj) ->
  (forall voltage_level,
      _line_overload edisgo_obj voltage_level = inl NoResultsAvailable)
  /\ (forall grid, grid_class grid = MVGrid ->
        _station_overload hypot edisgo_obj grid = inl PrerequisiteMissing)
  /\ (forall grid t rest, grid_class grid = LVGrid ->
        transformers_df grid = t :: rest ->
        _station_overload hypot edisgo_obj grid = inl (KeyError (trafo_name t))).
Proof.
  intros (Hi & Hic & _ & Hsc & _). repeat split.
  - intros vl. apply line_overload_guard. unfold empty. now rewrite Hi.
  - intros grid Hg. now apply station_overload_mv.
  - intros grid t rest Hg Ht. now apply station_overload_lv with (rest := rest).
Qed.

End Stations.

Lemma C6_checks_without_results_witness :
  never_run (results examples.before_power_flow)
  /\ _line_overload examples.before_power_flow "mv" = inl NoResultsAvailable
  /\ _station_overload examples.hypot_12 examples.before_power_flow examples.mv_grid_1
     = inl PrerequisiteMissing
  /\ _station_overload examples.hypot_12 examples.before_power_flow examples.lv_grid_1
     = inl (KeyError "Transformer_lv_1_1").
Proof.
  assert (H : never_run (results examples.before_power_flow))
    by (repeat split; reflexivity).
  destruct (C6_checks_without_results examples.hypot_12 examples.before_power_flow H)
    as (Hl & Hmv & Hlv).
  split; [exact H|]. split; [apply Hl|]. split.
  - apply Hmv. reflexivity.
  - apply (Hlv examples.lv_grid_1
                (mkTransformer "Transformer_lv_1_1" "Bus_MV_2" "Bus_LV_1" (63 # 100)) []);
      reflexivity.
Defined.

(** As the specification states it, the property fails: before any power
    flow was run, the station overload check of the MV grid does not raise
    [NoResultsAvailable]. *)
Lemma C6_station_overload_other_error :
  never_run (results examples.before_power_flow)
  /\ _station_overload examples.hypot_12 examples.before_power_flow examples.mv_grid_1
     = inl PrerequisiteMissing
  /\ _station_overload examples.hypot_12 examples.before_power_flow examples.mv_grid_1
     <> inl NoResultsAvailable.
Proof.
  split; [repeat split; reflexivity|].
  split; [reflexivity|]. discriminate.
Qed.

End without_results.

(** ** Allowed line loading *)

Module allowed_line_load.
Import pd align check_tech_constraints pd_facts.

Lemma same_name_same_line (lines : list Line) (l l' : Line) :
  List.NoDup (line_names lines) -> In l lines -> In l' lines ->
  line_name l = line_name l' -> l = l'.
Proof.
  induction lines as [|a lines IH]; simpl; [intros _ []|].
  intros Hnd Hl Hl' Hn. inversion Hnd as [|? ? Ha Hnd']; subst.
  destruct Hl as [<-|Hl], Hl' as [<-|Hl']; auto.
  - exfalso. apply Ha. rewrite Hn. now apply in_map.
  - exfalso. apply Ha. rewrite <- Hn. now apply in_map.
Qed.

Lemma s_nom_of_line (lines : list Line) (l : Line) :
  List.NoDup (line_names lines) -> In l lines ->
  s_nom_of lines (line_name l) = s_nom l.
Proof.
  intros Hnd Hl. unfold s_nom_of.
  destruct (List.find _ lines) as [l'|] eqn:E.
  - apply find_some in E as [Hl' Hn]. apply String.eqb_eq in Hn.
    now rewrite (same_name_same_line lines l' l Hnd Hl' Hl Hn).
  - apply (find_none _ _ E) in Hl. now rewrite String.eqb_refl in Hl.
Qed.

Lemma NoDup_filter_names (f : Line -> bool) (lines : list Line) :
  List.NoDup (line_names lines) -> List.NoDup (line_names (List.filter f lines)).
Proof.
  induction lines as [|a lines IH]; simpl; [constructor|].
  intros Hnd. inversion Hnd as [|? ? Ha Hnd']; subst.
  destruct (f a); simpl; auto. constructor; auto.
  intros Hin. apply Ha. unfold line_names in *.
  apply in_map_iff in Hin as (x & Hx & Hxin). apply filter_In in Hxin as [Hxin _].
  rewrite <- Hx. now apply in_map.
Qed.

(** A line's name is among the names of the lines in cycles exactly when
    both its buses lie on a ring. *)
Lemma in_cycle_names (edisgo_obj : EDisGo) (lines : list Line) (l : Line) :
  List.NoDup (line_names lines) -> In l lines ->
  isin (line_name l) (line_names (List.filter (in_cycle edisgo_obj) lines))
  = in_cycle edisgo_obj l.
Proof.
  intros Hnd Hl. destruct (in_cycle edisgo_obj l) eqn:E.
  - apply isin_In. apply in_map. apply filter_In. auto.
  - apply isin_not_In. intros Hin.
    apply in_map_iff in Hin as (l' & Hn & Hl'). apply filter_In in Hl' as [Hl' Hc].
    rewrite (same_name_same_line lines l' l Hnd Hl' Hl Hn) in Hc. congruence.
Qed.

Lemma in_cycle_true (edisgo_obj : EDisGo) (l : Line) :
  in_cycle edisgo_obj l = true <->
  In (bus0 l) (List.concat (rings (topology edisgo_obj)))
  /\ In (bus1 l) (List.concat (rings (topology edisgo_obj))).
Proof.
  unfold in_cycle, buses_in_cycles. rewrite andb_true_iff, !isin_In. reflexivity.
Qed.

(** The allowed load of one line in one case. *)
Lemma allowed_load_of_line (edisgo_obj : EDisGo) (voltage_level : string)
    (lines : list Line) (case : Case) (l : Line) :
  List.NoDup (line_names lines) -> In l lines ->
  let load_factor := line_load_factor edisgo_obj voltage_level case in
  s_val (allowed_load_per_case edisgo_obj voltage_level lines case) (line_name l)
  = if Qeq_bool load_factor 1 then s_nom l * load_factor
    else if in_cycle edisgo_obj l then s_nom l * load_factor
    else s_nom l.
Proof.
  intros Hnd Hl lf. unfold allowed_load_per_case. fold lf.
  destruct (Qeq_bool lf 1); simpl.
  - now rewrite s_nom_of_line.
  - rewrite in_cycle_names by assumption.
    destruct (in_cycle edisgo_obj l); now rewrite s_nom_of_line.
Qed.

Lemma lines_in_voltage_level_mv (edisgo_obj : EDisGo) fn :
  lines_in_voltage_level edisgo_obj "mv" fn
  = inr (grid_lines_df (mv_grid (topology edisgo_obj))).
Proof. reflexivity. Qed.

Lemma lines_in_voltage_level_lv (edisgo_obj : EDisGo) fn :
  lines_in_voltage_level edisgo_obj "lv" fn
  = inr (List.filter
           (fun l => negb (isin (line_name l)
                            (line_names (grid_lines_df (mv_grid (topology edisgo_obj))))))
           (lines_df (topology edisgo_obj))).
Proof. reflexivity. Qed.

(** C2: for the voltage level 'mv' or 'lv', the frame of allowed line loads
    has one row per time step of the power flow, and in the row of a time
    step the load factor is the one of that time step's case.  When that
    factor is 1.0 every line of the level is allowed its rating [s_nom], on
    a ring or not.  When it is not, a line with both buses on a ring is
    allowed [s_nom] times the factor and every other line its rating. *)
Theorem C2_allowed_line_load (edisgo_obj : EDisGo) (voltage_level : string) :
  voltage_level = "mv" \/ voltage_level = "lv" ->
  List.NoDup (line_names (lines_df (topology edisgo_obj))) ->
  List.NoDup (line_names (grid_lines_df (mv_grid (topology edisgo_obj)))) ->
  (forall t, In t (index (i_res (results edisgo_obj))) ->
             In t (s_index (timesteps_load_feedin_case edisgo_obj))) ->
  exists lines allowed,
    lines_in_voltage_level edisgo_obj voltage_level
      " in function lines_allowed_load_voltage_level" = inr lines
    /\ _lines_allowed_load_voltage_level edisgo_obj voltage_level = inr allowed
    /\ index allowed = index (i_res (results edisgo_obj))
    /\ forall t l,
        In t (index allowed) -> In l lines ->
        let case := s_val (timesteps_load_feedin_case edisgo_obj) t in
        let load_factor := line_load_factor edisgo_obj voltage_level case in
        let on_ring := In (bus0 l) (List.concat (rings (topology edisgo_obj)))
                       /\ In (bus1 l) (List.concat (rings (topology edisgo_obj))) in
        (load_factor == 1 -> cell allowed t (line_name l) == s_nom l)
        /\ (~ load_factor == 1 -> on_ring ->
            cell allowed t (line_name l) = s_nom l * load_factor)
        /\ (~ load_factor == 1 -> ~ on_ring ->
            cell allowed t (line_name l) = s_nom l * 1
            /\ cell allowed t (line_name l) = s_nom l).
Proof.
  intros Hvl Hnd Hndmv Ht.
  assert (Hlines : exists lines,
             lines_in_voltage_level edisgo_obj voltage_level
               " in function lines_allowed_load_voltage_level" = inr lines
             /\ List.NoDup (line_names lines)).
  { destruct Hvl as [-> | ->].
    - eexists; split; [apply lines_in_voltage_level_mv|assumption].
    - eexists; split; [apply lines_in_voltage_level_lv|].
      now apply NoDup_filter_names. }
  destruct Hlines as (lines & Hsel & Hndl).
  exists lines. eexists. split; [exact Hsel|].
  unfold _lines_allowed_load_voltage_level. rewrite Hsel. simpl.
  rewrite (series_loc_ok _ _ Ht). simpl.
  split; [reflexivity|]. split; [reflexivity|].
  intros t l Hti Hl. cbv zeta. simpl.
  set (case := s_val (timesteps_load_feedin_case edisgo_obj) t).
  rewrite (allowed_load_of_line edisgo_obj voltage_level lines case l Hndl Hl).
  cbv zeta. set (lf := line_load_factor edisgo_obj voltage_level case).
  destruct (Qeq_bool lf 1) eqn:E.
  - apply Qeq_bool_iff in E.
    split; [intros _; rewrite E; ring|].
    split; intros Hne; contradiction.
  - assert (Hne : ~ lf == 1) by (intros Heq; apply Qeq_bool_iff in Heq; congruence).
    split; [intros Heq; contradiction|]. split.
    + intros _ Hr. apply (in_cycle_true edisgo_obj l) in Hr. now rewrite Hr.
    + intros _ Hr.
      destruct (in_cycle edisgo_obj l) eqn:Ec;
        [apply in_cycle_true in Ec; contradiction|].
      split; [|reflexivity].
      destruct (s_nom l) as [n d]. unfold Qmult. simpl.
      now rewrite Z.mul_1_r, Pos.mul_1_r.
Qed.

Lemma C2_allowed_line_load_witness :
  exists allowed,
    _lines_allowed_load_voltage_level examples.ring_network "mv" = inr allowed
    /\ cell allowed 1%Z "Line_AB" = 1 * (1 # 2)
    /\ cell allowed 1%Z "Line_CD" = 2
    /\ cell allowed 2%Z "Line_AB" == 1.
Proof.
  destruct (C2_allowed_line_load examples.ring_network "mv")
    as (lines & allowed & Hsel & Hall & Hidx & Hcells).
  - left; reflexivity.
  - simpl. distinct_names.
  - simpl. distinct_names.
  - intros t Ht. exact Ht.
  - exists allowed. split; [exact Hall|].
    rewrite lines_in_voltage_level_mv in Hsel. injection Hsel as <-.
    rewrite Hidx in Hcells.
    destruct (Hcells 1%Z (mkLine "Line_AB" "Bus_A" "Bus_B" 1)) as (_ & Hring & _);
      [simpl; auto|simpl; auto|].
    destruct (Hcells 1%Z (mkLine "Line_CD" "Bus_C" "Bus_D" 2)) as (_ & _ & Hrad);
      [simpl; auto|simpl; auto|].
    destruct (Hcells 2%Z (mkLine "Line_AB" "Bus_A" "Bus_B" 1)) as (Hone & _ & _);
      [simpl; auto|simpl; auto|].
    split; [|split].
    + apply Hring; [vm_compute; discriminate|simpl; auto 10].
    + apply Hrad; [vm_compute; discriminate|].
      simpl. intros [_ H]. intuition discriminate.
    + apply Hone. reflexivity.
Defined.

End allowed_line_load.

(** ** Voltage deviations *)

Module voltage_facts.
Import pd align check_tech_constraints constraint_terms pd_facts.

Lemma argmax_None {I} (l : list (I * Q)) : argmax l = None -> l = [].
Proof.
  destruct l as [|[i x] l]; [reflexivity|]. simpl.
  destruct (argmax l) as [[j y]|]; [destruct (np.Qltb x y)|]; discriminate.
Qed.

Lemma argmax_Some {I} (l : list (I * Q)) i x :
  argmax l = Some (i, x) ->
  In (i, x) l /\ forall j y, In (j, y) l -> y <= x.
Proof.
  revert i x. induction l as [|[i0 x0] l IH]; simpl; [discriminate|].
  intros i x. destruct (argmax l) as [[j y]|] eqn:E.
  - destruct (IH j y eq_refl) as [Hin Hmax].
    destruct (np.Qltb x0 y) eqn:Hlt; intros [= <- <-].
    + apply Qltb_lt in Hlt. split; [now right|].
      intros j' y' [[= <- <-]|H']; [now apply Qlt_le_weak|eauto].
    + apply Qltb_ge in Hlt. split; [now left|].
      intros j' y' [[= <- <-]|H']; [apply Qle_refl|].
      eapply Qle_trans; [eapply Hmax; eassumption|assumption].
  - apply argmax_None in E. subst l. intros [= <- <-]. split; [now left|].
    intros j' y' [[= <- <-]|[]]. apply Qle_refl.
Qed.

(** The row maximum of a frame is the peak of its row. *)
Lemma max_axis1_peak {R} (df : DataFrame R Timestamp Q) (r : R) q :
  max_axis1 df r = Some q -> is_peak (cell df r) (columns df) q.
Proof.
  unfold max_axis1, row_cells. destruct (argmax _) as [[t x]|] eqn:E; [|discriminate].
  simpl. intros [= <-]. apply argmax_Some in E as [Hin Hmax]. split.
  - apply in_map_iff in Hin as (t' & [= <- <-] & Ht'). exists t'. split; [assumption|reflexivity].
  - intros t' Ht'. apply (Hmax t'). apply in_map_iff. eauto.
Qed.

Lemma max_axis1_Some {R} (df : DataFrame R Timestamp Q) (r : R) :
  columns df <> [] -> exists q, max_axis1 df r = Some q.
Proof.
  intros Hne. unfold max_axis1, row_cells.
  destruct (argmax _) as [[t x]|] eqn:E; [simpl; eauto|].
  apply argmax_None in E. apply map_eq_nil in E. contradiction.
Qed.

Lemma is_peak_unique dev idx q q' : is_peak dev idx q -> is_peak dev idx q' -> q == q'.
Proof.
  intros [(t & Ht & Hq) Hmax] [(t' & Ht' & Hq') Hmax'].
  apply Qle_antisym.
  - rewrite <- Hq. now apply Hmax'.
  - rewrite <- Hq'. now apply Hmax.
Qed.

(** *** What [voltage_diff] returns *)

Section VoltageDiff.

Variable edisgo_obj : EDisGo.
Variable buses : list string.
Variables upper lower : Series Timestamp Q.

Local Abbreviation v := (v_res (results edisgo_obj)).
Local Abbreviation idx := (index (v_res (results edisgo_obj))).
Local Abbreviation over_dev := (constraint_terms.over_dev edisgo_obj upper).
Local Abbreviation under_dev := (constraint_terms.under_dev edisgo_obj lower).
Local Abbreviation overvoltage_at := (constraint_terms.overvoltage_at edisgo_obj upper).
Local Abbreviation undervoltage_at := (constraint_terms.undervoltage_at edisgo_obj lower).
Local Abbreviation v_mag_pu_pfa := (constraint_terms.v_mag_pu_pfa edisgo_obj buses).
Local Abbreviation overvoltage := (constraint_terms.overvoltage edisgo_obj buses upper).
Local Abbreviation undervoltage := (constraint_terms.undervoltage edisgo_obj buses lower).
Local Abbreviation both := (constraint_terms.both edisgo_obj buses upper lower).
Local Abbreviation voltage_diff_ov0 :=
  (constraint_terms.voltage_diff_ov0 edisgo_obj buses upper lower).
Local Abbreviation voltage_diff_uv0 :=
  (constraint_terms.voltage_diff_uv0 edisgo_obj buses upper lower).
Local Abbreviation over_wins := (constraint_terms.over_wins edisgo_obj buses upper lower).
Local Abbreviation only := (constraint_terms.only edisgo_obj buses upper lower).
Local Abbreviation voltage_diff_ov :=
  (constraint_terms.voltage_diff_ov edisgo_obj buses upper lower).
Local Abbreviation voltage_diff_uv :=
  (constraint_terms.voltage_diff_uv edisgo_obj buses upper lower).

(** The checked buses are buses of the result set, and every time step of
    the result set has its two limits. *)
Hypothesis buses_in_results : forall b, In b buses -> In b (columns v).
Hypothesis upper_covers : forall t, In t idx -> In t (s_index upper).
Hypothesis lower_covers : forall t, In t idx -> In t (s_index lower).

Lemma index_dropna_all_sub (mask : string -> Timestamp -> bool) b :
  In b (index (dropna_all (where_ (T v_mag_pu_pfa) mask))) -> In b buses.
Proof.
  unfold dropna_all. simpl. intros H. now apply filter_In in H as [H _].
Qed.

(** [voltage_diff] returns, and returns these two tables. *)
Lemma voltage_diff_returns :
  voltage_diff edisgo_obj buses upper lower = inr (voltage_diff_uv, voltage_diff_ov).
Proof.
  unfold voltage_diff.
  rewrite (loc_columns_ok _ _ buses_in_results). cbn [bind].
  rewrite (series_loc_ok _ _ upper_covers). cbn [bind].
  rewrite (series_loc_ok _ _ lower_covers). cbn [bind].
  rewrite loc_columns_ok.
  2:{ intros c Hc. apply filter_In in Hc as [Hc _].
      now apply index_dropna_all_sub in Hc. }
  cbn [bind].
  rewrite loc_columns_ok.
  2:{ intros c Hc. apply filter_In in Hc as [Hc _].
      now apply index_dropna_all_sub in Hc. }
  cbn [bind].
  rewrite loc_columns_ok.
  2:{ intros c Hc. apply filter_In in Hc as [Hc _].
      now apply index_dropna_all_sub in Hc. }
  reflexivity.
Qed.

Lemma in_overvoltage b :
  In b (index overvoltage) <-> In b buses /\ overvoltage_at b.
Proof.
  unfold constraint_terms.overvoltage, dropna_all, constraint_terms.overvoltage_at. simpl.
  rewrite filter_In, existsb_exists.
  split; intros [Hb (t & Ht & Hv)]; (split; [assumption|]); exists t; (split; [assumption|]).
  - destruct (np.Qltb _ _) eqn:E; [now apply Qltb_lt in E|discriminate].
  - apply Qltb_lt in Hv. now rewrite Hv.
Qed.

Lemma in_undervoltage b :
  In b (index undervoltage) <-> In b buses /\ undervoltage_at b.
Proof.
  unfold constraint_terms.undervoltage, dropna_all, constraint_terms.undervoltage_at. simpl.
  rewrite filter_In, existsb_exists.
  split; intros [Hb (t & Ht & Hv)]; (split; [assumption|]); exists t; (split; [assumption|]).
  - destruct (np.Qltb _ _) eqn:E; [now apply Qltb_lt in E|discriminate].
  - apply Qltb_lt in Hv. now rewrite Hv.
Qed.

Lemma in_both b :
  In b both <-> In b buses /\ overvoltage_at b /\ undervoltage_at b.
Proof.
  unfold constraint_terms.both. rewrite filter_In, isin_In, in_overvoltage, in_undervoltage. tauto.
Qed.

Lemma index_voltage_diff_ov :
  index voltage_diff_ov = List.filter over_wins both ++ only overvoltage.
Proof. reflexivity. Qed.

Lemma index_voltage_diff_uv :
  index voltage_diff_uv
  = List.filter (fun b => negb (isin b (List.filter over_wins both))) both
    ++ only undervoltage.
Proof. reflexivity. Qed.

Lemma in_only which b : In b (only which) <-> In b (index which) /\ ~ In b both.
Proof.
  unfold constraint_terms.only. now rewrite filter_In, negb_true_iff, isin_not_In.
Qed.

Lemma in_voltage_diff_ov b :
  In b (index voltage_diff_ov) <->
  (In b both /\ over_wins b = true) \/ (In b (index overvoltage) /\ ~ In b both).
Proof.
  rewrite index_voltage_diff_ov, in_app_iff, filter_In, in_only. reflexivity.
Qed.

Lemma in_voltage_diff_uv b :
  In b (index voltage_diff_uv) <->
  (In b both /\ over_wins b = false) \/ (In b (index undervoltage) /\ ~ In b both).
Proof.
  rewrite index_voltage_diff_uv, in_app_iff, filter_In, in_only.
  rewrite negb_true_iff, isin_not_In, filter_In.
  split; (intros [[Hb Hw]|H]; [left; split; [assumption|]|now right]).
  - destruct (over_wins b); [exfalso; apply Hw; auto|reflexivity].
  - intros [_ Hw']. congruence.
Qed.

(** No bus is in both tables. *)
Lemma never_in_both_tables b :
  ~ (In b (index voltage_diff_uv) /\ In b (index voltage_diff_ov)).
Proof.
  rewrite in_voltage_diff_uv, in_voltage_diff_ov, in_overvoltage, in_undervoltage.
  intros [[[Hb Hw]|[Hu Hn]] [[Hb' Hw']|[Ho Hn']]]; try congruence; try contradiction.
  apply Hn. apply in_both. tauto.
Qed.

(** For a bus in [both], [over_wins] compares the two peaks. *)
Lemma over_wins_peaks b po pu :
  is_peak (over_dev b) idx po -> is_peak (under_dev b) idx pu ->
  over_wins b = true <-> pu < po.
Proof.
  intros Hpo Hpu. unfold constraint_terms.over_wins.
  assert (Hne : idx <> []) by (destruct Hpo as [(t & Ht & _) _]; now destruct idx).
  destruct (max_axis1_Some voltage_diff_ov0 b Hne) as [po' Eo].
  destruct (max_axis1_Some voltage_diff_uv0 b Hne) as [pu' Eu].
  rewrite Eo, Eu. simpl.
  apply max_axis1_peak in Eo, Eu.
  assert (Ho : po == po') by (eapply is_peak_unique; [exact Hpo|exact Eo]).
  assert (Hu : pu == pu') by (eapply is_peak_unique; [exact Hpu|exact Eu]).
  rewrite Qltb_lt, Ho, Hu. reflexivity.
Qed.

Lemma peak_exists (dev : Timestamp -> Q) (l : list Timestamp) :
  l <> [] -> exists q, is_peak dev l q.
Proof.
  intros Hne.
  destruct (max_axis1_Some (mkFrame [tt] l (fun _ t => dev t)) tt Hne) as [q Hq].
  exists q. now apply max_axis1_peak in Hq.
Qed.

(** C1: [voltage_diff] returns its two tables, and no bus is a row of
    both.  A checked bus that is above the upper limit at some time step and
    below the lower limit at some time step is a row of exactly one of
    them: of the overvoltage table when its peak deviation above the upper
    limit is the larger one, of the undervoltage table when its peak
    deviation below the lower limit is the larger one (and also when the two
    peaks are equal). *)
Theorem C1_worst_violation_only :
  exists uv ov,
    voltage_diff edisgo_obj buses upper lower = inr (uv, ov)
    /\ (forall b, ~ (In b (index uv) /\ In b (index ov)))
    /\ forall b,
        In b buses -> overvoltage_at b -> undervoltage_at b ->
        exists po pu,
          is_peak (over_dev b) idx po /\ is_peak (under_dev b) idx pu
          /\ (pu < po -> In b (index ov) /\ ~ In b (index uv))
          /\ (po < pu -> In b (index uv) /\ ~ In b (index ov))
          /\ (po == pu -> In b (index uv) /\ ~ In b (index ov)).
Proof.
  exists voltage_diff_uv, voltage_diff_ov.
  split; [apply voltage_diff_returns|]. split; [apply never_in_both_tables|].
  intros b Hb Ho Hu.
  assert (Hne : idx <> []) by (destruct Ho as (t & Ht & _); now destruct idx).
  destruct (peak_exists (over_dev b) idx Hne) as [po Hpo].
  destruct (peak_exists (under_dev b) idx Hne) as [pu Hpu].
  exists po, pu. split; [assumption|]. split; [assumption|].
  assert (Hboth : In b both) by (apply in_both; auto).
  pose proof (over_wins_peaks b po pu Hpo Hpu) as Hw.
  assert (Hov : pu < po -> In b (index voltage_diff_ov) /\ ~ In b (index voltage_diff_uv)).
  { intros Hlt. apply Hw in Hlt.
    assert (Hin : In b (index voltage_diff_ov)) by (apply in_voltage_diff_ov; auto).
    split; [assumption|]. intros Hin'. now apply (never_in_both_tables b). }
  assert (Huv : po <= pu -> In b (index voltage_diff_uv) /\ ~ In b (index voltage_diff_ov)).
  { intros Hle.
    assert (Hf : over_wins b = false).
    { destruct (over_wins b) eqn:E; [|reflexivity].
      exfalso. apply (Qlt_not_le pu po); [now apply Hw|assumption]. }
    assert (Hin : In b (index voltage_diff_uv)) by (apply in_voltage_diff_uv; auto).
    split; [assumption|]. intros Hin'. now apply (never_in_both_tables b). }
  split; [assumption|]. split.
  - intros Hlt. apply Huv. now apply Qlt_le_weak.
  - intros Heq. apply Huv. rewrite Heq. apply Qle_refl.
Qed.

End VoltageDiff.

Lemma C1_worst_violation_only_witness :
  exists uv ov,
    voltage_diff examples.voltage_network examples.voltage_buses
                 examples.upper_limit examples.lower_limit = inr (uv, ov)
    /\ (In "Bus_1" (index ov) /\ ~ In "Bus_1" (index uv))
    /\ (In "Bus_2" (index uv) /\ ~ In "Bus_2" (index ov)).
Proof.
  destruct (C1_worst_violation_only examples.voltage_network examples.voltage_buses
              examples.upper_limit examples.lower_limit)
    as (uv & ov & Heq & _ & Hb).
  - intros b Hb. exact Hb.
  - intros t Ht. exact Ht.
  - intros t Ht. exact Ht.
  - exists uv, ov. split; [exact Heq|]. split.
    + destruct (Hb "Bus_1") as (po & pu & [_ Hpo] & [(t & Ht & Hpu) _] & Hov & _).
      * simpl; auto.
      * exists 2%Z. split; [simpl; auto|reflexivity].
      * exists 1%Z. split; [simpl; auto|reflexivity].
      * apply Hov. specialize (Hpo 2%Z). rewrite <- Hpu.
        eapply Qlt_le_trans; [|apply Hpo; simpl; auto].
        simpl in Ht. destruct Ht as [<-|[<-|[<-|[<-|[]]]]]; reflexivity.
    + destruct (Hb "Bus_2") as (po & pu & [(t & Ht & Hpo) _] & [_ Hpu] & _ & Huv & _).
      * simpl; auto.
      * exists 2%Z. split; [simpl; auto|reflexivity].
      * exists 1%Z. split; [simpl; auto|reflexivity].
      * apply Huv. specialize (Hpu 1%Z). rewrite <- Hpo.
        eapply Qlt_le_trans; [|apply Hpu; simpl; auto].
        simpl in Ht. destruct Ht as [<-|[<-|[<-|[<-|[]]]]]; reflexivity.
Defined.

End voltage_facts.

(** ** The voltage violation report *)

Module voltage_report.
Import pd align check_tech_constraints constraint_terms pd_facts voltage_facts.

Lemma key_geb_ge (a b : option Q) : examples.key_geb a b = true <-> key_ge a b.
Proof.
  destruct a as [x|], b as [y|]; simpl; try tauto; try apply Qle_bool_iff.
  split; [discriminate|tauto].
Qed.

Lemma merge_sort_descending : sorts_descending examples.merge_sort_values.
Proof.
  intros rows. split; [apply examples.CritBusSort.Permuted_sort|].
  unfold descending, examples.merge_sort_values.
  assert (Htrans : Transitive (fun a b => is_true (examples.CritBusOrder.leb a b))).
  { intros a b c. unfold is_true, examples.CritBusOrder.leb.
    rewrite !key_geb_ge.
    destruct (v_diff_max a), (v_diff_max b), (v_diff_max c); simpl; try tauto.
    intros H1 H2. eapply Qle_trans; eassumption. }
  pose proof (examples.CritBusSort.StronglySorted_sort rows Htrans) as H.
  induction H as [|r l Hl IH Hall]; constructor; [assumption|].
  eapply List.Forall_impl; [|exact Hall]. intros r' Hr'.
  now apply key_geb_ge.
Qed.

Section Report.

Variable sort_values : list CritBus -> list CritBus.
Variable edisgo_obj : EDisGo.
Variable buses : list string.
Variables upper lower : Series Timestamp Q.

Local Abbreviation v := (v_res (results edisgo_obj)).
Local Abbreviation idx := (index (v_res (results edisgo_obj))).

Hypothesis sort_values_descending : sorts_descending sort_values.
Hypothesis buses_in_results : forall b, In b buses -> In b (columns v).
Hypothesis upper_covers : forall t, In t idx -> In t (s_index upper).
Hypothesis lower_covers : forall t, In t idx -> In t (s_index lower).

Local Abbreviation ov := (voltage_diff_ov edisgo_obj buses upper lower).
Local Abbreviation uv := (voltage_diff_uv edisgo_obj buses upper lower).
Local Abbreviation unsorted_rows :=
  (constraint_terms.unsorted_rows edisgo_obj buses upper lower).

Lemma empty_no_rows (df : DataFrame string Timestamp Q) :
  (columns df = [] -> index df = []) ->
  (if negb (empty df) then _append_crit_buses df else []) = _append_crit_buses df.
Proof.
  intros H. unfold empty, _append_crit_buses.
  destruct (index df) as [|b l] eqn:Ei; [reflexivity|].
  destruct (columns df) as [|t c] eqn:Ec; [|reflexivity].
  specialize (H eq_refl). discriminate.
Qed.

Lemma in_ov_overvoltage b :
  In b (index ov) -> overvoltage_at edisgo_obj upper b.
Proof.
  intros H. apply in_voltage_diff_ov in H as [[H _]|[H _]].
  - apply in_both in H. tauto.
  - apply in_overvoltage in H. tauto.
Qed.

Lemma in_uv_undervoltage b :
  In b (index uv) -> undervoltage_at edisgo_obj lower b.
Proof.
  intros H. apply in_voltage_diff_uv in H as [[H _]|[H _]].
  - apply in_both in H. tauto.
  - apply in_undervoltage in H. tauto.
Qed.

Lemma _voltage_deviation_returns :
  _voltage_deviation sort_values edisgo_obj buses upper lower
  = inr (match unsorted_rows with [] => [] | _ :: _ => sort_values unsorted_rows end).
Proof.
  unfold _voltage_deviation.
  rewrite (voltage_diff_returns edisgo_obj buses upper lower
             buses_in_results upper_covers lower_covers).
  cbn [bind]. unfold constraint_terms.unsorted_rows.
  assert (Ha : (if negb (empty ov) then _append_crit_buses ov else [])
               = _append_crit_buses ov).
  { apply empty_no_rows.
    intros Hc. destruct (index ov) as [|b l] eqn:E; [reflexivity|exfalso].
    assert (Hin : In b (index ov)) by (rewrite E; now left).
    apply in_ov_overvoltage in Hin as (t & Ht & _).
    change (columns ov) with idx in Hc. rewrite Hc in Ht. destruct Ht. }
  assert (Hb : (if negb (empty uv) then _append_crit_buses uv else [])
               = _append_crit_buses uv).
  { apply empty_no_rows.
    intros Hc. destruct (index uv) as [|b l] eqn:E; [reflexivity|exfalso].
    assert (Hin : In b (index uv)) by (rewrite E; now left).
    apply in_uv_undervoltage in Hin as (t & Ht & _).
    change (columns uv) with idx in Hc. rewrite Hc in Ht. destruct Ht. }
  match goal with
  | |- ret (match ?l with _ => _ end) = _ =>
      assert (E : l = _append_crit_buses ov ++ _append_crit_buses uv)
  end.
  { destruct (negb (empty ov)), (negb (empty uv)); simpl in *;
      rewrite <- ?Ha, <- ?Hb, ?app_nil_r; reflexivity. }
  rewrite E. now destruct (_append_crit_buses ov ++ _append_crit_buses uv).
Qed.



End Report.




End voltage_report.

(** ** Station over-loading *)

Module station_facts.
Import pd align check_tech_constraints constraint_terms pd_facts.

Lemma in_insert_sorted t x l : In t (insert_sorted x l) <-> t = x \/ In t l.
Proof.
  induction l as [|y l IH]; simpl; [intuition|].
  destruct (x <? y)%Z eqn:E1; simpl; [intuition|].
  destruct (x =? y)%Z eqn:E2; simpl.
  - apply Z.eqb_eq in E2. subst. intuition.
  - rewrite IH. intuition.
Qed.

Lemma in_union_sorted t a b : In t (union_sorted a b) <-> In t a \/ In t b.
Proof.
  unfold union_sorted. rewrite <- in_app_iff.
  induction (a ++ b) as [|x l IH]; simpl; [reflexivity|].
  rewrite in_insert_sorted, IH. intuition.
Qed.

Lemma in_align_index t a b : In t (align_index a b) <-> In t a \/ In t b.
Proof.
  unfold align_index. destruct (decide (a = b)) as [->|_].
  - tauto.
  - apply in_union_sorted.
Qed.

Lemma align_columns_same c : align_columns c c = c.
Proof. unfold align_columns. now destruct (decide (c = c)). Qed.

Lemma argmin_None {I} (l : list (I * Q)) : argmin l = None -> l = [].
Proof.
  destruct l as [|[i x] l]; [reflexivity|]. simpl.
  destruct (argmin l) as [[j y]|]; [destruct (np.Qltb y x)|]; discriminate.
Qed.

Lemma argmin_Some {I} (l : list (I * Q)) i x :
  argmin l = Some (i, x) ->
  In (i, x) l /\ forall j y, In (j, y) l -> x <= y.
Proof.
  revert i x. induction l as [|[i0 x0] l IH]; simpl; [discriminate|].
  intros i x. destruct (argmin l) as [[j y]|] eqn:E.
  - destruct (IH j y eq_refl) as [Hin Hmin].
    destruct (np.Qltb y x0) eqn:Hlt; intros [= <- <-].
    + apply Qltb_lt in Hlt. split; [now right|].
      intros j' y' [[= <- <-]|H']; [now apply Qlt_le_weak|eauto].
    + apply Qltb_ge in Hlt. split; [now left|].
      intros j' y' [[= <- <-]|H']; [apply Qle_refl|].
      eapply Qle_trans; [eassumption|eapply Hmin; eassumption].
  - apply argmin_None in E. subst l. intros [= <- <-]. split; [now left|].
    intros j' y' [[= <- <-]|[]]. apply Qle_refl.
Qed.

Lemma in_items_s {I} (s : Series I (option Q)) i x :
  In (i, x) (items_s s) <-> In i (s_index s) /\ s_val s i = Some x.
Proof.
  unfold items_s. rewrite <- list_elem_of_In, list_elem_of_omap.
  split.
  - intros (j & Hj & Hv). apply list_elem_of_In in Hj.
    destruct (s_val s j) eqn:E; [|discriminate]. injection Hv as <- <-. auto.
  - intros [Hi Hv]. exists i. split; [now apply list_elem_of_In|]. now rewrite Hv.
Qed.

Lemma div_neg_pos (x y : Q) : x < 0 -> 0 < y -> x / y < 0.
Proof.
  intros Hx Hy. unfold Qdiv.
  assert (Hi : 0 < / y) by now apply Qinv_lt_0_compat.
  assert (H0 : 0 * / y == 0) by ring.
  rewrite <- H0. now apply Qmult_lt_r.
Qed.

Section StationOverload.

Variable hypot : Q -> Q -> Q.
Variable edisgo_obj : EDisGo.
Variable grid : Grid.
Variable voltage_level : string.
Variables pfa allowed : DataFrame Timestamp string Q.

Local Abbreviation cases := (timesteps_load_feedin_case edisgo_obj).
Local Abbreviation st := (station_name grid).
Local Abbreviation load_factor_at :=
  (constraint_terms.load_factor_at edisgo_obj voltage_level).
Local Abbreviation residual := (constraint_terms.residual grid pfa allowed).
Local Abbreviation known := (constraint_terms.known pfa allowed).
Local Abbreviation s_res_masked := (constraint_terms.s_res_masked pfa allowed).
Local Abbreviation s_missing_series :=
  (constraint_terms.s_missing_series edisgo_obj grid voltage_level pfa allowed).

(** The grid is an MV or an LV grid, and the loading of its station can be
    read from the results. *)
Hypothesis grid_level : voltage_level_of grid = inr voltage_level.
Hypothesis station_load : _station_load hypot edisgo_obj grid = inr pfa.
Hypothesis station_allowed : _station_allowed_load edisgo_obj grid = inr allowed.

Lemma station_load_columns : columns pfa = [st].
Proof.
  revert station_load. unfold _station_load. destruct (grid_class grid).
  - destruct (negb _); [discriminate|].
    destruct (column _ "p"); [discriminate|]. destruct (column _ "q"); [discriminate|].
    cbn. now intros [= <-].
  - destruct (loc_columns _ _); [discriminate|]. cbn. now intros [= <-].
  - discriminate.
Qed.

Lemma station_allowed_shape :
  columns allowed = [st] /\ index allowed = s_index cases.
Proof.
  revert station_allowed. unfold _station_allowed_load.
  destruct (grid_class grid); cbn; try discriminate; now intros [= <-].
Qed.

Lemma isin_self (c : string) : isin c [c] = true.
Proof. apply isin_In. now left. Qed.

Lemma masked_cell t x :
  cell s_res_masked t st = Some x <-> known t /\ residual t < 0 /\ x = residual t.
Proof.
  unfold constraint_terms.s_res_masked, mask_nan, binop, get, some_cells,
    constraint_terms.known, constraint_terms.residual. cbn.
  destruct station_allowed_shape as [Hca _].
  rewrite station_load_columns, Hca, isin_self, !andb_true_r.
  destruct (isin t (index allowed)) eqn:Ea, (isin t (index pfa)) eqn:Ep; cbn;
    try (split; [discriminate|]);
    try (apply isin_not_In in Ea); try (apply isin_not_In in Ep); try tauto.
  apply isin_In in Ea, Ep.
  destruct (np.Qltb _ 0) eqn:E.
  - apply Qltb_lt in E. split.
    + intros [= <-]. auto.
    + intros (_ & _ & ->). reflexivity.
  - apply Qltb_ge in E. split; [discriminate|].
    intros (_ & Hlt & _). exfalso. now apply (Qlt_not_le _ _ Hlt).
Qed.

Lemma in_index_masked t : In t (index s_res_masked) <-> In t (index allowed) \/ In t (index pfa).
Proof. apply in_align_index. Qed.

Lemma columns_masked : columns s_res_masked = [st].
Proof.
  unfold constraint_terms.s_res_masked, mask_nan, binop, some_cells. cbn.
  destruct station_allowed_shape as [Hca _].
  rewrite station_load_columns, Hca. apply align_columns_same.
Qed.

(** The entries of the series whose minimum is reported: one for every
    known time step with a negative residual, the residual over the load
    factor of that time step. *)
Lemma in_s_missing t q :
  In (t, q) (items_s s_missing_series) <->
  known t /\ residual t < 0 /\ q = residual t / load_factor_at t.
Proof.
  rewrite in_items_s.
  unfold constraint_terms.s_missing_series, dropna_s, binop_s, get_s.
  cbn [s_index s_val apply].
  rewrite filter_In, in_align_index.
  destruct station_allowed_shape as [_ Hia].
  fold (load_factor_at t). split.
  - intros [_ Hv].
    destruct (isin t (index s_res_masked)) eqn:E1; [|discriminate].
    destruct (cell s_res_masked t st) as [x|] eqn:Ex; [|discriminate].
    destruct (isin t (s_index cases)) eqn:E2; [|discriminate].
    cbn in Hv. injection Hv as <-.
    apply masked_cell in Ex as (Hk & Hlt & ->). auto.
  - intros (Hk & Hlt & ->).
    assert (Hx : cell s_res_masked t st = Some (residual t)) by (apply masked_cell; auto).
    destruct Hk as [Ha Hp].
    assert (E1 : isin t (index s_res_masked) = true)
      by (apply isin_In, in_index_masked; auto).
    assert (E2 : isin t (s_index cases) = true) by (apply isin_In; now rewrite <- Hia).
    rewrite E1, E2, Hx. cbn. split; [|reflexivity].
    split; [left; apply in_index_masked; auto|reflexivity].
Qed.

Lemma dropna_not_empty t :
  known t -> residual t < 0 -> empty (dropna s_res_masked) = false.
Proof.
  intros Hk Hlt. unfold empty.
  assert (Hin : In t (index (dropna s_res_masked))).
  { unfold dropna. cbn [index]. apply filter_In. split.
    - apply in_index_masked. destruct Hk. auto.
    - rewrite columns_masked. cbn [forallb].
      assert (Hx : cell s_res_masked t st = Some (residual t)) by (apply masked_cell; auto).
      now rewrite Hx. }
  destruct (index (dropna s_res_masked)) as [|t0 l]; [destruct Hin|].
  change (columns (dropna s_res_masked)) with (columns s_res_masked).
  now rewrite columns_masked.
Qed.

Lemma _station_overload_overloaded t :
  known t -> residual t < 0 ->
  _station_overload hypot edisgo_obj grid
  = inr [mkCritStation st (np.abs (min_s s_missing_series))
                       (idxmin_s s_missing_series) grid].
Proof.
  intros Hk Hlt. unfold _station_overload.
  rewrite grid_level, station_load, station_allowed. cbn [bind].
  fold s_res_masked. rewrite (dropna_not_empty t Hk Hlt). cbn [negb].
  unfold iloc_col0. rewrite columns_masked. reflexivity.
Qed.

(** C3 (as the code has it): when the station is overloaded at some time
    step, the check returns one row for the station.  With positive load
    factors, [s_missing] is the largest missing capacity over the overloaded
    time steps, where the missing capacity of a time step is its residual
    (allowed minus realized loading) divided by the load factor of that time
    step's case, taken as a positive number; [time_index] is a time step at
    which it is reached.  The residual is divided before the minimum is
    taken, not after. *)
Theorem C3_station_missing_capacity :
  (forall c, 0 < transformer_load_factor edisgo_obj voltage_level c) ->
  (exists t, known t /\ residual t < 0) ->
  exists worst m,
    _station_overload hypot edisgo_obj grid
    = inr [mkCritStation st (Some m) (Some worst) grid]
    /\ known worst /\ residual worst < 0
    /\ m == Qabs (residual worst / load_factor_at worst)
    /\ m == - residual worst / load_factor_at worst
    /\ 0 <= m
    /\ forall t, known t -> residual t < 0 ->
                 residual worst / load_factor_at worst <= residual t / load_factor_at t.
Proof.
  intros Hlf (t0 & Hk0 & Hlt0).
  rewrite (_station_overload_overloaded t0 Hk0 Hlt0).
  unfold min_s, idxmin_s.
  destruct (argmin (items_s s_missing_series)) as [[worst q]|] eqn:E.
  - apply argmin_Some in E as [Hin Hmin].
    apply in_s_missing in Hin as (Hk & Hlt & ->).
    exists worst, (Qabs (residual worst / load_factor_at worst)).
    split; [reflexivity|]. split; [assumption|]. split; [assumption|].
    assert (Hneg : residual worst / load_factor_at worst < 0)
      by (apply div_neg_pos; [assumption|apply Hlf]).
    split; [reflexivity|]. split.
    + eapply Qeq_trans; [apply Qabs_neg; now apply Qlt_le_weak|].
      unfold Qdiv. ring.
    + split; [apply Qabs_nonneg|].
      intros t Hkt Hltt. apply (Hmin t). apply in_s_missing. auto.
  - apply argmin_None in E.
    assert (Hin : In (t0, residual t0 / load_factor_at t0) (items_s s_missing_series))
      by (apply in_s_missing; auto).
    rewrite E in Hin. destruct Hin.
Qed.

End StationOverload.

Lemma C3_station_missing_capacity_witness :
  exists worst m,
    _station_overload examples.hypot_12 examples.two_case_network examples.lv_grid_2
    = inr [mkCritStation "LVGrid_2_station" (Some m) (Some worst) examples.lv_grid_2]
    /\ 0 <= m.
Proof.
  destruct (C3_station_missing_capacity examples.hypot_12 examples.two_case_network
              examples.lv_grid_2 "lv" examples.lv_2_load examples.lv_2_allowed
              eq_refl eq_refl eq_refl)
    as (worst & m & Heq & _ & _ & _ & _ & Hm & _).
  - intros c. destruct c; reflexivity.
  - exists 1%Z. split; [split; simpl; auto|reflexivity].
  - exists worst, m. split; [exact Heq|exact Hm].
Defined.

(** As the specification states it, the property fails: in the example the
    smallest residual is the one of time step 1 (-0.10 MVA against -0.08
    MVA), where the load factor is 1.0, which would give 0.10 MVA at time
    step 1; the check reports 0.16 MVA at time step 2, where the load factor
    is 0.5. *)
Lemma C3_minimum_after_division :
  let residual := residual examples.lv_grid_2 examples.lv_2_load examples.lv_2_allowed in
  let load_factor_at := load_factor_at examples.two_case_network "lv" in
  exists m,
    _station_overload examples.hypot_12 examples.two_case_network examples.lv_grid_2
    = inr [mkCritStation "LVGrid_2_station" (Some m) (Some 2%Z) examples.lv_grid_2]
    /\ m == 16 # 100
    /\ residual 1%Z < residual 2%Z
    /\ Qabs (residual 1%Z) / load_factor_at 1%Z == 10 # 100
    /\ ~ m == Qabs (residual 1%Z) / load_factor_at 1%Z.
Proof.
  cbv zeta. eexists. split; [vm_compute; reflexivity|].
  split; [reflexivity|]. split; [reflexivity|]. split; [reflexivity|].
  vm_compute. discriminate.
Qed.

End station_facts.

(** ** Aggregation of parallel transformers *)

Module aggregation_facts.
Import pd powermodels_io pd_facts.

Lemma filter_none {A} (f : A -> bool) (l : list A) :
  (forall x, In x l -> f x = false) -> List.filter f l = [].
Proof. apply filter_nil_iff. Qed.

Lemma filter_all {A} (f : A -> bool) (l : list A) :
  (forall x, In x l -> f x = true) -> List.filter f l = l.
Proof.
  induction l as [|a l IH]; simpl; [reflexivity|]. intros H.
  rewrite (H a (or_introl eq_refl)). f_equal. apply IH. intros x Hx. apply H. now right.
Qed.

(** In a table with distinct keys, the rows with the key of a row are that
    row alone. *)
Lemma filter_key_unique {A K} `{EqDecision K} (g : A -> K) (l : list A) (t : A) :
  List.NoDup (map g l) -> In t l ->
  List.filter (fun x => bool_decide (g x = g t)) l = [t].
Proof.
  induction l as [|a l IH]; simpl; [intros _ []|].
  intros Hnd Hin. inversion Hnd as [|? ? Ha Hnd']; subst.
  destruct Hin as [->|Hin].
  - rewrite bool_decide_eq_true_2 by reflexivity. f_equal.
    apply filter_none. intros x Hx. apply bool_decide_eq_false_2.
    intros Heq. apply Ha. rewrite <- Heq. now apply in_map.
  - rewrite bool_decide_eq_false_2; [now apply IH|].
    intros Heq. apply Ha. rewrite Heq. now apply in_map.
Qed.

Lemma group_keys_distinct (l : list (string * string)) :
  List.NoDup l -> group_keys l = l.
Proof.
  induction 1 as [|k l Hk Hnd IH]; simpl; [reflexivity|].
  rewrite IH. f_equal. apply filter_all. intros k' Hk'.
  apply negb_true_iff, bool_decide_eq_false_2. intros ->. contradiction.
Qed.

Lemma drop_duplicated_distinct (seen : list string) (l : list Transformer) :
  List.NoDup (map trafo_name l) ->
  (forall t, In t l -> ~ In (trafo_name t) seen) ->
  drop_duplicated seen l = l.
Proof.
  revert seen. induction l as [|a l IH]; simpl; [reflexivity|].
  intros seen Hnd Hseen. inversion Hnd as [|? ? Ha Hnd']; subst.
  rewrite (proj2 (isin_not_In _ _) (Hseen a (or_introl eq_refl))).
  f_equal. apply IH; [assumption|].
  intros t Ht [Heq|Hin].
  - apply Ha. rewrite Heq. now apply in_map.
  - apply (Hseen t); [now right|assumption].
Qed.

Lemma flat_map_singletons {A B} (F : B -> list B) (r : A -> B) (l : list A) :
  (forall a, In a l -> F (r a) = [r a]) -> flat_map F (map r l) = map r l.
Proof.
  induction l as [|a l IH]; simpl; [reflexivity|]. intros H.
  rewrite (H a (or_introl eq_refl)). simpl. f_equal. apply IH.
  intros x Hx. apply H. now right.
Qed.

Section Aggregation.

Variable calculate_impedance_for_parallel_components : list (Q * Q * Q) -> Q * Q * Q.

Local Abbreviation aggregate :=
  (aggregate_parallel_transformers calculate_impedance_for_parallel_components).

(** C7 (as the code has it): aggregation is idempotent only up to the names.
    On a transformer set with one transformer per bus pair - an already
    aggregated set - a further aggregation keeps the rows, their order, their
    buses, their [r], [x] and [s_nom] and every other attribute, but it
    drops the last two characters of every name once more.  This holds when
    the shortened names are still distinct (rows whose shortened names
    coincide are dropped otherwise) and the combination of a single
    transformer is that transformer. *)
Theorem C7_aggregating_an_aggregated_set (psa_trafos : list Transformer) :
  (forall v, calculate_impedance_for_parallel_components [v] = v) ->
  List.NoDup (map bus_pair psa_trafos) ->
  List.NoDup (map (fun t => drop_last_two (trafo_name t)) psa_trafos) ->
  aggregate psa_trafos = map (rename drop_last_two) psa_trafos.
Proof.
  intros Hone Hpairs Hnames. unfold aggregate_parallel_transformers.
  rewrite group_keys_distinct by assumption.
  rewrite drop_duplicated_distinct.
  2:{ rewrite map_map. exact Hnames. }
  2:{ intros t _ []. }
  rewrite map_map.
  assert (Hdf : map (fun t => (bus_pair t,
                   calculate_impedance_for_parallel_components
                     (map rxs (List.filter (same_pair (bus_pair t)) psa_trafos))))
                  psa_trafos
                = map (fun t => (bus_pair t, rxs t)) psa_trafos).
  { apply map_ext_in. intros t Ht. f_equal.
    unfold same_pair. rewrite (filter_key_unique bus_pair psa_trafos t Hpairs Ht).
    apply Hone. }
  rewrite Hdf. clear Hdf.
  assert (Hrow : forall t, In t psa_trafos ->
            map (fun kv => with_rxs (rename drop_last_two t) (snd kv))
                (List.filter (fun kv => bool_decide (fst kv = bus_pair (rename drop_last_two t)))
                             (map (fun t => (bus_pair t, rxs t)) psa_trafos))
            = [rename drop_last_two t]).
  { intros t Ht.
    change (bus_pair (rename drop_last_two t)) with (fst (bus_pair t, rxs t)).
    assert (Hk : List.NoDup (map fst (map (fun t => (bus_pair t, rxs t)) psa_trafos)))
      by (rewrite map_map; exact Hpairs).
    assert (Hin : In (bus_pair t, rxs t) (map (fun t => (bus_pair t, rxs t)) psa_trafos))
      by (apply in_map_iff; eauto).
    rewrite (filter_key_unique fst _ (bus_pair t, rxs t) Hk Hin).
    reflexivity. }
  now apply flat_map_singletons.
Qed.

End Aggregation.

Lemma parallel_equal_single v : exporter_examples.parallel_equal [v] = v.
Proof.
  destruct v as [[[rn rd] [xn xd]] [sn sd]].
  unfold exporter_examples.parallel_equal, Qdiv, Qmult, Qinv. simpl.
  now rewrite !Z.mul_1_r, !Pos.mul_1_r.
Qed.

Lemma C7_aggregating_an_aggregated_set_witness :
  aggregate_parallel_transformers exporter_examples.parallel_equal
    exporter_examples.aggregated_transformers
  = map (rename drop_last_two) exporter_examples.aggregated_transformers.
Proof.
  apply C7_aggregating_an_aggregated_set.
  - exact parallel_equal_single.
  - simpl. distinct_names.
  - vm_compute. distinct_names.
Defined.

(** As the specification states it, the property fails, whatever the
    combination formula: a transformer "Transformer_lv_grid_1_1" is "Transformer_lv_grid_1" after
    one aggregation and "Transformer_lv_grid" after two. *)
Lemma C7_names_shortened_again :
  (forall calc,
      map trafo_name
          (aggregate_parallel_transformers calc exporter_examples.one_transformer)
      = ["Transformer_lv_grid_1"]
      /\ map trafo_name
            (aggregate_parallel_transformers calc
               (aggregate_parallel_transformers calc exporter_examples.one_transformer))
         = ["Transformer_lv_grid"])
  /\ ~ (exists calc, forall psa_trafos,
           aggregate_parallel_transformers calc
             (aggregate_parallel_transformers calc psa_trafos)
           = aggregate_parallel_transformers calc psa_trafos).
Proof.
  assert (H : forall calc,
             map trafo_name
                 (aggregate_parallel_transformers calc exporter_examples.one_transformer)
             = ["Transformer_lv_grid_1"]
             /\ map trafo_name
                   (aggregate_parallel_transformers calc
                      (aggregate_parallel_transformers calc
                         exporter_examples.one_transformer))
                = ["Transformer_lv_grid"]).
  { intros calc. split; vm_compute; reflexivity. }
  split; [exact H|].
  intros [calc Hidem]. destruct (H calc) as [H1 H2].
  rewrite Hidem, H1 in H2. discriminate.
Qed.

End aggregation_facts.

(** ** The exporter without flexible charging points *)

Module empty_flexibles.
Import pd powermodels_io pd_facts.

(** With no flexible charging point, the time series of the charging points
    cannot be built: [pm_comp] is bound only in the branch for a non-empty
    list, and the function ends by returning it. *)
Lemma emob_timeseries_unbound (psa_net : Network) (edisgo_obj : option EDisGo)
    (flexible_hps : option (list string)) :
  _build_component_timeseries psa_net "emob" edisgo_obj (Some []) flexible_hps
  = inl (UnboundLocalError "pm_comp").
Proof. reflexivity. Qed.

(** With no flexible heat pump, the time series of the heat pumps is the
    empty dictionary. *)
Lemma heatpumps_timeseries_empty (psa_net : Network) (edisgo_obj : option EDisGo)
    (flexible_cps : option (list string)) :
  _build_component_timeseries psa_net "heatpumps" edisgo_obj flexible_cps (Some [])
  = inr ∅.
Proof. reflexivity. Qed.

Lemma _build_timeseries_no_cps (psa_net : Network) (pm : PM) (edisgo_obj : EDisGo)
    (flexible_hps : list string) :
  exists e, _build_timeseries psa_net pm edisgo_obj [] flexible_hps = inl e.
Proof.
  unfold _build_timeseries.
  destruct (_build_component_timeseries psa_net "gen" None None None);
    [eexists; reflexivity|].
  destruct (_build_component_timeseries psa_net "load" None None None);
    [eexists; reflexivity|].
  destruct (_build_component_timeseries psa_net "storage" None None None);
    [eexists; reflexivity|].
  cbn [bind]. rewrite emob_timeseries_unbound. eexists; reflexivity.
Qed.

(** The component tables themselves are left empty by an empty list. *)
Lemma component_tables_stay_empty (psa_net : Network) (pm : PM) :
  _build_electromobility psa_net pm [] = inr pm
  /\ _build_heatpumps psa_net pm [] = inr pm.
Proof. split; reflexivity. Qed.

(** C9 (what the code does): with an empty list of flexible charging points
    [to_powermodels] never returns a structure; it raises, for every network,
    every list of flexible heat pumps, every combination formula and every
    per-unit calculation.  On the example network the exception is the
    [UnboundLocalError] of [pm_comp].  With an empty list of flexible heat
    pumps and one flexible charging point the exporter does return on that
    network, the heat pump table and its time series present and empty. *)
Theorem C9_no_flexible_charging_points_raises :
  (forall calc dependent_values edisgo_object flexible_hps,
      exists e,
        to_powermodels calc dependent_values edisgo_object [] flexible_hps = inl e)
  /\ to_powermodels exporter_examples.parallel_equal
       exporter_examples.per_unit_values_given exporter_examples.small_edisgo [] []
     = inl (UnboundLocalError "pm_comp")
  /\ (exists pm ts,
        to_powermodels exporter_examples.parallel_equal
          exporter_examples.per_unit_values_given exporter_examples.small_edisgo
          ["Charging_Point_home"] [] = inr pm
        /\ time_series pm = Some ts
        /\ heatpumps pm = ∅ /\ ts_heatpumps ts = ∅).
Proof.
  split; [|split; [vm_compute; reflexivity|]].
  - intros calc dep obj hps. unfold to_powermodels.
    repeat match goal with
           | |- exists e, bind ?m _ = inl e =>
               destruct m; [eexists; reflexivity|]; cbn [bind]
           end.
    apply _build_timeseries_no_cps.
  - eexists. eexists. split; [vm_compute; reflexivity|].
    split; [reflexivity|]. split; reflexivity.
Qed.

End empty_flexibles.

(** ** Indices of the exported sections *)

Module index_facts.
Import pd powermodels_io pd_facts.

Lemma position_Some (label : string) (labels : list string) :
  In label labels ->
  exists i, position label labels = Some i /\ labels !! i = Some label.
Proof.
  induction labels as [|l labels IH]; simpl; [intros []|].
  destruct (String.eqb l label) eqn:E.
  - intros _. apply String.eqb_eq in E. subst. exists 0%nat. auto.
  - intros [->|Hin]; [now rewrite String.eqb_refl in E|].
    destruct (IH Hin) as (i & -> & Hi). exists (S i). auto.
Qed.

Lemma position_lookup (label : string) (labels : list string) i :
  position label labels = Some i -> labels !! i = Some label.
Proof.
  revert i. induction labels as [|l labels IH]; simpl; [discriminate|].
  destruct (String.eqb l label) eqn:E.
  - intros i [= <-]. apply String.eqb_eq in E. now subst.
  - destruct (position label labels) as [j|]; [|discriminate].
    intros i [= <-]. now apply IH.
Qed.

Lemma position_distinct (labels : list string) i label :
  List.NoDup labels -> labels !! i = Some label -> position label labels = Some i.
Proof.
  revert i. induction labels as [|l labels IH]; intros i Hnd; [discriminate|].
  inversion Hnd as [|? ? Hl Hnd']; subst. destruct i as [|i]; simpl.
  - intros [= ->]. now rewrite String.eqb_refl.
  - intros Hi. destruct (String.eqb l label) eqn:E.
    + apply String.eqb_eq in E. subst. exfalso. apply Hl.
      apply list_elem_of_In. eapply list_elem_of_lookup_2. exact Hi.
    + now rewrite (IH i Hnd' Hi).
Qed.

(** The bus names and the indices 1..N correspond one to one under
    [_mapping]: the i-th bus, and only it, is mapped to i. *)
Lemma _mapping_bus_bijection (psa_net : Network) :
  List.NoDup (map bus_name (buses psa_net)) ->
  forall name i,
    _mapping psa_net name "bus" = inr i
    <-> (1 <= i <= length (buses psa_net))%nat
        /\ map bus_name (buses psa_net) !! (i - 1)%nat = Some name.
Proof.
  intros Hnd name i. unfold _mapping. cbn [String.eqb Ascii.eqb Bool.eqb bind ret].
  destruct (position name (map bus_name (buses psa_net))) as [p|] eqn:E.
  - pose proof (position_lookup _ _ _ E) as Hp.
    assert (Hlt : (p < length (buses psa_net))%nat).
    { apply lookup_lt_Some in Hp. now rewrite length_map in Hp. }
    split.
    + intros [= <-]. replace (p + 1 - 1)%nat with p by lia. split; [lia|assumption].
    + intros [Hi Hl]. apply (position_distinct _ _ _ Hnd) in Hl.
      rewrite E in Hl. injection Hl as ->. unfold ret. f_equal. lia.
  - split; [discriminate|]. intros [Hi Hl].
    apply (position_distinct _ _ _ Hnd) in Hl. congruence.
Qed.

(** C8 (what the code does on a network with a charging point that is not
    flexible): the exporter returns, and in the load section the key 1 holds
    the public charging point and the key 2 the residential load, while in
    the load section of the time series the key 1 holds the series of the
    residential load and there is no key 2.  The index of the residential
    load differs between the two sections. *)
Theorem C8_load_indices_differ :
  exists pm ts,
    to_powermodels exporter_examples.parallel_equal
      exporter_examples.per_unit_values_given exporter_examples.small_edisgo
      ["Charging_Point_home"] [] = inr pm
    /\ time_series pm = Some ts
    /\ option_map load_pd (load pm !! "1") = Some (1 # 100)
    /\ option_map load_pd (load pm !! "2") = Some (2 # 100)
    /\ ts_load ts !! "1" = Some (TsLoad [2 # 100; 2 # 100] [0; 0])
    /\ ts_load ts !! "2" = None
    /\ _mapping exporter_examples.small_network "Load_residential" "load" = inr 1%nat.
Proof.
  eexists. eexists. split; [vm_compute; reflexivity|].
  split; [reflexivity|]. repeat split; vm_compute; reflexivity.
Qed.

End index_facts.

(** ** The branch section *)

Module branch_facts.
Import pd powermodels_io exporter_terms pd_facts index_facts.

Lemma _mapping_bus (psa_net : Network) (name : string) :
  In name (bus_names psa_net) ->
  _mapping psa_net name "bus" = inr (bus_number psa_net name).
Proof.
  intros H. unfold _mapping, bus_number. cbn [String.eqb Ascii.eqb Bool.eqb bind ret].
  fold (bus_names psa_net).
  destruct (position_Some _ _ H) as (i & -> & _). reflexivity.
Qed.

Lemma str_inj (i j : nat) : str i = str j -> i = j.
Proof. apply (inj pretty). Qed.

Section Loop.

Variable psa_net : Network.

Local Abbreviation branch_body := (exporter_terms.branch_body psa_net).

Lemma _build_branch_loop (pm : PM) :
  _build_branch psa_net pm = for_each_from 0 (lines psa_net) branch_body pm.
Proof. reflexivity. Qed.

(** One step of the loop at a position that holds a line: only rows of
    lines are read from the concatenated table. *)
Lemma branch_body_line (i : nat) (l : Line) (pm : PM) :
  lines psa_net !! i = Some l ->
  In (line_bus0 l) (bus_names psa_net) -> In (line_bus1 l) (bus_names psa_net) ->
  branch_body i l pm
  = inr (set_branch (insert (str (i + 1)) (line_record psa_net i l)) pm).
Proof.
  intros Hi H0 H1. unfold exporter_terms.branch_body.
  rewrite (_mapping_bus _ _ H0), (_mapping_bus _ _ H1). cbn [bind].
  rewrite lookup_app_l.
  2:{ rewrite length_map. now apply lookup_lt_Some in Hi. }
  rewrite list_lookup_fmap, Hi. reflexivity.
Qed.

(** The loop from position [i] over the lines [rest] found there. *)
Lemma branch_loop_from (rest : list Line) (i : nat) (pm : PM) :
  (forall j l, rest !! j = Some l -> lines psa_net !! (i + j)%nat = Some l) ->
  lines_connected psa_net rest ->
  exists pm',
    for_each_from i rest branch_body pm = inr pm'
    /\ (forall j l, rest !! j = Some l ->
          branch pm' !! str (i + j + 1) = Some (line_record psa_net (i + j) l))
    /\ (forall k, (forall j, (j < length rest)%nat -> k <> str (i + j + 1)) ->
          branch pm' !! k = branch pm !! k).
Proof.
  revert i pm. induction rest as [|l rest IH]; intros i pm Hpos Hconn.
  - exists pm. split; [reflexivity|]. split; [intros j l' H; discriminate|reflexivity].
  - cbn [for_each_from].
    destruct (Hconn l (or_introl eq_refl)) as [H0 H1].
    rewrite (branch_body_line i l pm); [|specialize (Hpos 0%nat l eq_refl);
      now rewrite Nat.add_0_r in Hpos|assumption|assumption].
    cbn [bind].
    destruct (IH (S i) (set_branch (insert (str (i + 1)) (line_record psa_net i l)) pm))
      as (pm' & Hrun & Hkeys & Hframe).
    + intros j l' Hj. replace (S i + j)%nat with (i + S j)%nat by lia. now apply Hpos.
    + intros l' Hl'. apply Hconn. now right.
    + exists pm'. split; [exact Hrun|]. split.
      * intros [|j] l' Hj.
        -- injection Hj as <-. rewrite Hframe.
           ++ rewrite Nat.add_0_r. cbn. apply lookup_insert_eq.
           ++ intros j _ Heq. apply str_inj in Heq. lia.
        -- replace (i + S j)%nat with (S i + j)%nat by lia. now apply Hkeys.
      * intros k Hk. rewrite Hframe.
        -- cbn. apply lookup_insert_ne. intros Heq. apply (Hk 0%nat); [simpl; lia|].
           now rewrite Nat.add_0_r.
        -- intros j Hj Heq. apply (Hk (S j)); [simpl; lia|].
           now replace (i + S j)%nat with (S i + j)%nat by lia.
Qed.

End Loop.

Lemma _build_branch_lines (psa_net : Network) (pm : PM) :
  lines_connected psa_net (lines psa_net) ->
  branch pm = ∅ ->
  exists pm', _build_branch psa_net pm = inr pm'
              /\ branch_of_lines psa_net (branch pm').
Proof.
  intros Hconn Hempty. rewrite _build_branch_loop.
  destruct (branch_loop_from psa_net (lines psa_net) 0 pm) as (pm' & Hrun & Hkeys & Hframe).
  - intros j l Hj. exact Hj.
  - exact Hconn.
  - exists pm'. split; [exact Hrun|]. split.
    + intros i l Hi. exact (Hkeys i l Hi).
    + intros k rec Hk.
      destruct (in_dec string_dec k
                  (map (fun j => str (j + 1)) (seq 0 (length (lines psa_net)))))
        as [Hin|Hnot].
      * apply in_map_iff in Hin as (j & <- & Hj). apply in_seq in Hj.
        destruct (lookup_lt_is_Some_2 (lines psa_net) j) as [l Hl]; [lia|].
        exists j, l. pose proof (Hkeys j l Hl) as Hrec. cbn [Nat.add] in Hrec.
        rewrite Hrec in Hk. injection Hk as <-.
        repeat split; assumption || reflexivity.
      * rewrite Hframe, Hempty in Hk; [discriminate|].
        intros j Hj Heq. apply Hnot. apply in_map_iff. exists j.
        cbn [Nat.add] in Heq. split; [now rewrite Heq|]. apply in_seq. lia.
Qed.

(** *** The other builders leave the branch section alone *)

Lemma for_each_from_keeps {A St B} (f : St -> B) (body : nat -> A -> St -> result St) :
  (forall i a s s', body i a s = inr s' -> f s' = f s) ->
  forall rows i s s', for_each_from i rows body s = inr s' -> f s' = f s.
Proof.
  intros Hbody rows. induction rows as [|a rows IH]; intros i s s'; cbn [for_each_from].
  - now intros [= <-].
  - destruct (body i a s) as [e|s1] eqn:E; [discriminate|]. cbn [bind].
    intros Hrun. rewrite (IH _ _ _ Hrun). now apply (Hbody i a).
Qed.

Ltac keeps_branch :=
  match goal with
  | H : bind ?m _ = inr _ |- _ =>
      destruct m; [discriminate|]; cbn [bind] in H; keeps_branch
  | H : (let '(_, _) := ?p in _) = inr _ |- _ => destruct p; keeps_branch
  | H : ret _ = inr _ |- _ => unfold ret in H; injection H as <-; reflexivity
  | H : inr _ = inr _ |- _ => injection H as <-; reflexivity
  end.

Lemma _build_bus_branch psa_net pm pm' :
  _build_bus psa_net pm = inr pm' -> branch pm' = branch pm.
Proof.
  unfold _build_bus. destruct (mapM _ _); [discriminate|]. cbn [bind].
  apply for_each_from_keeps. intros i [b ty] st st' Hb. keeps_branch.
Qed.

Lemma _build_gen_branch psa_net pm pm' :
  _build_gen psa_net pm = inr pm' -> branch pm' = branch pm.
Proof.
  unfold _build_gen.
  destruct (match List.filter _ _ with [] => _ | _ => _ end); [discriminate|]. cbn [bind].
  destruct (_mapping _ _ _); [discriminate|]. cbn [bind].
  destruct (bus pm !! _); [|discriminate]. cbn [bind].
  intros H. apply (for_each_from_keeps branch) in H; [exact H|].
  intros i g st st' Hb. keeps_branch.
Qed.

Lemma _build_storage_branch psa_net pm pm' :
  _build_storage psa_net pm = inr pm' -> branch pm' = branch pm.
Proof.
  apply for_each_from_keeps. intros i g st st' Hb. keeps_branch.
Qed.

Lemma _build_load_branch psa_net pm cps hps pm' :
  _build_load psa_net pm cps hps = inr pm' -> branch pm' = branch pm.
Proof.
  unfold _build_load. destruct (drop _ cps); [discriminate|]. cbn [bind].
  destruct (drop _ hps); [discriminate|]. cbn [bind].
  apply for_each_from_keeps. intros i g st st' Hb. keeps_branch.
Qed.

Lemma _build_electromobility_branch psa_net pm cps pm' :
  _build_electromobility psa_net pm cps = inr pm' -> branch pm' = branch pm.
Proof.
  unfold _build_electromobility. destruct (_ =? _)%nat; [now intros [= <-]|].
  destruct (loc _ _); [discriminate|]. cbn [bind].
  apply for_each_from_keeps. intros i g st st' Hb. keeps_branch.
Qed.

Lemma _build_heatpumps_branch psa_net pm hps pm' :
  _build_heatpumps psa_net pm hps = inr pm' -> branch pm' = branch pm.
Proof.
  unfold _build_heatpumps. destruct (_ =? _)%nat; [now intros [= <-]|].
  destruct (loc _ _); [discriminate|]. cbn [bind].
  apply for_each_from_keeps. intros i g st st' Hb. keeps_branch.
Qed.

Lemma _build_timeseries_branch psa_net pm obj cps hps pm' :
  _build_timeseries psa_net pm obj cps hps = inr pm' -> branch pm' = branch pm.
Proof.
  unfold _build_timeseries. intros H. keeps_branch.
Qed.

(** C10: the exported branch section holds exactly one record per line of
    the network, under the keys 1..len(lines), each built from the row of
    its line and marked as no transformer; it holds no record for a
    transformer.  [_build_branch] returns such a section whenever the
    buses of the lines are buses of the network, and the section of the
    structure [to_powermodels] returns is such a section, for the network
    the exporter works on (transformers aggregated, per-unit values
    calculated). *)
Theorem C10_branch_section_lines_only :
  (forall psa_net,
      lines_connected psa_net (lines psa_net) ->
      exists pm, _build_branch psa_net _init_pm = inr pm
                 /\ branch_of_lines psa_net (branch pm))
  /\ (forall calc dependent_values edisgo_object flexible_cps flexible_hps pm,
        let psa_net :=
          dependent_values
            (with_transformers (to_pypsa edisgo_object)
               (aggregate_parallel_transformers calc
                  (transformers (to_pypsa edisgo_object)))) in
        lines_connected psa_net (lines psa_net) ->
        to_powermodels calc dependent_values edisgo_object flexible_cps flexible_hps
        = inr pm ->
        branch_of_lines psa_net (branch pm)).
Proof.
  split.
  - intros psa_net Hconn. now apply _build_branch_lines.
  - intros calc dep obj cps hps pm psa_net Hconn. unfold to_powermodels. fold psa_net.
    destruct (_build_bus psa_net _) as [|pm1] eqn:E1; [discriminate|]. cbn [bind].
    destruct (_build_gen psa_net pm1) as [|pm2] eqn:E2; [discriminate|]. cbn [bind].
    destruct (_build_branch_lines psa_net pm2 Hconn) as (pm3 & E3 & Hlines).
    { rewrite (_build_gen_branch _ _ _ E2), (_build_bus_branch _ _ _ E1). reflexivity. }
    rewrite E3. cbn [bind].
    destruct (_build_storage psa_net pm3) as [|pm4] eqn:E4; [discriminate|]. cbn [bind].
    destruct (_build_load psa_net pm4 cps hps) as [|pm5] eqn:E5; [discriminate|].
    cbn [bind].
    destruct (_build_electromobility psa_net pm5 cps) as [|pm6] eqn:E6; [discriminate|].
    cbn [bind].
    destruct (_build_heatpumps psa_net pm6 hps) as [|pm7] eqn:E7; [discriminate|].
    cbn [bind]. intros E8.
    rewrite (_build_timeseries_branch _ _ _ _ _ _ E8), (_build_heatpumps_branch _ _ _ _ E7),
      (_build_electromobility_branch _ _ _ _ E6), (_build_load_branch _ _ _ _ _ E5),
      (_build_storage_branch _ _ _ E4).
    exact Hlines.
Qed.

Lemma C10_branch_section_lines_only_witness :
  (exists pm,
      _build_branch exporter_examples.small_network _init_pm = inr pm
      /\ branch_of_lines exporter_examples.small_network (branch pm))
  /\ (exists pm,
        to_powermodels exporter_examples.parallel_equal
          exporter_examples.per_unit_values_given exporter_examples.small_edisgo
          ["Charging_Point_home"] [] = inr pm
        /\ branch pm !! "1"
           = Some (line_record exporter_examples.small_network 0
                     (mkLine "Line_1" "Bus_1" "Bus_2" (1 # 100) (2 # 100) 0 0 1))
        /\ branch pm !! "2" = None).
Proof.
  destruct C10_branch_section_lines_only as [Hbuild Hexport].
  assert (Hconn : lines_connected exporter_examples.small_network
                    (lines exporter_examples.small_network)).
  { intros l [<-|[]]. split; simpl; auto. }
  split; [now apply Hbuild|].
  eexists. split; [vm_compute; reflexivity|].
  match goal with
  | |- branch ?pm !! _ = _ /\ _ =>
      destruct (Hexport exporter_examples.parallel_equal
                  exporter_examples.per_unit_values_given
                  exporter_examples.small_edisgo ["Charging_Point_home"] [] pm)
        as [Hkeys Honly]
  end.
  - exact Hconn.
  - vm_compute. reflexivity.
  - split.
    + apply (Hkeys 0%nat). reflexivity.
    + match goal with |- ?m !! "2" = None => destruct (m !! "2") as [rec|] eqn:E end;
        [|reflexivity].
      destruct (Honly "2" rec E) as (i & l & Hi & Hk & _).
      destruct i as [|i]; [vm_compute in Hk; discriminate|discriminate].
Defined.

End branch_facts.

(** ** Line over-loading *)

Module line_overload_facts.
Import pd align check_tech_constraints constraint_terms pd_facts voltage_facts.
Import line_load_terms.

Lemma in_column_items {R C} (df : DataFrame R C (option Q)) (c : C) r x :
  In (r, x) (column_items df c) <-> In r (index df) /\ cell df r c = Some x.
Proof.
  unfold column_items. rewrite <- list_elem_of_In, list_elem_of_omap.
  split.
  - intros (j & Hj & Hv). apply list_elem_of_In in Hj.
    destruct (cell df j c) eqn:E; [|discriminate]. injection Hv as <- <-. auto.
  - intros [Hi Hv]. exists r. split; [now apply list_elem_of_In|]. now rewrite Hv.
Qed.

(** The entries of a column of the table of relative loads that are larger
    than one. *)
Lemma in_overloaded_items (rel : DataFrame Timestamp string (option Q)) c t x :
  In (t, x) (column_items
               (mask_nan rel (fun t c => np.gt (cell rel t c) (Some 1))) c)
  <-> In t (index rel) /\ cell rel t c = Some x /\ 1 < x.
Proof.
  rewrite in_column_items. cbn [index cell mask_nan].
  split.
  - intros [Ht Hv]. destruct (cell rel t c) as [y|] eqn:E; cbn in Hv; [|discriminate].
    destruct (np.Qltb 1 y) eqn:Hlt; [|discriminate].
    injection Hv as <-. apply Qltb_lt in Hlt. auto.
  - intros (Ht & Hv & Hlt). split; [assumption|]. rewrite Hv. cbn.
    apply Qltb_lt in Hlt. now rewrite Hlt.
Qed.

Lemma crit_line_of_Some rel voltage_level c r :
  crit_line_of rel voltage_level c = Some r ->
  crit_line r = c /\ line_voltage_level r = voltage_level
  /\ 1 < max_rel_overload r
  /\ (forall t x, In t (index rel) -> cell rel t c = Some x -> x <= max_rel_overload r)
  /\ exists t x, line_time_index r = Some t /\ In t (index rel)
                 /\ cell rel t c = Some x /\ x == max_rel_overload r.
Proof.
  unfold crit_line_of.
  destruct (argmax (column_items (mask_nan _ _) c)) as [[t0 m]|] eqn:E; [|discriminate].
  intros [= <-]. cbn [crit_line line_voltage_level max_rel_overload line_time_index].
  apply argmax_Some in E as [Hin Hmax].
  apply in_overloaded_items in Hin as (Ht0 & Hv0 & Hlt0).
  assert (Hall : forall t x, In t (index rel) -> cell rel t c = Some x -> x <= m).
  { intros t x Ht Hv. destruct (Qlt_le_dec 1 x) as [Hx|Hx].
    - apply (Hmax t). apply in_overloaded_items. auto.
    - eapply Qle_trans; [exact Hx|]. now apply Qlt_le_weak. }
  split; [reflexivity|]. split; [reflexivity|]. split; [assumption|].
  split; [assumption|].
  destruct (argmax (column_items rel c)) as [[t1 m1]|] eqn:E1.
  - apply argmax_Some in E1 as [Hin1 Hmax1].
    apply in_column_items in Hin1 as [Ht1 Hv1].
    exists t1, m1. cbn. repeat split; try assumption.
    apply Qle_antisym; [now apply (Hall t1)|].
    apply (Hmax1 t0). apply in_column_items. auto.
  - apply argmax_None in E1.
    assert (Hin : In (t0, m) (column_items rel c)) by (apply in_column_items; auto).
    rewrite E1 in Hin. destruct Hin.
Qed.

Lemma crit_line_of_overloaded rel voltage_level c t x :
  In t (index rel) -> cell rel t c = Some x -> 1 < x ->
  exists r, crit_line_of rel voltage_level c = Some r.
Proof.
  intros Ht Hv Hlt. unfold crit_line_of.
  destruct (argmax (column_items (mask_nan _ _) c)) as [[t0 m]|] eqn:E; [eauto|].
  apply argmax_None in E.
  assert (Hin : In (t, x) (column_items
                  (mask_nan rel (fun t c => np.gt (cell rel t c) (Some 1))) c))
    by (apply in_overloaded_items; auto).
  rewrite E in Hin. destruct Hin.
Qed.

(** X1: the line overload check reports exactly the lines of the voltage level
    whose relative load exceeds one at some time step, each with the largest
    relative load it reaches and with a time step at which it reaches it. *)
Theorem line_overload_reports_the_overloaded_lines
    (edisgo_obj : EDisGo) (voltage_level : string) (lines_df : list Line)
    (rel : DataFrame Timestamp string (option Q)) :
  empty (i_res (results edisgo_obj)) = false ->
  lines_in_voltage_level edisgo_obj voltage_level "" = inr lines_df ->
  lines_relative_load edisgo_obj (Some (line_names lines_df)) = inr rel ->
  exists crit_lines,
    _line_overload edisgo_obj voltage_level = inr crit_lines
    /\ (forall r, In r crit_lines ->
          In (crit_line r) (columns rel)
          /\ line_voltage_level r = voltage_level
          /\ 1 < max_rel_overload r
          /\ (forall t x, In t (index rel) -> cell rel t (crit_line r) = Some x ->
                          x <= max_rel_overload r)
          /\ exists t x, line_time_index r = Some t /\ In t (index rel)
                         /\ cell rel t (crit_line r) = Some x
                         /\ x == max_rel_overload r)
    /\ (forall c t x,
          In c (columns rel) -> In t (index rel) -> cell rel t c = Some x -> 1 < x ->
          exists r, In r crit_lines /\ crit_line r = c).
Proof.
  intros Hres Hlines Hrel. unfold _line_overload.
  rewrite Hres, Hlines. cbn [bind]. rewrite Hrel. cbn [bind].
  eexists. split; [reflexivity|].
  fold (crit_line_of rel voltage_level). split.
  - intros r Hr. apply list_elem_of_In, list_elem_of_omap in Hr as (c & Hc & Hr).
    apply list_elem_of_In in Hc.
    apply crit_line_of_Some in Hr as (<- & Hr). split; [assumption|exact Hr].
  - intros c t x Hc Ht Hv Hlt.
    destruct (crit_line_of_overloaded rel voltage_level c t x Ht Hv Hlt) as [r Hr].
    exists r. split.
    + apply list_elem_of_In, list_elem_of_omap. exists c.
      split; [now apply list_elem_of_In|now rewrite Hr].
    + now apply crit_line_of_Some in Hr as (<- & _).
Qed.

Lemma line_overload_reports_the_overloaded_lines_witness :
  exists crit_lines,
    _line_overload examples.ring_network "mv" = inr crit_lines
    /\ map crit_line crit_lines = ["Line_AB"]
    /\ forall r, In r crit_lines -> 1 < max_rel_overload r.
Proof.
  destruct (line_overload_reports_the_overloaded_lines examples.ring_network "mv"
              examples.ring_lines
              (match lines_relative_load examples.ring_network
                       (Some (line_names examples.ring_lines)) with
               | inr rel => rel
               | inl _ => mkFrame [] [] (fun _ _ => None)
               end))
    as (crit_lines & Heq & Hsound & _).
  - reflexivity.
  - reflexivity.
  - vm_compute. reflexivity.
  - exists crit_lines. split; [exact Heq|]. split.
    + vm_compute in Heq. injection Heq as <-. reflexivity.
    + intros r Hr. now apply Hsound in Hr as (_ & _ & Hlt & _).
Defined.

(** X2: a voltage level other than 'mv' and 'lv' is refused by the line
    overload check with a [ValueError], but only after the check for missing
    results. *)
Theorem line_overload_unknown_voltage_level
    (edisgo_obj : EDisGo) (voltage_level : string) :
  voltage_level <> "mv" -> voltage_level <> "lv" ->
  _line_overload edisgo_obj voltage_level
  = if empty (i_res (results edisgo_obj)) then inl NoResultsAvailable
    else inl (ValueError (voltage_level ++
           " is not a valid option for input variable 'voltage_level'. Try 'mv' or 'lv'.")).
Proof.
  intros Hmv Hlv. unfold _line_overload, lines_in_voltage_level.
  apply String.eqb_neq in Hmv, Hlv. rewrite Hmv, Hlv.
  destruct (empty _); reflexivity.
Qed.

Lemma line_overload_unknown_voltage_level_witness :
  _line_overload examples.ring_network "hv"
  = inl (ValueError
           "hv is not a valid option for input variable 'voltage_level'. Try 'mv' or 'lv'.")
  /\ _line_overload examples.before_power_flow "hv" = inl NoResultsAvailable.
Proof.
  split.
  - apply (line_overload_unknown_voltage_level examples.ring_network "hv"); discriminate.
  - apply (line_overload_unknown_voltage_level examples.before_power_flow "hv"); discriminate.
Defined.

End line_overload_facts.

(** ** Relative line loading *)

Module line_load_facts.
Import pd align check_tech_constraints constraint_terms pd_facts station_facts.
Import line_load_terms.

Lemma loc_columns_inl {R V} (df : DataFrame R string V) (labels : list string) e :
  loc_columns df labels = inl e -> exists c, e = KeyError c.
Proof.
  unfold loc_columns. destruct (List.filter _ labels); [discriminate|].
  intros [= <-]. eauto.
Qed.

Lemma lines_allowed_load_index (edisgo_obj : EDisGo) allowed :
  lines_allowed_load edisgo_obj None = inr allowed ->
  index allowed = index (i_res (results edisgo_obj)).
Proof.
  unfold lines_allowed_load, _lines_allowed_load_voltage_level.
  cbn [lines_in_voltage_level String.eqb Ascii.eqb Bool.eqb bind ret].
  destruct (series_loc _ _) as [|cases] eqn:E; [discriminate|]. cbn [bind ret].
  intros [= <-]. apply series_loc_inr in E. subst cases. reflexivity.
Qed.

Lemma lines_allowed_load_some (edisgo_obj : EDisGo) allowed lines :
  lines_allowed_load edisgo_obj None = inr allowed ->
  lines_allowed_load edisgo_obj (Some lines) = loc_columns allowed lines.
Proof.
  unfold lines_allowed_load.
  destruct (_lines_allowed_load_voltage_level edisgo_obj "lv"); [discriminate|].
  cbn [bind].
  destruct (_lines_allowed_load_voltage_level edisgo_obj "mv"); [discriminate|].
  cbn [bind ret]. now intros [= <-].
Qed.

(** X3: the relative load of the lines is their apparent power over their
    allowed load.  When the allowed loads can be computed, the call returns
    exactly when every line asked for has an allowed load and an apparent
    power in the results, with a [KeyError] otherwise; the table has the
    lines asked for as columns and the time steps of either table as rows.
    At a time step of both tables the cell of a line is its apparent power
    divided by its allowed load (when that is not zero); at a time step one
    of them lacks it is [NaN]. *)
Theorem lines_relative_load_divides_load_by_allowed
    (edisgo_obj : EDisGo) (lines : option (list string))
    (allowed : DataFrame Timestamp string Q) :
  let names := lines_or_all edisgo_obj lines in
  let loading := s_res (results edisgo_obj) in
  lines_allowed_load edisgo_obj None = inr allowed ->
  index allowed = index (i_res (results edisgo_obj))
  /\ ((forall n, In n names -> In n (columns allowed) /\ In n (columns loading)) ->
      exists df,
        lines_relative_load edisgo_obj lines = inr df
        /\ columns df = names
        /\ (forall t, In t (index df) <-> In t (index loading) \/ In t (index allowed))
        /\ forall t n,
             In n names ->
             (In t (index loading) -> In t (index allowed) ->
              ~ cell allowed t n == 0 ->
              cell df t n = Some (cell loading t n / cell allowed t n))
             /\ (~ In t (index loading) \/ ~ In t (index allowed) ->
                 cell df t n = None))
  /\ (forall n, In n names -> ~ (In n (columns allowed) /\ In n (columns loading)) ->
      exists key, lines_relative_load edisgo_obj lines = inl (KeyError key)).
Proof.
  intros names loading Hallowed. split; [now apply lines_allowed_load_index|].
  assert (Hdef : lines_relative_load edisgo_obj lines
                 = let* allowed_loading := loc_columns allowed names in
                   let* loading := loc_columns loading names in
                   ret (binop np.div (some_cells loading) (some_cells allowed_loading))).
  { unfold lines_relative_load. cbv zeta.
    change (match lines with
            | Some lines0 => lines0
            | None => columns (i_res (results edisgo_obj))
            end) with names.
    now rewrite (lines_allowed_load_some edisgo_obj allowed names Hallowed). }
  rewrite Hdef. split.
  - intros Hin.
    rewrite (loc_columns_ok allowed names (fun n Hn => proj1 (Hin n Hn))). cbn [bind].
    rewrite (loc_columns_ok loading names (fun n Hn => proj2 (Hin n Hn))). cbn [bind ret].
    eexists. split; [reflexivity|]. split; [apply align_columns_same|].
    split; [intros t; apply in_align_index|].
    intros t n Hn. cbn [cell binop]. unfold get. cbn [index columns cell some_cells].
    rewrite (proj2 (isin_In n names) Hn), !andb_true_r. split.
    + intros Hl Ha _.
      now rewrite (proj2 (isin_In t (index loading)) Hl),
        (proj2 (isin_In t (index allowed)) Ha).
    + intros [Hl|Ha].
      * now rewrite (proj2 (isin_not_In t (index loading)) Hl).
      * rewrite (proj2 (isin_not_In t (index allowed)) Ha).
        now destruct (isin t (index loading)).
  - intros n Hn Hmiss.
    destruct (loc_columns allowed names) as [e|a] eqn:Ea.
    + apply loc_columns_inl in Ea as [k ->]. cbn [bind]. eauto.
    + apply loc_columns_inr in Ea as [_ Hall]. cbn [bind].
      destruct (loc_columns_missing loading names n Hn) as [k Hk].
      * intros Hl. apply Hmiss. split; [now apply Hall|exact Hl].
      * rewrite Hk. cbn [bind]. eauto.
Qed.

Lemma lines_relative_load_divides_load_by_allowed_witness :
  exists df q,
    lines_relative_load examples.ring_network None = inr df
    /\ columns df = ["Line_AB"; "Line_BC"; "Line_CD"]
    /\ cell df 1%Z "Line_AB" = Some q /\ q == 12 # 10
    /\ exists key,
         lines_relative_load examples.ring_network (Some ["Line_XY"]) = inl (KeyError key).
Proof.
  destruct (lines_relative_load_divides_load_by_allowed examples.ring_network None
              (examples.returned (lines_allowed_load examples.ring_network None)) eq_refl)
    as (_ & Hok & _).
  destruct Hok as (df & Hrun & Hcols & _ & Hcell).
  - intros n Hn. split; [|exact Hn].
    destruct Hn as [<-|[<-|[<-|[]]]]; vm_compute; auto.
  - exists df. eexists. split; [exact Hrun|]. split; [exact Hcols|]. split; [|split].
    + apply (Hcell 1%Z "Line_AB");
        [cbn; auto|cbn; auto|vm_compute; auto|vm_compute; discriminate].
    + reflexivity.
    + apply (lines_relative_load_divides_load_by_allowed examples.ring_network
               (Some ["Line_XY"])
               (examples.returned (lines_allowed_load examples.ring_network None)) eq_refl)
        with (n := "Line_XY"); [now left|].
      intros [_ H]. cbn in H. intuition discriminate.
Defined.

End line_load_facts.

(** ** Reports of the station checks *)

Module station_report_facts.
Import pd align check_tech_constraints constraint_terms pd_facts station_facts.

Section OneStation.

Variable hypot : Q -> Q -> Q.
Variable edisgo_obj : EDisGo.
Variable grid : Grid.
Variable voltage_level : string.
Variables pfa allowed : DataFrame Timestamp string Q.

Local Abbreviation st := (station_name grid).
Local Abbreviation residual := (constraint_terms.residual grid pfa allowed).
Local Abbreviation known := (constraint_terms.known pfa allowed).
Local Abbreviation s_res_masked := (constraint_terms.s_res_masked pfa allowed).

Hypothesis grid_level : voltage_level_of grid = inr voltage_level.
Hypothesis station_load : _station_load hypot edisgo_obj grid = inr pfa.
Hypothesis station_allowed : _station_allowed_load edisgo_obj grid = inr allowed.

Lemma dropna_empty_without_overload :
  (forall t, known t -> 0 <= residual t) -> empty (dropna s_res_masked) = true.
Proof.
  intros Hok. unfold empty.
  assert (Hnil : index (dropna s_res_masked) = []).
  { unfold dropna. cbn [index]. apply filter_nil_iff. intros t Ht.
    rewrite (columns_masked hypot edisgo_obj grid pfa allowed station_load station_allowed).
    cbn [forallb].
    destruct (cell s_res_masked t st) as [x|] eqn:E; [|reflexivity].
    apply (masked_cell hypot edisgo_obj grid pfa allowed station_load station_allowed)
      in E as (Hk & Hlt & _).
    exfalso. apply (Qlt_not_le _ _ Hlt). now apply Hok. }
  now rewrite Hnil.
Qed.

(** X4: the station overload check returns the empty report exactly when the
    station's loading stays within the allowed loading at every time step for
    which both are known. *)
Theorem station_overload_empty_iff_not_overloaded :
  _station_overload hypot edisgo_obj grid = inr []
  <-> forall t, known t -> 0 <= residual t.
Proof.
  split.
  - intros Hret t Hk. apply Qnot_lt_le. intros Hlt.
    rewrite (_station_overload_overloaded hypot edisgo_obj grid voltage_level pfa allowed
               grid_level station_load station_allowed t Hk Hlt) in Hret.
    discriminate.
  - intros Hok. unfold _station_overload.
    rewrite grid_level, station_load, station_allowed. cbn [bind].
    fold s_res_masked. now rewrite (dropna_empty_without_overload Hok).
Qed.

End OneStation.

Lemma station_overload_empty_iff_not_overloaded_witness :
  _station_overload examples.hypot_12 examples.two_case_network examples.lv_grid_2
  <> inr []
  /\ ~ (forall t, known examples.lv_2_load examples.lv_2_allowed t ->
                  0 <= residual examples.lv_grid_2 examples.lv_2_load
                         examples.lv_2_allowed t).
Proof.
  pose proof (station_overload_empty_iff_not_overloaded examples.hypot_12
                examples.two_case_network examples.lv_grid_2 "lv"
                examples.lv_2_load examples.lv_2_allowed eq_refl eq_refl eq_refl)
    as [Hto Hfrom].
  assert (Hne : _station_overload examples.hypot_12 examples.two_case_network
                  examples.lv_grid_2 <> inr [])
    by (vm_compute; discriminate).
  split; [exact Hne|]. intros H. apply Hne. now apply Hfrom.
Defined.

(** *** The report over all LV stations *)

Section AllStations.

Variable hypot : Q -> Q -> Q.
Variable edisgo_obj : EDisGo.

Lemma station_overload_rows (grid : Grid) rows :
  _station_overload hypot edisgo_obj grid = inr rows ->
  rows = [] \/ exists m t, rows = [mkCritStation (station_name grid) m t grid].
Proof.
  unfold _station_overload.
  destruct (voltage_level_of grid); [discriminate|]. cbn [bind].
  destruct (_station_load hypot edisgo_obj grid); [discriminate|]. cbn [bind].
  destruct (_station_allowed_load edisgo_obj grid); [discriminate|]. cbn [bind].
  destruct (negb _).
  - destruct (iloc_col0 _); [discriminate|]. cbn [bind]. intros [= <-]. right. eauto.
  - intros [= <-]. now left.
Qed.

Local Abbreviation step :=
  (fun (acc : result (list CritStation)) lv_grid =>
     let* crit_stations := acc in
     let* crit := _station_overload hypot edisgo_obj lv_grid in
     ret (crit_stations ++ crit)).

Lemma station_loop_raised (grids : list Grid) e :
  fold_left step grids (inl e) = inl e.
Proof. induction grids as [|g grids IH]; [reflexivity|exact IH]. Qed.

Lemma station_loop_returns (grids : list Grid) (acc rows : list CritStation) :
  fold_left step grids (inr acc) = inr rows
  <-> exists reports,
        Forall2 (fun g report => _station_overload hypot edisgo_obj g = inr report)
                grids reports
        /\ rows = acc ++ List.concat reports.
Proof.
  revert acc. induction grids as [|g grids IH]; intros acc; cbn [fold_left].
  - split.
    + intros [= <-]. exists []. split; [constructor|now rewrite app_nil_r].
    + intros (reports & HF & ->). inversion HF; subst. cbn. now rewrite app_nil_r.
  - cbn [bind]. destruct (_station_overload hypot edisgo_obj g) as [e|report] eqn:E.
    + cbn [bind]. rewrite station_loop_raised. split; [discriminate|].
      intros (reports & HF & _). inversion HF; subst. congruence.
    + cbn [bind ret]. rewrite IH. split.
      * intros (reports & HF & ->). exists (report :: reports).
        split; [now constructor|]. cbn. now rewrite app_assoc.
      * intros (reports & HF & ->). inversion HF as [|? r ? reports' Hg HF']; subst.
        rewrite E in Hg. injection Hg as <-.
        exists reports'. split; [assumption|]. cbn. now rewrite app_assoc.
Qed.

Lemma grid_reports_rows (grids : list Grid) (reports : list (list CritStation)) :
  Forall2 (fun g report => _station_overload hypot edisgo_obj g = inr report)
          grids reports ->
  sublist (map station_grid (List.concat reports)) grids
  /\ forall r, In r (List.concat reports) ->
               crit_station r = station_name (station_grid r).
Proof.
  induction 1 as [|g report grids reports Hg HF [IHs IHn]]; cbn.
  - split; [constructor|intros r []].
  - destruct (station_overload_rows g report Hg) as [->|(m & t & ->)]; cbn.
    + split; [now apply sublist_cons|exact IHn].
    + split; [now apply sublist_skip|].
      intros r [<-|Hr]; [reflexivity|now apply IHn].
Qed.

(** X5: the check of all MV/LV stations returns exactly when the check of every
    LV grid returns, and its report is then the reports of the LV grids one
    after the other: at most one row per LV grid, in the order of the grids,
    each carrying the grid and the name of its station.  When the check of
    one LV grid raises, there is no report. *)
Theorem mv_lv_station_overload_joins_the_grid_reports :
  (forall rows,
      mv_lv_station_overload hypot edisgo_obj = inr rows
      <-> exists reports,
            Forall2 (fun g report => _station_overload hypot edisgo_obj g = inr report)
                    (lv_grids (topology edisgo_obj)) reports
            /\ rows = List.concat reports)
  /\ (forall rows,
        mv_lv_station_overload hypot edisgo_obj = inr rows ->
        sublist (map station_grid rows) (lv_grids (topology edisgo_obj))
        /\ forall r, In r rows -> crit_station r = station_name (station_grid r))
  /\ (forall g e,
        In g (lv_grids (topology edisgo_obj)) ->
        _station_overload hypot edisgo_obj g = inl e ->
        exists e', mv_lv_station_overload hypot edisgo_obj = inl e').
Proof.
  assert (Hiff : forall rows,
      mv_lv_station_overload hypot edisgo_obj = inr rows
      <-> exists reports,
            Forall2 (fun g report => _station_overload hypot edisgo_obj g = inr report)
                    (lv_grids (topology edisgo_obj)) reports
            /\ rows = List.concat reports).
  { intros rows. unfold mv_lv_station_overload, ret.
    rewrite (station_loop_returns _ [] rows). reflexivity. }
  split; [exact Hiff|]. split.
  - intros rows Hrows. apply Hiff in Hrows as (reports & HF & ->).
    now apply grid_reports_rows.
  - intros g e Hg He.
    destruct (mv_lv_station_overload hypot edisgo_obj) as [e'|rows] eqn:E; [eauto|].
    destruct (proj1 (Hiff rows) eq_refl) as (reports & HF & _). exfalso.
    apply list_elem_of_In, list_elem_of_lookup_1 in Hg as [i Hi].
    destruct (Forall2_lookup_l _ _ _ _ _ HF Hi) as (report & _ & Hrep).
    congruence.
Qed.

End AllStations.

Lemma mv_lv_station_overload_joins_the_grid_reports_witness :
  exists rows,
    mv_lv_station_overload examples.hypot_12 examples.two_case_network = inr rows
    /\ map crit_station rows = ["LVGrid_2_station"]
    /\ sublist (map station_grid rows) [examples.lv_grid_2].
Proof.
  destruct (mv_lv_station_overload_joins_the_grid_reports examples.hypot_12
              examples.two_case_network) as (_ & Hrows & _).
  eexists. split; [vm_compute; reflexivity|]. split; [reflexivity|].
  match goal with
  | |- sublist (map station_grid ?rows) _ => destruct (Hrows rows) as [Hs _]
  end.
  - vm_compute. reflexivity.
  - exact Hs.
Defined.

End station_report_facts.

(** ** Allowed and relative station loading *)

Module relative_load_facts.
Import pd align check_tech_constraints constraint_terms pd_facts station_facts.
Import relative_load_terms.

Lemma valid_grid_dec (grid : Grid) : {valid_grid grid} + {grid_class grid = Grid_}.
Proof.
  unfold valid_grid. destruct (grid_class grid); [left|left|right]; congruence.
Qed.

Lemma station_allowed_load_valid (edisgo_obj : EDisGo) (grid : Grid) :
  valid_grid grid ->
  _station_allowed_load edisgo_obj grid
  = inr (mkFrame (s_index (timesteps_load_feedin_case edisgo_obj)) [station_name grid]
                 (fun t _ => allowed_station_load edisgo_obj grid t)).
Proof.
  unfold valid_grid, _station_allowed_load, allowed_station_load, station_transformers,
    station_level.
  destruct (grid_class grid); [reflexivity|reflexivity|congruence].
Qed.

Lemma station_allowed_load_invalid (edisgo_obj : EDisGo) (grid : Grid) :
  grid_class grid = Grid_ -> _station_allowed_load edisgo_obj grid = inl InvalidGrid.
Proof. unfold _station_allowed_load. now intros ->. Qed.

Lemma station_load_known_frame hypot (edisgo_obj : EDisGo) (grid : Grid) :
  station_load_known hypot edisgo_obj grid = true ->
  _station_load hypot edisgo_obj grid
  = inr (mkFrame (station_load_index edisgo_obj grid) [station_name grid]
                 (fun t _ => station_load_at hypot edisgo_obj grid t)).
Proof.
  unfold station_load_known, _station_load, station_load_index, station_load_at.
  destruct (grid_class grid).
  - destruct (negb _); [discriminate|].
    unfold column. destruct (isin "p" _); [|discriminate].
    destruct (isin "q" _); [|discriminate]. reflexivity.
  - unfold loc_columns. destruct (List.filter _ _); [|discriminate]. reflexivity.
  - discriminate.
Qed.

Lemma isin_app {A} `{EqDecision A} (x : A) (l l' : list A) :
  isin x (l ++ l') = isin x l || isin x l'.
Proof.
  destruct (isin x l) eqn:E1, (isin x l') eqn:E2; cbn;
    rewrite ?isin_In, ?isin_not_In in *; rewrite in_app_iff; tauto.
Qed.

Lemma empty_without_columns {V} (df : DataFrame Timestamp string V) :
  columns df = [] -> empty df = true.
Proof. unfold empty. intros ->. now destruct (index df). Qed.

Lemma filter_true {A} (l : list A) : List.filter (fun _ => true) l = l.
Proof. induction l as [|a l IH]; cbn; [reflexivity|now rewrite IH]. Qed.

(** *** Loops that add one column per grid *)

Section ConcatLoop.

Variable union_unaligned : list Timestamp -> list Timestamp -> list Timestamp.

Local Abbreviation concat_index := (check_tech_constraints.concat_index union_unaligned).
Local Abbreviation concat_columns := (check_tech_constraints.concat_columns union_unaligned).

Lemma concat_index_same (a : list Timestamp) : concat_index a a = a.
Proof. unfold check_tech_constraints.concat_index. now destruct (decide (a = a)). Qed.

Lemma concat_index_from_empty (a b : list Timestamp) :
  a = [] \/ a = b -> concat_index a b = b.
Proof.
  unfold check_tech_constraints.concat_index. destruct (decide (a = b)) as [->|Hne]; [reflexivity|].
  intros [->|Heq]; [reflexivity|contradiction].
Qed.

(** The column a grid adds, if it adds one; the time steps of the columns;
    the body of the loop. *)
Variable column_of : Grid -> option (Timestamp -> Q).
Variable idx : list Timestamp.
Variable body : Grid -> DataFrame Timestamp string (option Q)
                -> result (DataFrame Timestamp string (option Q)).

Local Abbreviation adds := (relative_load_terms.adds column_of).

Lemma concat_loop (grids : list Grid) (acc : DataFrame Timestamp string (option Q)) :
  (forall g acc, In g grids ->
     body g acc
     = inr (match column_of g with
            | Some f =>
                concat_columns acc
                  (some_cells (mkFrame idx [station_name g] (fun t _ => f t)))
            | None => acc
            end)) ->
  index acc = [] \/ index acc = idx ->
  exists df,
    for_in grids body acc = inr df
    /\ columns df = columns acc ++ map station_name (List.filter adds grids)
    /\ (index acc = idx \/ List.filter adds grids <> [] -> index df = idx)
    /\ (forall t c, In t idx -> In c (columns acc) -> get df t c = get acc t c)
    /\ (List.NoDup (map station_name grids) ->
        forall g f t, In g grids -> column_of g = Some f ->
                      ~ In (station_name g) (columns acc) -> In t idx ->
                      get df t (station_name g) = Some (f t)).
Proof.
  revert acc. induction grids as [|g grids IH]; intros acc Hbody Hidx.
  - exists acc. split; [reflexivity|]. split; [cbn; now rewrite app_nil_r|].
    split; [intros [H|H]; [exact H|now contradiction H]|].
    split; [reflexivity|]. intros _ g f t [].
  - cbn [for_in]. rewrite (Hbody g acc (or_introl eq_refl)). cbn [bind].
    assert (Hbody' : forall g' acc', In g' grids ->
              body g' acc'
              = inr (match column_of g' with
                     | Some f =>
                         concat_columns acc'
                           (some_cells (mkFrame idx [station_name g'] (fun t _ => f t)))
                     | None => acc'
                     end))
      by (intros g' acc' Hg'; apply Hbody; now right).
    destruct (column_of g) as [f|] eqn:Ef.
    + assert (Hadds : adds g = true) by (unfold relative_load_terms.adds; now rewrite Ef).
      cbn [List.filter]. rewrite Hadds.
      set (a := some_cells (mkFrame idx [station_name g] (fun t _ => f t))).
      set (df1 := concat_columns acc a).
      assert (Hi1 : index df1 = idx) by (apply concat_index_from_empty; exact Hidx).
      assert (Hc1 : columns df1 = columns acc ++ [station_name g]) by reflexivity.
      assert (Hold : forall t c, In t idx -> In c (columns acc) ->
                                 get df1 t c = get acc t c).
      { intros t c Ht Hc. unfold get at 1. rewrite Hi1, Hc1, isin_app.
        rewrite (proj2 (isin_In t idx) Ht), (proj2 (isin_In c (columns acc)) Hc).
        cbn. now rewrite (proj2 (isin_In c (columns acc)) Hc). }
      assert (Hnew : forall t, In t idx -> ~ In (station_name g) (columns acc) ->
                               get df1 t (station_name g) = Some (f t)).
      { intros t Ht Hn. unfold get at 1. rewrite Hi1, Hc1, isin_app.
        rewrite (proj2 (isin_In t idx) Ht).
        rewrite (proj2 (isin_not_In _ _) Hn). cbn.
        rewrite (isin_self (station_name g)). cbn.
        rewrite (proj2 (isin_not_In _ _) Hn).
        unfold get. cbn. rewrite (proj2 (isin_In t idx) Ht), isin_self. reflexivity. }
      pose proof (IH df1 Hbody' (or_intror Hi1)) as (df & Hrun & Hcols & Hind & Hkeep & Hval).
      exists df. split; [exact Hrun|]. split.
      { rewrite Hcols, Hc1, <- app_assoc. reflexivity. }
      split; [intros _; apply Hind; now left|]. split.
      { intros t c Ht Hc. rewrite Hkeep; [now apply Hold|assumption|].
        rewrite Hc1, in_app_iff. now left. }
      intros Hnd g' f' t [<-|Hg'] Hf' Hn Ht.
      * rewrite Ef in Hf'. injection Hf' as <-.
        rewrite Hkeep; [now apply Hnew|assumption|].
        rewrite Hc1, in_app_iff. right. now left.
      * cbn in Hnd. apply List.NoDup_cons_iff in Hnd as [Hfresh Hnd'].
        apply Hval; try assumption.
        rewrite Hc1, in_app_iff. intros [Hin|[Heq|[]]]; [contradiction|].
        apply Hfresh. rewrite Heq. now apply in_map.
    + assert (Hadds : adds g = false) by (unfold relative_load_terms.adds; now rewrite Ef).
      cbn [List.filter]. rewrite Hadds.
      pose proof (IH acc Hbody' Hidx) as (df & Hrun & Hcols & Hind & Hkeep & Hval).
      exists df. split; [exact Hrun|]. split; [exact Hcols|].
      split; [exact Hind|]. split; [exact Hkeep|].
      intros Hnd g' f' t [<-|Hg'] Hf' Hn Ht; [congruence|].
      cbn in Hnd. apply List.NoDup_cons_iff in Hnd as [_ Hnd']. now apply Hval.
Qed.

End ConcatLoop.

Section Tables.

Variable hypot : Q -> Q -> Q.
Variable union_unaligned : list Timestamp -> list Timestamp -> list Timestamp.
Variable edisgo_obj : EDisGo.

Local Abbreviation cases := (timesteps_load_feedin_case edisgo_obj).
Local Abbreviation idx := (s_index (timesteps_load_feedin_case edisgo_obj)).
Local Abbreviation concat_columns := (check_tech_constraints.concat_columns union_unaligned).
Local Abbreviation known := (station_load_known hypot edisgo_obj).

(** *** The table of allowed station loads *)

Local Abbreviation allowed_step :=
  (fun grid allowed_loading =>
     let* allowed := _station_allowed_load edisgo_obj grid in
     ret (concat_columns allowed_loading (some_cells allowed))).

Lemma allowed_loop_invalid (grids : list Grid) acc :
  ~ Forall valid_grid grids -> for_in grids allowed_step acc = inl InvalidGrid.
Proof.
  revert acc. induction grids as [|g grids IH]; intros acc Hn.
  - exfalso. apply Hn. constructor.
  - cbn [for_in]. destruct (valid_grid_dec g) as [Hg|Hg].
    + rewrite (station_allowed_load_valid _ _ Hg). cbn [bind]. apply IH.
      intros HF. apply Hn. now constructor.
    + now rewrite (station_allowed_load_invalid _ _ Hg).
Qed.

Lemma allowed_loop (grids : list Grid) :
  Forall valid_grid grids ->
  exists df,
    for_in grids allowed_step no_frame = inr df
    /\ columns df = map station_name grids
    /\ (grids <> [] -> index df = idx)
    /\ (List.NoDup (map station_name grids) ->
        forall g t, In g grids -> In t idx ->
                    get df t (station_name g)
                    = Some (allowed_station_load edisgo_obj g t)).
Proof.
  intros HF.
  destruct (concat_loop union_unaligned
              (fun g => Some (allowed_station_load edisgo_obj g)) idx allowed_step
              grids no_frame)
    as (df & Hrun & Hcols & Hind & _ & Hval).
  - intros g acc Hg. rewrite List.Forall_forall in HF.
    now rewrite (station_allowed_load_valid _ _ (HF g Hg)).
  - now left.
  - assert (Hall : List.filter (relative_load_terms.adds (fun g => Some (allowed_station_load edisgo_obj g)))
                     grids = grids) by apply filter_true.
    rewrite Hall in Hcols, Hind.
    exists df. split; [exact Hrun|]. split; [exact Hcols|].
    split; [intros Hne; apply Hind; now right|].
    intros Hnd g t Hg Ht. apply (Hval Hnd g _ t Hg eq_refl); [intros []|exact Ht].
Qed.

(** X6: the table of allowed station loads has one column per grid, named after
    the grid's station and in the order of the grids, over the time steps of
    the case classification; the allowed load of a station is the sum of
    the ratings of its transformers times the transformer load factor of the
    time step's case.  A grid that is neither an MV nor an LV grid makes the
    call raise. *)
Theorem stations_allowed_load_table (grids : option (list Grid)) :
  let gs := grids_or_all edisgo_obj grids in
  (Forall valid_grid gs ->
   exists df,
     stations_allowed_load union_unaligned edisgo_obj grids = inr df
     /\ columns df = map station_name gs
     /\ (gs <> [] -> index df = idx)
     /\ (List.NoDup (map station_name gs) ->
         forall g t, In g gs -> In t idx ->
                     cell df t (station_name g)
                     = Some (allowed_station_load edisgo_obj g t)))
  /\ (~ Forall valid_grid gs ->
      stations_allowed_load union_unaligned edisgo_obj grids = inl InvalidGrid).
Proof.
  intros gs. split.
  - intros HF. destruct (allowed_loop gs HF) as (df & Hrun & Hcols & Hind & Hval).
    exists df. split; [exact Hrun|]. split; [exact Hcols|]. split; [exact Hind|].
    intros Hnd g t Hg Ht.
    specialize (Hval Hnd g t Hg Ht).
    unfold get in Hval. rewrite Hind in Hval by (now destruct gs).
    rewrite (proj2 (isin_In t idx) Ht) in Hval.
    rewrite (proj2 (isin_In (station_name g) (columns df))) in Hval; [exact Hval|].
    rewrite Hcols. now apply in_map.
  - intros Hn. now apply allowed_loop_invalid.
Qed.

(** *** The table of relative station loads *)

Local Abbreviation loading_step :=
  (fun grid (loading : DataFrame Timestamp string (option Q)) =>
     match _station_load hypot edisgo_obj grid with
     | inr load => ret (concat_columns loading (some_cells load))
     | inl _ => ret loading
     end).

Lemma loading_loop (grids : list Grid) (times : list Timestamp) :
  (forall g, In g grids -> known g = true -> station_load_index edisgo_obj g = times) ->
  exists loading,
    for_in grids loading_step no_frame = inr loading
    /\ columns loading = map station_name (List.filter known grids)
    /\ (List.filter known grids <> [] -> index loading = times)
    /\ (List.NoDup (map station_name grids) ->
        forall g t, In g grids -> known g = true -> In t times ->
                    get loading t (station_name g)
                    = Some (station_load_at hypot edisgo_obj g t)).
Proof.
  intros Htimes.
  set (column_of := fun g => if known g
                             then Some (station_load_at hypot edisgo_obj g) else None).
  destruct (concat_loop union_unaligned column_of times loading_step grids no_frame)
    as (df & Hrun & Hcols & Hind & _ & Hval).
  - intros g acc Hg. unfold column_of. cbv beta.
    destruct (known g) eqn:Ek.
    + rewrite (station_load_known_frame _ _ _ Ek), (Htimes g Hg Ek). reflexivity.
    + unfold station_load_known in Ek.
      now destruct (_station_load hypot edisgo_obj g).
  - now left.
  - assert (Hf : List.filter (relative_load_terms.adds column_of) grids = List.filter known grids).
    { apply filter_ext. intros g. unfold relative_load_terms.adds, column_of. now destruct (known g). }
    rewrite Hf in Hcols, Hind.
    exists df. split; [exact Hrun|]. split; [exact Hcols|].
    split; [intros Hne; apply Hind; now right|].
    intros Hnd g t Hg Hk Ht.
    apply (Hval Hnd g _ t Hg); [unfold column_of; now rewrite Hk|intros []|exact Ht].
Qed.

Lemma loading_loop_columns (grids : list Grid) :
  exists loading,
    for_in grids loading_step no_frame = inr loading
    /\ columns loading = map station_name (List.filter known grids).
Proof.
  induction grids as [|g grids IH] using rev_ind.
  - exists no_frame. split; reflexivity.
  - destruct IH as (loading & Hrun & Hcols).
    assert (Happ : forall l acc,
               for_in (l ++ [g]) loading_step acc
               = let* s := for_in l loading_step acc in loading_step g s).
    { induction l as [|x l IHl]; intros acc; cbn [for_in app].
      - cbn [bind ret]. now destruct (_station_load hypot edisgo_obj g).
      - destruct (_station_load hypot edisgo_obj x); cbn [bind ret]; apply IHl. }
    rewrite Happ, Hrun. cbn [bind]. rewrite List.filter_app, List.map_app. cbn [List.filter].
    unfold station_load_known at 2.
    destruct (_station_load hypot edisgo_obj g) as [e|load] eqn:E; cbn [ret].
    + exists loading. split; [reflexivity|]. cbn. now rewrite app_nil_r.
    + eexists. split; [reflexivity|]. cbn [columns check_tech_constraints.concat_columns some_cells].
      rewrite Hcols, (station_load_columns hypot edisgo_obj g load E). reflexivity.
Qed.

Lemma stations_relative_load_returns (gs : list Grid) :
  Forall valid_grid gs ->
  exists allowed loading,
    for_in gs allowed_step no_frame = inr allowed
    /\ for_in gs loading_step no_frame = inr loading
    /\ columns loading = map station_name (List.filter known gs)
    /\ stations_relative_load hypot union_unaligned edisgo_obj (Some gs)
       = inr (binop np.div loading
                (mkFrame (index allowed) (columns loading) (cell allowed))).
Proof.
  intros HF. unfold stations_relative_load, stations_allowed_load. cbn [grids_or_all].
  destruct (allowed_loop gs HF) as (allowed & Hrun & Hcols & _).
  destruct (loading_loop_columns gs) as (loading & Hl & Hlc).
  exists allowed, loading. split; [exact Hrun|]. split; [exact Hl|]. split; [exact Hlc|].
  rewrite Hrun. cbn [bind]. rewrite Hl. cbn [bind].
  rewrite loc_columns_ok; [reflexivity|].
  intros c Hc. rewrite Hlc in Hc. rewrite Hcols.
  apply in_map_iff in Hc as (g & <- & Hg). apply filter_In in Hg as [Hg _].
  now apply in_map.
Qed.

Lemma stations_relative_load_default (grids : option (list Grid)) :
  stations_relative_load hypot union_unaligned edisgo_obj grids
  = stations_relative_load hypot union_unaligned edisgo_obj
      (Some (grids_or_all edisgo_obj grids)).
Proof. reflexivity. Qed.

(** X7: the relative load of the stations is the loading of each station over
    its allowed loading.  For MV and LV grids with distinct station names
    the table has one column for every grid whose station loading can be
    read from the results, in the order of the grids; the other grids are
    left out without a word.  At a time step of the loads and of the case
    classification, the cell of a station is its loading divided by its
    allowed loading (when that is not zero).  A grid that is neither an MV
    nor an LV grid makes the call raise, although the loop over the grids
    swallows every exception. *)
Theorem stations_relative_load_divides_load_by_allowed (grids : option (list Grid)) :
  let gs := grids_or_all edisgo_obj grids in
  (Forall valid_grid gs ->
   List.NoDup (map station_name gs) ->
   exists df,
     stations_relative_load hypot union_unaligned edisgo_obj grids = inr df
     /\ columns df = map station_name (List.filter known gs)
     /\ forall times,
          (forall g, In g gs -> known g = true ->
                     station_load_index edisgo_obj g = times) ->
          forall g t,
            In g gs -> known g = true -> In t times -> In t idx ->
            ~ allowed_station_load edisgo_obj g t == 0 ->
            cell df t (station_name g)
            = Some (station_load_at hypot edisgo_obj g t
                    / allowed_station_load edisgo_obj g t))
  /\ (~ Forall valid_grid gs ->
      stations_relative_load hypot union_unaligned edisgo_obj grids = inl InvalidGrid).
Proof.
  intros gs. rewrite stations_relative_load_default. fold gs. split.
  - intros HF Hnd.
    destruct (stations_relative_load_returns gs HF)
      as (allowed & loading & Ha & Hl & Hlc & ->).
    eexists. split; [reflexivity|]. split.
    { cbn [columns binop]. rewrite align_columns_same. exact Hlc. }
    intros times Htimes g t Hg Hk Ht Hti _.
    destruct (allowed_loop gs HF) as (allowed' & Ha' & Hac & Hai & Hav).
    rewrite Ha in Ha'. injection Ha' as <-.
    destruct (loading_loop gs times Htimes) as (loading' & Hl' & _ & Hli & Hlv).
    rewrite Hl in Hl'. injection Hl' as <-.
    assert (Hne : gs <> []) by (intros E; rewrite E in Hg; destruct Hg).
    assert (Hin : In (station_name g) (columns loading)).
    { rewrite Hlc. apply in_map. apply filter_In. auto. }
    cbn [cell binop]. rewrite (Hlv Hnd g t Hg Hk Ht).
    unfold get. cbn [index columns cell].
    rewrite (Hai Hne), (proj2 (isin_In t idx) Hti),
      (proj2 (isin_In _ _) Hin). cbn [andb].
    specialize (Hav Hnd g t Hg Hti). unfold get in Hav.
    rewrite (Hai Hne), (proj2 (isin_In t idx) Hti) in Hav.
    rewrite (proj2 (isin_In (station_name g) (columns allowed))) in Hav
      by (rewrite Hac; now apply in_map).
    cbn [andb] in Hav. rewrite Hav. reflexivity.
  - intros Hn. unfold stations_relative_load, stations_allowed_load. cbn [grids_or_all].
    now rewrite (allowed_loop_invalid gs no_frame Hn).
Qed.

(** *** Relative loads before any power flow *)

Lemma station_load_unknown_without_results (grid : Grid) :
  never_run (results edisgo_obj) ->
  (grid_class grid = LVGrid -> transformers_df grid <> []) ->
  station_load_known hypot edisgo_obj grid = false.
Proof.
  intros (_ & Hic & _ & Hsc & _) Hlv. unfold station_load_known, _station_load.
  destruct (grid_class grid).
  - rewrite Hic, without_results.existsb_isin_nil. reflexivity.
  - destruct (transformers_df grid) as [|t l] eqn:Et; [now exfalso; apply Hlv|].
    unfold loc_columns. rewrite Hsc. reflexivity.
  - reflexivity.
Qed.

Lemma lines_relative_load_without_results :
  never_run (results edisgo_obj) ->
  exists df, lines_relative_load edisgo_obj None = inr df /\ columns df = [].
Proof.
  intros (Hii & Hic & _ & Hsc & _).
  unfold lines_relative_load, lines_allowed_load, _lines_allowed_load_voltage_level.
  rewrite Hic, Hii. cbn. eexists. split; [reflexivity|].
  cbn. apply align_columns_same.
Qed.

(** X8: before any power flow was run, the table of relative component loads is
    returned all the same, without any column: unlike the overload checks,
    the call does not say that results are missing. *)
Theorem components_relative_load_without_results :
  let gs := grids_or_all edisgo_obj None in
  never_run (results edisgo_obj) ->
  Forall valid_grid gs ->
  (forall g, In g gs -> grid_class g = LVGrid -> transformers_df g <> []) ->
  exists df,
    components_relative_load hypot union_unaligned edisgo_obj = inr df
    /\ columns df = [] /\ empty df = true.
Proof.
  intros gs Hnever HF Htr. unfold components_relative_load.
  rewrite stations_relative_load_default. fold gs.
  destruct (stations_relative_load_returns gs HF) as (allowed & loading & _ & _ & Hlc & ->).
  cbn [bind].
  destruct (lines_relative_load_without_results Hnever) as (lines & -> & Hlines).
  cbn [bind].
  assert (Hnone : List.filter known gs = []).
  { apply filter_nil_iff. intros g Hg.
    apply station_load_unknown_without_results; [assumption|]. now apply Htr. }
  rewrite Hnone in Hlc.
  eexists. split; [reflexivity|].
  match goal with
  | |- columns ?df = [] /\ _ => assert (Hc : columns df = [])
  end.
  { cbn [columns check_tech_constraints.concat_columns binop]. rewrite Hlines, Hlc.
    now rewrite align_columns_same. }
  split; [exact Hc|]. now apply empty_without_columns.
Qed.

End Tables.

Lemma stations_allowed_load_table_witness :
  exists df,
    stations_allowed_load report_examples.union_in_order examples.two_case_network None
    = inr df
    /\ columns df = ["LVGrid_2_station"; "MVGrid_1_station"]
    /\ cell df 2%Z "LVGrid_2_station" = Some (1 * (1 # 2)).
Proof.
  destruct (stations_allowed_load_table report_examples.union_in_order
              examples.two_case_network None) as [Hok _].
  destruct Hok as (df & Hrun & Hcols & _ & Hval).
  - repeat constructor; discriminate.
  - exists df. split; [exact Hrun|]. split; [exact Hcols|].
    apply (Hval ltac:(apply NoDup_ListNoDup, (bool_decide_unpack _); vm_compute; exact I)
                examples.lv_grid_2 2%Z); cbn; auto.
Defined.

Lemma stations_relative_load_divides_load_by_allowed_witness :
  exists df q,
    stations_relative_load examples.hypot_12 report_examples.union_in_order
      examples.two_case_network None = inr df
    /\ columns df = ["LVGrid_2_station"]
    /\ cell df 2%Z "LVGrid_2_station" = Some q /\ q == 116 # 100.
Proof.
  destruct (stations_relative_load_divides_load_by_allowed examples.hypot_12
              report_examples.union_in_order examples.two_case_network None) as [Hok _].
  destruct Hok as (df & Hrun & Hcols & Hval).
  - repeat constructor; discriminate.
  - apply NoDup_ListNoDup, (bool_decide_unpack _). vm_compute. exact I.
  - exists df. eexists. split; [exact Hrun|]. split; [exact Hcols|]. split.
    + apply (Hval [1; 2]%Z) with (g := examples.lv_grid_2) (t := 2%Z).
      * intros g [<-|[<-|[]]]; [reflexivity|discriminate].
      * now left.
      * reflexivity.
      * cbn. auto.
      * cbn. auto.
      * vm_compute. discriminate.
    + reflexivity.
Defined.

Lemma components_relative_load_without_results_witness :
  exists df,
    components_relative_load examples.hypot_12 report_examples.union_in_order
      examples.before_power_flow = inr df
    /\ empty df = true.
Proof.
  destruct (components_relative_load_without_results examples.hypot_12
              report_examples.union_in_order examples.before_power_flow)
    as (df & Hrun & _ & He).
  - repeat split.
  - repeat constructor; discriminate.
  - intros g [<-|[<-|[]]]; discriminate.
  - exists df. split; [exact Hrun|exact He].
Defined.

End relative_load_facts.

(** ** Voltage limits and the reports per grid *)

Module grid_report_facts.
Import pd align check_tech_constraints constraint_terms pd_facts voltage_facts voltage_report.
Import voltage_limit_terms.

Lemma mv_limits_return (edisgo_obj : EDisGo) (voltage_levels : string) :
  voltage_levels = "mv_lv" \/ voltage_levels = "mv" ->
  _mv_allowed_voltage_limits edisgo_obj voltage_levels
  = inr (apply (timesteps_load_feedin_case edisgo_obj)
               (mv_upper_limit edisgo_obj voltage_levels),
         apply (timesteps_load_feedin_case edisgo_obj)
               (mv_lower_limit edisgo_obj voltage_levels)).
Proof. intros [-> | ->]; reflexivity. Qed.

Lemma mv_limits_refuse (edisgo_obj : EDisGo) (voltage_levels : string) :
  voltage_levels <> "mv_lv" -> voltage_levels <> "mv" ->
  _mv_allowed_voltage_limits edisgo_obj voltage_levels
  = inl (ValueError ("Specified mode " ++ voltage_levels ++ " is not a valid option.")).
Proof.
  intros H1 H2. unfold _mv_allowed_voltage_limits.
  apply String.eqb_neq in H1, H2. now rewrite H1, H2.
Qed.

(** *** Which buses the report of a grid holds *)

Section Reported.

Variable edisgo_obj : EDisGo.
Variable buses : list string.
Variables upper lower : Series Timestamp Q.

Local Abbreviation ov := (voltage_diff_ov edisgo_obj buses upper lower).
Local Abbreviation uv := (voltage_diff_uv edisgo_obj buses upper lower).
Local Abbreviation unsorted_rows :=
  (constraint_terms.unsorted_rows edisgo_obj buses upper lower).

Lemma in_report_tables b :
  In b (index ov) \/ In b (index uv)
  <-> In b buses /\ (overvoltage_at edisgo_obj upper b \/ undervoltage_at edisgo_obj lower b).
Proof.
  rewrite in_voltage_diff_ov, in_voltage_diff_uv, in_both, in_overvoltage, in_undervoltage.
  split.
  - tauto.
  - intros [Hb Hv].
    destruct (isin b (index (overvoltage edisgo_obj buses upper))) eqn:Eo,
             (isin b (index (undervoltage edisgo_obj buses lower))) eqn:Eu;
      rewrite ?isin_In, ?isin_not_In, ?in_overvoltage, ?in_undervoltage in *.
    + destruct (over_wins edisgo_obj buses upper lower b); tauto.
    + tauto.
    + tauto.
    + tauto.
Qed.

Lemma in_unsorted_rows r :
  In r unsorted_rows -> In (crit_bus r) (index ov) \/ In (crit_bus r) (index uv).
Proof.
  unfold constraint_terms.unsorted_rows, _append_crit_buses.
  rewrite in_app_iff, !in_map_iff.
  intros [(b & <- & Hb)|(b & <- & Hb)]; cbn; auto.
Qed.

Lemma unsorted_rows_nil_iff :
  unsorted_rows = []
  <-> forall b, In b buses ->
        ~ overvoltage_at edisgo_obj upper b /\ ~ undervoltage_at edisgo_obj lower b.
Proof.
  split.
  - intros Hnil b Hb.
    assert (Hno : ~ (In b (index ov) \/ In b (index uv))).
    { unfold constraint_terms.unsorted_rows, _append_crit_buses in Hnil.
      apply app_eq_nil in Hnil as [H1 H2]. apply map_eq_nil in H1, H2.
      rewrite H1, H2. intros [[]|[]]. }
    rewrite in_report_tables in Hno. tauto.
  - intros Hok. destruct unsorted_rows as [|r rows] eqn:E; [reflexivity|exfalso].
    assert (Hr : In r unsorted_rows) by (rewrite E; now left).
    apply in_unsorted_rows, in_report_tables in Hr as [Hb Hv].
    specialize (Hok _ Hb). tauto.
Qed.

End Reported.

(** *** The report of the MV grid *)

Section MVReport.

Variable sort_values : list CritBus -> list CritBus.
Variable repr : Grid -> string.
Variable edisgo_obj : EDisGo.
Variable voltage_levels : string.

Local Abbreviation v := (v_res (results edisgo_obj)).
Local Abbreviation cases := (timesteps_load_feedin_case edisgo_obj).
Local Abbreviation buses := (buses_df (mv_grid (topology edisgo_obj))).
Local Abbreviation upper := (apply cases (mv_upper_limit edisgo_obj voltage_levels)).
Local Abbreviation lower := (apply cases (mv_lower_limit edisgo_obj voltage_levels)).

Hypothesis sort_values_descending : sorts_descending sort_values.
Hypothesis levels : voltage_levels = "mv_lv" \/ voltage_levels = "mv".
Hypothesis buses_in_results : forall b, In b buses -> In b (columns v).
Hypothesis cases_cover : forall t, In t (index v) -> In t (s_index cases).

(** X9: the voltage check of the MV grid returns a dictionary that is empty
    exactly when every bus of the MV grid stays within the limits of its
    time steps' cases; otherwise its one entry, under the name of the MV
    grid, is a report that is not empty: the violating buses of the MV grid,
    largest deviation first. *)
Theorem mv_voltage_deviation_reports_violations :
  exists report,
    mv_voltage_deviation sort_values repr edisgo_obj voltage_levels = inr report
    /\ (report = ∅ <->
        forall b, In b buses ->
          ~ overvoltage_at edisgo_obj upper b /\ ~ undervoltage_at edisgo_obj lower b)
    /\ (forall k rows,
          report !! k = Some rows ->
          k = repr (mv_grid (topology edisgo_obj))
          /\ rows <> []
          /\ report = {[ k := rows ]}
          /\ descending rows
          /\ forall r, In r rows ->
               In (crit_bus r) buses
               /\ (overvoltage_at edisgo_obj upper (crit_bus r)
                   \/ undervoltage_at edisgo_obj lower (crit_bus r))).
Proof.
  unfold mv_voltage_deviation. rewrite (mv_limits_return _ _ levels). cbn [bind].
  rewrite (_voltage_deviation_returns sort_values edisgo_obj buses upper lower
             buses_in_results cases_cover cases_cover).
  cbn [bind].
  pose proof (unsorted_rows_nil_iff edisgo_obj buses upper lower) as Hnil.
  pose proof (in_unsorted_rows edisgo_obj buses upper lower) as Hrows.
  destruct (unsorted_rows edisgo_obj buses upper lower) as [|r0 rows0] eqn:E.
  - exists ∅. split; [reflexivity|]. split.
    + split; [intros _; now apply Hnil|reflexivity].
    + intros k rows Hk. rewrite lookup_empty in Hk. discriminate.
  - destruct (sort_values_descending (r0 :: rows0)) as [Hperm Hdesc].
    destruct (sort_values (r0 :: rows0)) as [|r1 rows1] eqn:Es.
    { apply Permutation_sym, Permutation_nil in Hperm. discriminate. }
    eexists. split; [reflexivity|]. split.
    + split.
      * intros Hempty. exfalso.
        apply (f_equal (fun m => m !! repr (mv_grid (topology edisgo_obj)))) in Hempty.
        rewrite lookup_insert_eq, lookup_empty in Hempty. discriminate.
      * intros Hok. apply Hnil in Hok. discriminate.
    + intros k rows Hk.
      destruct (decide (k = repr (mv_grid (topology edisgo_obj)))) as [->|Hne].
      * rewrite lookup_insert_eq in Hk. injection Hk as <-.
        split; [reflexivity|]. split; [discriminate|].
        split; [reflexivity|]. split; [exact Hdesc|].
        intros r Hr. apply (Permutation_in _ (Permutation_sym Hperm)) in Hr.
        apply Hrows in Hr. now apply in_report_tables in Hr.
      * rewrite lookup_insert_ne, lookup_empty in Hk by congruence. discriminate.
Qed.

End MVReport.

Lemma mv_voltage_deviation_reports_violations_witness :
  exists report rows,
    mv_voltage_deviation examples.merge_sort_values report_examples.grid_name
      report_examples.banded_network "mv_lv" = inr report
    /\ report !! "MVGrid_1" = Some rows
    /\ report = {[ "MVGrid_1" := rows ]}
    /\ descending rows.
Proof.
  destruct (mv_voltage_deviation_reports_violations examples.merge_sort_values
              report_examples.grid_name report_examples.banded_network "mv_lv"
              merge_sort_descending)
    as (report & Hrun & _ & Hrows).
  - now left.
  - intros b [<-|[<-|[]]]; cbn; auto.
  - intros t Ht. exact Ht.
  - assert (Hk : is_Some (report !! "MVGrid_1")).
    { revert Hrun. vm_compute. intros [= <-]. eexists. reflexivity. }
    destruct Hk as [rows Hk].
    destruct (Hrows _ _ Hk) as (_ & _ & Hone & Hdesc & _).
    exists report, rows. auto.
Defined.

(** A value of [voltage_levels] other than 'mv_lv' and 'mv' is refused before
    any result is read. *)
Lemma mv_voltage_deviation_refuses sort_values repr edisgo_obj voltage_levels :
  voltage_levels <> "mv_lv" -> voltage_levels <> "mv" ->
  mv_voltage_deviation sort_values repr edisgo_obj voltage_levels
  = inl (ValueError ("Specified mode " ++ voltage_levels ++ " is not a valid option.")).
Proof.
  intros H1 H2. unfold mv_voltage_deviation. now rewrite (mv_limits_refuse _ _ H1 H2).
Qed.

(** *** The arguments of the LV check *)

Section LVArguments.

Variable sort_values : list CritBus -> list CritBus.
Variable str : Grid -> string.

(** X10: the voltage check of the LV grids refuses a value of [voltage_levels]
    other than 'mv_lv' and 'lv' at once.  A mode other than 'stations', [None]
    and the empty string is refused in the loop over the LV grids: with at
    least one LV grid the check raises, with none it returns the empty
    dictionary, whatever the mode. *)
Theorem lv_voltage_deviation_checks_its_arguments :
  (forall edisgo_obj mode voltage_levels,
      voltage_levels <> "mv_lv" -> voltage_levels <> "lv" ->
      lv_voltage_deviation sort_values str edisgo_obj mode voltage_levels
      = inl (ValueError (voltage_levels ++
          " is not a valid option for input variable 'voltage_levels' in function lv_voltage_deviation. Try 'mv_lv' or 'lv'.")))
  /\ (forall edisgo_obj mode voltage_levels,
        voltage_levels = "mv_lv" \/ voltage_levels = "lv" ->
        mode <> "" -> mode <> "stations" ->
        lv_grids (topology edisgo_obj) <> [] ->
        lv_voltage_deviation sort_values str edisgo_obj (Some mode) voltage_levels
        = inl (ValueError (mode ++
            " is not a valid option for input variable 'mode' in function lv_voltage_deviation. Try 'stations' or None.")))
  /\ (forall edisgo_obj mode voltage_levels,
        voltage_levels = "mv_lv" \/ voltage_levels = "lv" ->
        lv_grids (topology edisgo_obj) = [] ->
        lv_voltage_deviation sort_values str edisgo_obj mode voltage_levels = inr ∅).
Proof.
  split; [|split].
  - intros obj mode vl H1 H2. unfold lv_voltage_deviation.
    apply String.eqb_neq in H1. rewrite H1.
    assert (H3 : String.eqb "lv" vl = false) by (apply String.eqb_neq; congruence).
    now rewrite H3.
  - intros obj mode vl Hvl Hm1 Hm2 Hgrids. unfold lv_voltage_deviation.
    apply String.eqb_neq in Hm1, Hm2.
    destruct (lv_grids (topology obj)) as [|g grids]; [contradiction|].
    destruct Hvl as [-> | ->]; cbn [String.eqb Ascii.eqb Bool.eqb negb bind ret for_in];
      unfold truthy, is_stations; rewrite Hm1, Hm2; reflexivity.
  - intros obj mode vl Hvl Hgrids. unfold lv_voltage_deviation. rewrite Hgrids.
    destruct Hvl as [-> | ->]; reflexivity.
Qed.

End LVArguments.

Lemma lv_voltage_deviation_checks_its_arguments_witness :
  lv_voltage_deviation examples.merge_sort_values station_name
    examples.two_case_network (Some "buses") "lv"
  = inl (ValueError
      "buses is not a valid option for input variable 'mode' in function lv_voltage_deviation. Try 'stations' or None.")
  /\ lv_voltage_deviation examples.merge_sort_values station_name
       examples.ring_network (Some "buses") "lv" = inr ∅.
Proof.
  destruct (lv_voltage_deviation_checks_its_arguments examples.merge_sort_values
              station_name) as (_ & Hmode & Hnone).
  split.
  - apply Hmode; [now right|discriminate|discriminate|discriminate].
  - apply Hnone; [now right|reflexivity].
Defined.

(** *** The voltage limits of an LV grid *)

Lemma for_in_appends {A B C} (body : A -> list B * list C -> result (list B * list C))
    (g : A -> B) (h : A -> C) (l : list A) (us : list B) (ls : list C) :
  (forall a us ls, In a l -> body a (us, ls) = inr (us ++ [g a], ls ++ [h a])) ->
  for_in l body (us, ls) = inr (us ++ map g l, ls ++ map h l).
Proof.
  revert us ls. induction l as [|a l IH]; intros us ls H; cbn [for_in map].
  - now rewrite !app_nil_r.
  - rewrite (H a us ls (or_introl eq_refl)). cbn [bind].
    rewrite IH by (intros x us' ls' Hx; apply H; now right).
    now rewrite <- !app_assoc.
Qed.

Lemma series_of_values_val (f : Timestamp -> Q) (idx : list Timestamp) t :
  In t idx -> s_val (series_of_values (map f idx) idx) t = f t.
Proof.
  unfold series_of_values. cbn [s_val].
  induction idx as [|x idx IH]; [intros []|]. intros Hin. cbn [map combine List.find fst].
  destruct (decide (x = t)) as [->|Hne].
  - now rewrite bool_decide_eq_true_2.
  - rewrite bool_decide_eq_false_2 by assumption.
    destruct Hin as [Heq|Hin]; [contradiction|]. now apply IH.
Qed.

Section LVLimits.

Variable edisgo_obj : EDisGo.
Variable lv_grid : Grid.
Variable mode : option string.

Local Abbreviation v := (v_res (results edisgo_obj)).
Local Abbreviation cases := (timesteps_load_feedin_case edisgo_obj).

Lemma lv_reference (ref : string) :
  reference_bus lv_grid mode = Some ref ->
  In ref (columns v) ->
  (if is_stations mode then
     let* bus_station_primary :=
       match transformers_df lv_grid with
       | t :: _ => ret (trafo_bus0 t)
       | [] => raise (IndexError "single positional indexer is out-of-bounds")
       end in
     let* voltage_base := loc_column v bus_station_primary in
     ret (voltage_base, "mv_lv_station")
   else
     let* bus_station_secondary :=
       match station lv_grid with
       | b :: _ => ret b
       | [] => raise (IndexError "index 0 is out of bounds for axis 0 with size 0")
       end in
     let* voltage_base := loc_column v bus_station_secondary in
     ret (voltage_base, "lv"))
  = inr (mkSeries (index v) (fun t => cell v t ref), config_string mode).
Proof.
  unfold reference_bus, config_string. intros Href Hin.
  apply isin_In in Hin.
  destruct (is_stations mode).
  - destruct (transformers_df lv_grid) as [|t l]; [discriminate|].
    injection Href as <-. cbn [bind ret]. unfold loc_column. now rewrite Hin.
  - destruct (station lv_grid) as [|b l]; [discriminate|].
    injection Href as <-. cbn [bind ret]. unfold loc_column. now rewrite Hin.
Qed.

(** X11: the voltage limits of an LV grid are returned when the grid has its
    reference bus, the results hold the voltage of that bus, and every time
    step of the results has its case.  They cover the time steps of the
    results.  At a time step of the feed-in case the upper limit is the
    voltage of the reference bus plus the allowed deviation and the lower
    limit the configured one; at a time step of the load case the upper
    limit is the configured one and the lower limit the voltage of the
    reference bus minus the allowed deviation.  Without a reference bus the
    call raises an [IndexError], without its voltage a [KeyError]. *)
Theorem lv_allowed_voltage_limits_follow_the_reference_bus :
  (forall ref,
      reference_bus lv_grid mode = Some ref ->
      In ref (columns v) ->
      (forall t, In t (index v) -> In t (s_index cases)) ->
      exists upper lower,
        _lv_allowed_voltage_limits edisgo_obj lv_grid mode = inr (upper, lower)
        /\ s_index upper = index v /\ s_index lower = index v
        /\ forall t, In t (index v) ->
             s_val upper t = lv_upper_limit edisgo_obj mode ref t
             /\ s_val lower t = lv_lower_limit edisgo_obj mode ref t)
  /\ (reference_bus lv_grid mode = None ->
      exists msg, _lv_allowed_voltage_limits edisgo_obj lv_grid mode = inl (IndexError msg))
  /\ (forall ref,
        reference_bus lv_grid mode = Some ref -> ~ In ref (columns v) ->
        _lv_allowed_voltage_limits edisgo_obj lv_grid mode = inl (KeyError ref)).
Proof.
  split; [|split].
  - intros ref Href Hin Hcover. unfold _lv_allowed_voltage_limits.
    rewrite (lv_reference ref Href Hin). cbn [bind s_index].
    erewrite (for_in_appends _ (lv_upper_limit edisgo_obj mode ref)
                (lv_lower_limit edisgo_obj mode ref)).
    + cbn [bind ret app]. eexists. eexists. split; [reflexivity|].
      split; [reflexivity|]. split; [reflexivity|].
      intros t Ht. split.
      * exact (series_of_values_val (lv_upper_limit edisgo_obj mode ref) _ t Ht).
      * exact (series_of_values_val (lv_lower_limit edisgo_obj mode ref) _ t Ht).
    + intros t us ls Ht. unfold loc_label at 1.
      rewrite (proj2 (isin_In t (s_index cases)) (Hcover t Ht)). cbn [bind].
      unfold lv_upper_limit, lv_lower_limit.
      pose proof (proj2 (isin_In t (index v)) Ht) as Hi.
      destruct (s_val cases t); unfold loc_label;
        cbn [bind ret s_index s_val String.eqb Ascii.eqb Bool.eqb];
        rewrite Hi; cbn [bind ret]; reflexivity.
  - unfold reference_bus, _lv_allowed_voltage_limits. intros Href.
    destruct (is_stations mode).
    + destruct (transformers_df lv_grid); [eexists; reflexivity|discriminate].
    + destruct (station lv_grid); [eexists; reflexivity|discriminate].
  - unfold reference_bus, _lv_allowed_voltage_limits. intros ref Href Hn.
    apply isin_not_In in Hn.
    destruct (is_stations mode).
    + destruct (transformers_df lv_grid) as [|t l]; [discriminate|].
      injection Href as <-. cbn [bind ret]. unfold loc_column. now rewrite Hn.
    + destruct (station lv_grid) as [|b l]; [discriminate|].
      injection Href as <-. cbn [bind ret]. unfold loc_column. now rewrite Hn.
Qed.

End LVLimits.

Lemma lv_allowed_voltage_limits_follow_the_reference_bus_witness :
  exists upper lower,
    _lv_allowed_voltage_limits report_examples.banded_network report_examples.lv_grid_3
      (Some "stations") = inr (upper, lower)
    /\ s_val upper 2%Z = 11 # 10
    /\ s_val lower 2%Z = (112 # 100) - (0 # 1)
    /\ (exists msg,
          _lv_allowed_voltage_limits report_examples.banded_network examples.no_grid None
          = inl (IndexError msg))
    /\ _lv_allowed_voltage_limits examples.two_case_network examples.lv_grid_2 None
       = inl (KeyError "Bus_LV_2").
Proof.
  destruct (lv_allowed_voltage_limits_follow_the_reference_bus
              report_examples.banded_network report_examples.lv_grid_3 (Some "stations"))
    as (Hok & _ & _).
  destruct (Hok "Bus_2") as (upper & lower & Hrun & _ & _ & Hval).
  - reflexivity.
  - cbn. auto.
  - intros t Ht. exact Ht.
  - destruct (Hval 2%Z) as [Hu Hl]; [cbn; auto|].
    exists upper, lower. split; [exact Hrun|]. split; [exact Hu|]. split; [exact Hl|].
    split.
    + apply (lv_allowed_voltage_limits_follow_the_reference_bus
               report_examples.banded_network examples.no_grid None). reflexivity.
    + apply (lv_allowed_voltage_limits_follow_the_reference_bus
               examples.two_case_network examples.lv_grid_2 None).
      * reflexivity.
      * cbn. tauto.
Defined.

End grid_report_facts.

(** ** The reports of the LV grids *)

Module lv_report_facts.
Import pd align check_tech_constraints constraint_terms pd_facts voltage_facts voltage_report.
Import voltage_limit_terms grid_report_facts lv_report_terms.

Lemma grid_report_rows sort_values edisgo_obj buses upper lower :
  sorts_descending sort_values ->
  descending (grid_report sort_values edisgo_obj buses upper lower)
  /\ forall r, In r (grid_report sort_values edisgo_obj buses upper lower) ->
       In (crit_bus r) buses
       /\ (overvoltage_at edisgo_obj upper (crit_bus r)
           \/ undervoltage_at edisgo_obj lower (crit_bus r)).
Proof.
  intros Hsort. unfold grid_report.
  pose proof (in_unsorted_rows edisgo_obj buses upper lower) as Hrows.
  destruct (unsorted_rows edisgo_obj buses upper lower) as [|r0 rows0].
  - split; [constructor|intros r []].
  - destruct (Hsort (r0 :: rows0)) as [Hperm Hdesc]. split; [exact Hdesc|].
    intros r Hr. apply (Permutation_in _ (Permutation_sym Hperm)) in Hr.
    apply Hrows in Hr. now apply in_report_tables in Hr.
Qed.

Lemma grid_report_violated sort_values edisgo_obj buses upper lower :
  sorts_descending sort_values ->
  grid_report sort_values edisgo_obj buses upper lower <> [] ->
  violated edisgo_obj buses upper lower.
Proof.
  intros Hsort Hne. destruct (grid_report_rows sort_values edisgo_obj buses upper lower Hsort)
    as [_ Hrows].
  destruct (grid_report sort_values edisgo_obj buses upper lower) as [|r rows];
    [contradiction|].
  exists (crit_bus r). apply Hrows. now left.
Qed.

Lemma grid_report_nil_iff sort_values edisgo_obj buses upper lower :
  sorts_descending sort_values ->
  grid_report sort_values edisgo_obj buses upper lower = []
  <-> ~ violated edisgo_obj buses upper lower.
Proof.
  intros Hsort. unfold grid_report, violated.
  pose proof (unsorted_rows_nil_iff edisgo_obj buses upper lower) as Hnil.
  destruct (unsorted_rows edisgo_obj buses upper lower) as [|r rows] eqn:E.
  - split; [intros _|reflexivity]. intros (b & Hb & Hv).
    destruct (proj1 Hnil eq_refl b Hb). tauto.
  - split.
    + intros Hs. destruct (Hsort (r :: rows)) as [Hp _]. rewrite Hs in Hp.
      apply Permutation_sym, Permutation_nil in Hp. discriminate.
    + intros Hno. exfalso.
      assert (Habs : r :: rows = []); [|discriminate].
      apply Hnil. intros b Hb. split; intros Hv; apply Hno; exists b; auto.
Qed.

Section Loop.

Variable str : Grid -> string.
Variable report : Grid -> list CritBus.
Variable body : Grid -> gmap string (list CritBus) -> result (gmap string (list CritBus)).

Lemma report_loop (grids : list Grid) (d : gmap string (list CritBus)) :
  (forall g d, In g grids ->
     body g d = inr (match report g with
                     | [] => d
                     | _ :: _ => <[str g := report g]> d
                     end)) ->
  exists d',
    for_in grids body d = inr d'
    /\ (forall k rows, d' !! k = Some rows ->
          d !! k = Some rows
          \/ exists g, In g grids /\ k = str g /\ rows = report g /\ rows <> [])
    /\ (forall k, is_Some (d !! k) -> is_Some (d' !! k))
    /\ (forall g, In g grids -> report g <> [] -> is_Some (d' !! str g)).
Proof.
  revert d. induction grids as [|g grids IH]; intros d Hbody; cbn [for_in].
  - exists d. split; [reflexivity|]. split; [auto|]. split; [auto|intros g []].
  - rewrite (Hbody g d (or_introl eq_refl)). cbn [bind].
    set (d1 := match report g with [] => d | _ :: _ => <[str g := report g]> d end).
    pose proof (IH d1 (fun g' d0 Hg' => Hbody g' d0 (or_intror Hg')))
      as (d' & Hrun & Honly & Hkeep & Hall).
    assert (H1 : forall k, is_Some (d !! k) -> is_Some (d1 !! k)).
    { intros k Hk. unfold d1. destruct (report g); [exact Hk|].
      destruct (decide (k = str g)) as [->|Hne].
      - rewrite lookup_insert_eq. eauto.
      - now rewrite lookup_insert_ne by congruence. }
    exists d'. split; [exact Hrun|]. split; [|split].
    + intros k rows Hk. destruct (Honly k rows Hk) as [Hd1|(g' & Hg' & H')].
      * unfold d1 in Hd1. destruct (report g) as [|r rs] eqn:Er; [now left|].
        destruct (decide (k = str g)) as [->|Hne].
        -- rewrite lookup_insert_eq in Hd1. injection Hd1 as <-.
           right. exists g. rewrite Er. repeat split; [now left|discriminate].
        -- rewrite lookup_insert_ne in Hd1 by congruence. now left.
      * right. exists g'. split; [now right|exact H'].
    + intros k Hk. apply Hkeep. now apply H1.
    + intros g' [<-|Hg'] Hne; [|now apply Hall].
      apply Hkeep. unfold d1. destruct (report g); [contradiction|].
      rewrite lookup_insert_eq. eauto.
Qed.

End Loop.

Section LVReport.

Variable sort_values : list CritBus -> list CritBus.
Variable str : Grid -> string.
Variable edisgo_obj : EDisGo.
Variable mode : option string.

Local Abbreviation v := (v_res (results edisgo_obj)).
Local Abbreviation cases := (timesteps_load_feedin_case edisgo_obj).
Local Abbreviation upper := (apply cases (mv_upper_limit edisgo_obj "mv_lv")).
Local Abbreviation lower := (apply cases (mv_lower_limit edisgo_obj "mv_lv")).
Local Abbreviation report :=
  (fun g => grid_report sort_values edisgo_obj (checked_buses g mode) upper lower).

Hypothesis sort_values_descending : sorts_descending sort_values.
Hypothesis valid_mode : mode = None \/ mode = Some "" \/ mode = Some "stations".
Hypothesis buses_in_results :
  forall g b, In g (lv_grids (topology edisgo_obj)) -> In b (checked_buses g mode) ->
              In b (columns v).
Hypothesis cases_cover : forall t, In t (index v) -> In t (s_index cases).

(** X12: with the limits of the MV level ('mv_lv'), the voltage check of the LV
    grids returns a dictionary with an entry for every LV grid that has a
    checked bus outside the limits, under the name of the grid, and with no
    other entry; no entry is an empty report.  The entry under a name is the
    report of a grid of that name: its violating buses among the checked
    ones (the buses of the station in mode 'stations', all buses of the
    grid otherwise), largest deviation first. *)
Theorem lv_voltage_deviation_reports_the_violating_grids :
  exists crit_buses,
    lv_voltage_deviation sort_values str edisgo_obj mode "mv_lv" = inr crit_buses
    /\ (forall k rows,
          crit_buses !! k = Some rows ->
          rows <> []
          /\ descending rows
          /\ exists g, In g (lv_grids (topology edisgo_obj)) /\ k = str g
                       /\ rows = report g
                       /\ forall r, In r rows ->
                            In (crit_bus r) (checked_buses g mode)
                            /\ (overvoltage_at edisgo_obj upper (crit_bus r)
                                \/ undervoltage_at edisgo_obj lower (crit_bus r)))
    /\ (forall g,
          In g (lv_grids (topology edisgo_obj)) ->
          violated edisgo_obj (checked_buses g mode) upper lower ->
          is_Some (crit_buses !! str g)).
Proof.
  unfold lv_voltage_deviation. cbn [String.eqb Ascii.eqb Bool.eqb].
  rewrite (mv_limits_return edisgo_obj "mv_lv" (or_introl eq_refl)). cbn [bind ret].
  match goal with
  | |- exists d, for_in ?gs ?body ?d0 = _ /\ _ =>
      destruct (report_loop str report body gs d0) as (d' & Hrun & Honly & _ & Hall)
  end.
  - intros g d Hg. cbv beta.
    assert (Hb : (if truthy mode
                  then if is_stations mode then ret (station g)
                       else raise (ValueError (mode_name mode ++
             " is not a valid option for input variable 'mode' in function lv_voltage_deviation. Try 'stations' or None."))
                  else ret (buses_df g))
                 = inr (checked_buses g mode)).
    { unfold checked_buses.
      destruct valid_mode as [-> | [-> | ->]]; reflexivity. }
    rewrite Hb. cbn [bind].
    rewrite (_voltage_deviation_returns sort_values edisgo_obj (checked_buses g mode)
               upper lower (fun b => buses_in_results g b Hg) cases_cover cases_cover).
    cbn [bind]. fold (grid_report sort_values edisgo_obj (checked_buses g mode) upper lower).
    now destruct (grid_report _ _ _ _ _).
  - exists d'. split; [exact Hrun|]. split.
    + intros k rows Hk. destruct (Honly k rows Hk) as [H0|(g & Hg & -> & -> & Hne)].
      { rewrite lookup_empty in H0. discriminate. }
      destruct (grid_report_rows sort_values edisgo_obj (checked_buses g mode) upper lower
                  sort_values_descending) as [Hdesc Hrows].
      split; [exact Hne|]. split; [exact Hdesc|]. exists g. auto.
    + intros g Hg Hv. apply Hall; [exact Hg|].
      intros Hnil. apply grid_report_nil_iff in Hnil; [contradiction|assumption].
Qed.

End LVReport.

Lemma lv_voltage_deviation_reports_the_violating_grids_witness :
  exists crit_buses rows,
    lv_voltage_deviation examples.merge_sort_values report_examples.grid_name
      report_examples.banded_network None "mv_lv" = inr crit_buses
    /\ crit_buses !! "LVGrid_3" = Some rows
    /\ rows <> []
    /\ crit_buses !! "LVGrid_4" = None.
Proof.
  destruct (lv_voltage_deviation_reports_the_violating_grids examples.merge_sort_values
              report_examples.grid_name report_examples.banded_network None
              merge_sort_descending)
    as (crit_buses & Hrun & Hrows & Hall).
  - now left.
  - intros g b [<-|[<-|[]]] [<-|[]]; cbn; auto 6.
  - intros t Ht. exact Ht.
  - destruct (Hall report_examples.lv_grid_3) as [rows Hk].
    + cbn. auto.
    + exists "Bus_3". split; [now left|]. left. exists 2%Z. split; [cbn; auto|reflexivity].
    + exists crit_buses, rows. split; [exact Hrun|]. split; [exact Hk|].
      split; [apply (Hrows _ _ Hk)|].
      revert Hrun. vm_compute. now intros [= <-].
Defined.

End lv_report_facts.

(** ** The bus section *)

Module table_facts.
Import pd powermodels_io exporter_terms pd_facts index_facts branch_facts.
Import section_terms.

(** *** Loops that write one record per row *)

Section InsertLoop.

Context {A St V : Type}.

(** The table the loop writes to, the body of the loop, and what the body
    writes for the row at a position. *)
Variable table : St -> gmap string V.
Variable body : nat -> A -> St -> result St.
Variable written : nat -> A -> V -> Prop.

Hypothesis body_writes :
  forall i a s s', body i a s = inr s' ->
    exists v, written i a v /\ table s' = <[str (i + 1) := v]> (table s).

Lemma insert_loop (rows : list A) (i : nat) (s s' : St) :
  for_each_from i rows body s = inr s' ->
  (forall j a, rows !! j = Some a ->
     exists v, written (i + j) a v /\ table s' !! str (i + j + 1) = Some v)
  /\ (forall k, (forall j, (j < length rows)%nat -> k <> str (i + j + 1)) ->
        table s' !! k = table s !! k).
Proof.
  revert i s. induction rows as [|a rows IH]; intros i s; cbn [for_each_from].
  - intros [= <-]. split; [intros j a H; discriminate|reflexivity].
  - destruct (body i a s) as [e|s1] eqn:E; [discriminate|]. cbn [bind]. intros Hrun.
    destruct (body_writes _ _ _ _ E) as (v & Hv & Ht).
    destruct (IH _ _ Hrun) as [Hkeys Hframe]. split.
    + intros [|j] a' Hj.
      * injection Hj as <-. exists v. rewrite Nat.add_0_r. split; [assumption|].
        rewrite Hframe, Ht; [apply lookup_insert_eq|].
        intros j _ Heq. apply str_inj in Heq. lia.
      * replace (i + S j)%nat with (S i + j)%nat by lia. now apply Hkeys.
    + intros k Hk. rewrite Hframe, Ht.
      * apply lookup_insert_ne. intros Heq. apply (Hk 0%nat); [cbn; lia|].
        now rewrite Nat.add_0_r.
      * intros j Hj Heq. apply (Hk (S j)); [cbn; lia|].
        now replace (i + S j)%nat with (S i + j)%nat by lia.
Qed.

Lemma insert_loop_size (rows : list A) (i : nat) (s s' : St) :
  for_each_from i rows body s = inr s' ->
  (forall j, (j < length rows)%nat -> table s !! str (i + j + 1) = None) ->
  size (table s') = (size (table s) + length rows)%nat.
Proof.
  revert i s. induction rows as [|a rows IH]; intros i s; cbn [for_each_from].
  - intros [= <-] _. cbn. lia.
  - destruct (body i a s) as [e|s1] eqn:E; [discriminate|]. cbn [bind]. intros Hrun Hfree.
    destruct (body_writes _ _ _ _ E) as (v & Hv & Ht).
    rewrite (IH _ _ Hrun).
    + rewrite Ht, map_size_insert_None; [cbn; lia|].
      specialize (Hfree 0%nat). rewrite Nat.add_0_r in Hfree. apply Hfree. cbn. lia.
    + intros j Hj. rewrite Ht, lookup_insert_ne.
      * replace (S i + j)%nat with (i + S j)%nat by lia. apply Hfree. cbn. lia.
      * intros Heq. apply str_inj in Heq. lia.
Qed.

(** From an empty table the loop leaves exactly the keys 1..len(rows). *)
Lemma insert_loop_from_empty (rows : list A) (s s' : St) :
  table s = ∅ ->
  for_each_from 0 rows body s = inr s' ->
  (forall j a, rows !! j = Some a ->
     exists v, written j a v /\ table s' !! str (j + 1) = Some v)
  /\ (forall k v, table s' !! k = Some v ->
        exists j a, rows !! j = Some a /\ k = str (j + 1) /\ written j a v)
  /\ size (table s') = length rows.
Proof.
  intros Hempty Hrun. destruct (insert_loop rows 0 s s' Hrun) as [Hkeys Hframe].
  split; [exact Hkeys|]. split.
  - intros k v Hk.
    destruct (in_dec string_dec k (map (fun j => str (j + 1)) (seq 0 (length rows))))
      as [Hin|Hnot].
    + apply in_map_iff in Hin as (j & <- & Hj). apply in_seq in Hj.
      destruct (lookup_lt_is_Some_2 rows j) as [a Ha]; [lia|].
      destruct (Hkeys j a Ha) as (v' & Hw & Hv'). cbn [Nat.add] in Hv'.
      rewrite Hv' in Hk. injection Hk as <-. eauto.
    + rewrite Hframe, Hempty, lookup_empty in Hk; [discriminate|].
      intros j Hj Heq. apply Hnot. apply in_map_iff. exists j.
      cbn [Nat.add] in Heq. split; [now rewrite Heq|]. apply in_seq. lia.
  - rewrite (insert_loop_size rows 0 s s' Hrun).
    + rewrite Hempty, map_size_empty. reflexivity.
    + intros j _. rewrite Hempty. apply lookup_empty.
Qed.

(** The loop returns exactly when its body returns at every row. *)
Lemma loop_returns_rows (rows : list A) (i : nat) (s s' : St) :
  for_each_from i rows body s = inr s' ->
  forall j a, rows !! j = Some a -> exists s1 s2, body (i + j) a s1 = inr s2.
Proof.
  revert i s. induction rows as [|a rows IH]; intros i s; cbn [for_each_from].
  - intros _ j a H. discriminate.
  - destruct (body i a s) as [e|s1] eqn:E; [discriminate|]. cbn [bind]. intros Hrun.
    intros [|j] a' Hj.
    + injection Hj as <-. rewrite Nat.add_0_r. eauto.
    + replace (i + S j)%nat with (S i + j)%nat by lia. eapply IH; eassumption.
Qed.

End InsertLoop.

Lemma for_each_from_returns {A St} (body : nat -> A -> St -> result St) :
  (forall i a s, exists s', body i a s = inr s') ->
  forall rows i s, exists s', for_each_from i rows body s = inr s'.
Proof.
  intros Hbody rows. induction rows as [|a rows IH]; intros i s; cbn [for_each_from].
  - eauto.
  - destruct (Hbody i a s) as [s1 ->]. cbn [bind]. apply IH.
Qed.

Lemma lookup_combine {A B} (l : list A) (k : list B) i x y :
  combine l k !! i = Some (x, y) <-> l !! i = Some x /\ k !! i = Some y.
Proof.
  revert k i. induction l as [|a l IH]; intros [|b k] [|i]; cbn;
    try (split; [discriminate|intros [? ?]; discriminate]).
  - split; [intros [= <- <-]; auto|intros [[= <-] [= <-]]; reflexivity].
  - apply IH.
Qed.

(** *** The bus section *)

Lemma mapM_length {A B} (f : A -> result B) (l : list A) (out : list B) :
  mapM f l = inr out -> length out = length l.
Proof.
  revert out. induction l as [|a l IH]; intros out; cbn [mapM].
  - now intros [= <-].
  - destruct (f a); [discriminate|]. cbn [bind].
    destruct (mapM f l) as [|bs]; [discriminate|]. cbn [bind]. intros [= <-].
    cbn. f_equal. now apply IH.
Qed.

Lemma mapM_lookup {A B} (f : A -> result B) (l : list A) (out : list B) i a :
  mapM f l = inr out -> l !! i = Some a ->
  exists b, out !! i = Some b /\ f a = inr b.
Proof.
  revert out i. induction l as [|x l IH]; intros out i; cbn [mapM]; [discriminate|].
  destruct (f x) as [|b] eqn:E; [discriminate|]. cbn [bind].
  destruct (mapM f l) as [|bs] eqn:Em; [discriminate|]. cbn [bind]. intros [= <-].
  destruct i as [|i]; cbn.
  - intros [= <-]. eauto.
  - intros Hi. now apply (IH bs i).
Qed.

Lemma mapM_inr_iff {A B} (f : A -> result B) (l : list A) :
  (exists out, mapM f l = inr out) <-> Forall (fun a => exists b, f a = inr b) l.
Proof.
  induction l as [|a l IH]; cbn [mapM].
  - split; [constructor|eauto].
  - split.
    + intros [out H]. destruct (f a) as [|b] eqn:E; [discriminate|]. cbn [bind] in H.
      destruct (mapM f l) as [|bs]; [discriminate|].
      constructor; [eauto|]. apply IH. eauto.
    + intros H. inversion H as [|? ? [b Hb] Hl]; subst. rewrite Hb. cbn [bind].
      apply IH in Hl as [bs ->]. cbn [bind]. eauto.
Qed.

Lemma position_bound (label : string) (labels : list string) i :
  position label labels = Some i -> (i < length labels)%nat.
Proof.
  intros H. apply position_lookup in H. now apply lookup_lt_Some in H.
Qed.

Lemma position_None (label : string) (labels : list string) :
  position label labels = None <-> ~ In label labels.
Proof.
  split.
  - intros Hn Hin. destruct (position_Some _ _ Hin) as (i & Hi & _). congruence.
  - intros Hn. destruct (position label labels) as [i|] eqn:E; [|reflexivity].
    apply position_lookup in E. exfalso. apply Hn.
    apply list_elem_of_In. eapply list_elem_of_lookup_2. exact E.
Qed.

Section BuildBus.

Variable psa_net : Network.

Lemma _build_bus_returns_iff (pm : PM) :
  (exists pm', _build_bus psa_net pm = inr pm')
  <-> Forall (fun b => In (control b) bus_types) (buses psa_net).
Proof.
  unfold _build_bus.
  set (f := fun b : Bus => match position (control b) bus_types with
                           | Some i => ret (i + 1)%nat
                           | None => raise (ValueError ("'" ++ control b ++ "' is not in list"))
                           end).
  assert (Hf : forall b, (exists ty, f b = inr ty) <-> In (control b) bus_types).
  { intros b. unfold f. destruct (position (control b) bus_types) as [i|] eqn:E.
    - split; [intros _|eauto]. apply position_lookup in E.
      apply list_elem_of_In. eapply list_elem_of_lookup_2. exact E.
    - split; [intros [ty H]; discriminate|]. intros Hin.
      apply position_None in E. contradiction. }
  split.
  - intros [pm' H]. destruct (mapM f (buses psa_net)) as [|tys] eqn:E; [discriminate|].
    assert (HF : Forall (fun a => exists b, f a = inr b) (buses psa_net))
      by (apply mapM_inr_iff; eauto).
    eapply List.Forall_impl; [|exact HF]. intros b Hb. now apply Hf.
  - intros HF.
    assert (HF' : Forall (fun a => exists b, f a = inr b) (buses psa_net)).
    { eapply List.Forall_impl; [|exact HF]. intros b Hb. now apply Hf. }
    apply mapM_inr_iff in HF' as [tys ->]. cbn [bind].
    apply for_each_from_returns. intros i [b ty] s. eexists. reflexivity.
Qed.

Lemma _build_bus_table (pm pm' : PM) :
  bus pm = ∅ ->
  _build_bus psa_net pm = inr pm' ->
  (forall i b, buses psa_net !! i = Some b ->
     exists r, bus pm' !! str (i + 1) = Some r /\ bus_written i b r)
  /\ (forall k r, bus pm' !! k = Some r ->
        exists i b, buses psa_net !! i = Some b /\ k = str (i + 1) /\ bus_written i b r)
  /\ size (bus pm') = length (buses psa_net).
Proof.
  intros Hempty. unfold _build_bus.
  destruct (mapM _ (buses psa_net)) as [|tys] eqn:Em; [discriminate|]. cbn [bind].
  intros Hrun.
  pose proof (mapM_length _ _ _ Em) as Hlen.
  assert (Hrows : forall i b ty, combine (buses psa_net) tys !! i = Some (b, ty) ->
            buses psa_net !! i = Some b
            /\ position (control b) bus_types = Some (ty - 1)%nat
            /\ (1 <= ty <= 4)%nat).
  { intros i b ty Hi. apply lookup_combine in Hi as [Hb Hty].
    split; [exact Hb|].
    destruct (mapM_lookup _ _ _ _ _ Em Hb) as (ty' & Hty' & Hf). cbn in Hb, Hty.
    rewrite Hty in Hty'. injection Hty' as <-.
    destruct (position (control b) bus_types) as [p|] eqn:Ep; [|discriminate].
    injection Hf as <-. pose proof (position_bound _ _ _ Ep) as Hp. cbn in Hp.
    split; [f_equal; lia|lia]. }
  destruct (insert_loop_from_empty bus
              (fun i '(b, ty) pm =>
                 ret (set_bus (insert (str (i + 1))
                        (mkBusRec (i + 1) (i + 1) 1 ty
                                  (Qmin (v_mag_pu_max b) (105 # 100))
                                  (Qmax (v_mag_pu_min b) (985 # 1000))
                                  0 (v_mag_pu_set b) (v_nom b))) pm))
              (fun i '(b, ty) r =>
                 r = mkBusRec (i + 1) (i + 1) 1 ty
                              (Qmin (v_mag_pu_max b) (105 # 100))
                              (Qmax (v_mag_pu_min b) (985 # 1000))
                              0 (v_mag_pu_set b) (v_nom b))
              ltac:(intros i [b ty] s s' [= <-]; eexists; split; reflexivity)
              (combine (buses psa_net) tys) pm pm' Hempty Hrun)
    as (Hkeys & Honly & Hsize).
  assert (Hrec : forall i b ty r,
            combine (buses psa_net) tys !! i = Some (b, ty) ->
            r = mkBusRec (i + 1) (i + 1) 1 ty
                         (Qmin (v_mag_pu_max b) (105 # 100))
                         (Qmax (v_mag_pu_min b) (985 # 1000))
                         0 (v_mag_pu_set b) (v_nom b) ->
            buses psa_net !! i = Some b /\ bus_written i b r).
  { intros i b ty r Hi ->. destruct (Hrows i b ty Hi) as (Hb & Hp & Hty).
    split; [exact Hb|]. unfold bus_written. cbn. repeat split; try assumption; lia. }
  split; [|split].
  - intros i b Hb.
    assert (Hty : exists ty, combine (buses psa_net) tys !! i = Some (b, ty)).
    { destruct (lookup_lt_is_Some_2 tys i) as [ty Hty].
      - rewrite Hlen. now apply lookup_lt_Some in Hb.
      - exists ty. apply lookup_combine. auto. }
    destruct Hty as [ty Hi]. destruct (Hkeys i (b, ty) Hi) as (r & Hw & Hr).
    exists r. split; [exact Hr|]. now apply (Hrec i b ty r Hi).
  - intros k r Hk. destruct (Honly k r Hk) as (i & [b ty] & Hi & -> & Hw).
    exists i, b. destruct (Hrec i b ty r Hi Hw) as [Hb Hbw]. auto.
  - rewrite Hsize, length_combine, Hlen. lia.
Qed.

End BuildBus.

(** X13: the bus section holds one record per bus of the network, under the keys
    1..len(buses), numbered like its key; the type of a bus is the 1-based
    position of its control among 'PQ', 'PV', 'Slack' and 'None'.  The upper
    voltage limit of a bus is capped at 1.05 p.u. and the lower one raised to
    0.985 p.u.  The section is built exactly when the control of every bus is
    one of the four. *)
Theorem build_bus_section (psa_net : Network) :
  ((exists pm, _build_bus psa_net _init_pm = inr pm)
   <-> Forall (fun b => In (control b) bus_types) (buses psa_net))
  /\ forall pm,
       _build_bus psa_net _init_pm = inr pm ->
       (forall i b, buses psa_net !! i = Some b ->
          exists r, bus pm !! str (i + 1) = Some r /\ bus_written i b r)
       /\ (forall k r, bus pm !! k = Some r ->
             (exists i b, buses psa_net !! i = Some b /\ k = str (i + 1)
                          /\ bus_written i b r)
             /\ vmax r <= 105 # 100 /\ 985 # 1000 <= vmin r)
       /\ size (bus pm) = length (buses psa_net).
Proof.
  split; [apply _build_bus_returns_iff|].
  intros pm Hrun.
  destruct (_build_bus_table psa_net _init_pm pm eq_refl Hrun) as (Hkeys & Honly & Hsize).
  split; [exact Hkeys|]. split; [|exact Hsize].
  intros k r Hk. destruct (Honly k r Hk) as (i & b & Hb & -> & Hw).
  split; [eauto|].
  destruct Hw as (_ & _ & _ & _ & -> & -> & _).
  split; [apply Q.le_min_r|apply Q.le_max_r].
Qed.

Lemma build_bus_section_witness :
  exists pm,
    _build_bus exporter_examples.small_network _init_pm = inr pm
    /\ size (bus pm) = 2%nat
    /\ option_map vmax (bus pm !! "1") = Some (105 # 100)
    /\ option_map bus_type (bus pm !! "2") = Some 1%nat.
Proof.
  destruct (build_bus_section exporter_examples.small_network) as [_ Hsection].
  eexists. split; [vm_compute; reflexivity|].
  match goal with
  | |- size (bus ?pm) = _ /\ _ => destruct (Hsection pm) as (_ & _ & Hsize)
  end.
  - vm_compute. reflexivity.
  - split; [exact Hsize|]. split; vm_compute; reflexivity.
Defined.

End table_facts.

(** ** The generator and load sections *)

Module section_facts.
Import pd powermodels_io exporter_terms pd_facts index_facts branch_facts table_facts.
Import section_terms.

(** *** The slack bus *)

Lemma gen_loop_keeps_bus (psa_net : Network) (pm pm' : PM) :
  for_each (generators psa_net)
    (fun i g pm =>
       let* idx_bus := _mapping psa_net (gen_at_bus g) "bus" in
       ret (set_gen (insert (str (i + 1))
              (mkGenRec (gen_p_set g) (gen_q_set g) (gen_p_max_pu g) (gen_p_min_pu g)
                        1 0 1 (gen_p_nom g) idx_bus 1 (i + 1) 2 3 [120; 20; 0])) pm))
    pm = inr pm' ->
  bus pm' = bus pm.
Proof.
  apply for_each_from_keeps. intros i g st st' Hb. keeps_branch.
Qed.

(** X14: building the generator section marks one bus as the slack bus: the
    record of the bus of the generator 'Generator_slack' gets the bus type 3,
    whatever its control; every other bus record, and every other field of
    that record, is left as it was.  Without a generator of that name the
    call raises an [IndexError]; when the bus section does not hold the bus
    yet, it raises a [KeyError]. *)
Theorem build_gen_marks_the_slack_bus (psa_net : Network) :
  (slack_bus psa_net = None ->
   forall pm, exists msg, _build_gen psa_net pm = inl (IndexError msg))
  /\ (forall pm pm',
        _build_gen psa_net pm = inr pm' ->
        exists slack i r,
          slack_bus psa_net = Some slack
          /\ _mapping psa_net slack "bus" = inr i
          /\ bus pm !! str i = Some r
          /\ bus pm' = <[str i := with_bus_type 3 r]> (bus pm)
          /\ option_map bus_type (bus pm' !! str i) = Some 3%nat
          /\ forall k, k <> str i -> bus pm' !! k = bus pm !! k)
  /\ (forall slack i pm,
        slack_bus psa_net = Some slack ->
        _mapping psa_net slack "bus" = inr i ->
        bus pm !! str i = None ->
        _build_gen psa_net pm = inl (KeyError (str i))).
Proof.
  unfold slack_bus. split; [|split].
  - intros Hnone pm. unfold _build_gen.
    destruct (List.filter _ (generators psa_net)); [|discriminate].
    eexists. reflexivity.
  - intros pm pm'. unfold _build_gen.
    destruct (List.filter _ (generators psa_net)) as [|g0 gs]; [discriminate|].
    cbn [bind ret].
    destruct (_mapping psa_net (gen_at_bus g0) "bus") as [|i] eqn:Em; [discriminate|].
    cbn [bind].
    destruct (bus pm !! str i) as [r|] eqn:Er; [|discriminate]. cbn [bind ret].
    intros Hrun. apply gen_loop_keeps_bus in Hrun. cbn [bus set_bus] in Hrun.
    exists (gen_at_bus g0), i, r. rewrite Hrun.
    split; [reflexivity|]. split; [exact Em|]. split; [exact Er|].
    split; [reflexivity|]. split.
    + now rewrite lookup_insert_eq.
    + intros k Hk. apply lookup_insert_ne. congruence.
  - intros slack i pm. unfold _build_gen.
    destruct (List.filter _ (generators psa_net)) as [|g0 gs]; [discriminate|].
    intros [= <-] Hm Hb. cbn [bind ret]. rewrite Hm. cbn [bind]. now rewrite Hb.
Qed.

Lemma build_gen_marks_the_slack_bus_witness :
  exists pm1 pm2,
    _build_bus exporter_examples.small_network _init_pm = inr pm1
    /\ _build_gen exporter_examples.small_network pm1 = inr pm2
    /\ option_map bus_type (bus pm2 !! "1") = Some 3%nat
    /\ bus pm2 !! "2" = bus pm1 !! "2"
    /\ _build_gen exporter_examples.small_network _init_pm = inl (KeyError "1").
Proof.
  destruct (build_gen_marks_the_slack_bus exporter_examples.small_network)
    as (_ & Hmark & Hearly).
  eexists. eexists. split; [vm_compute; reflexivity|].
  split; [vm_compute; reflexivity|].
  match goal with
  | |- option_map bus_type (bus ?pm2 !! _) = _ /\ bus _ !! _ = bus ?pm1 !! _ /\ _ =>
      destruct (Hmark pm1 pm2) as (slack & i & r & Hs & Hi & _ & _ & Hty & Hothers)
  end.
  - vm_compute. reflexivity.
  - injection Hs as <-. vm_compute in Hi. injection Hi as <-.
    split; [exact Hty|]. split.
    + apply Hothers. vm_compute. discriminate.
    + apply (Hearly "Bus_1" 1%nat); reflexivity.
Defined.

(** *** The loads, the charging points and the heat pumps *)

Lemma drop_inr (loads out : list Load) (labels : list string) :
  drop loads labels = inr out ->
  out = List.filter (fun l => negb (isin (load_name l) labels)) loads
  /\ forall n, In n labels -> In n (map load_name loads).
Proof.
  unfold drop. destruct (List.filter _ labels) eqn:E; [|discriminate].
  intros [= <-]. split; [reflexivity|].
  intros n Hn. rewrite filter_nil_iff in E. specialize (E n Hn).
  rewrite negb_false_iff in E. now apply isin_In.
Qed.

Lemma filter_names (keep : string -> bool) (loads : list Load) :
  map load_name (List.filter (fun l => keep (load_name l)) loads)
  = List.filter keep (map load_name loads).
Proof.
  induction loads as [|l loads IH]; cbn; [reflexivity|].
  destruct (keep (load_name l)); cbn; now rewrite IH.
Qed.

Lemma length_dropped (names labels : list string) :
  List.NoDup names -> List.NoDup labels ->
  (forall n, In n labels -> In n names) ->
  (length (List.filter (fun n => negb (isin n labels)) names) + length labels)%nat
  = length names.
Proof.
  intros Hn Hl Hsub.
  rewrite <- (List.filter_length (fun n => isin n labels) names).
  rewrite Nat.add_comm. f_equal.
  apply Permutation_length. apply Permutation_sym. apply Permutation.NoDup_Permutation.
  - now apply List.NoDup_filter.
  - exact Hl.
  - intros n. rewrite filter_In, isin_In. split; [tauto|]. auto.
Qed.

Section Split.

Variable psa_net : Network.

Lemma _build_load_table (pm pm' : PM) (cps hps : list string) :
  load pm = ∅ ->
  _build_load psa_net pm cps hps = inr pm' ->
  exists loads1 loads_df,
    drop (loads psa_net) cps = inr loads1 /\ drop loads1 hps = inr loads_df
    /\ size (load pm') = length loads_df
    /\ electromobility pm' = electromobility pm /\ heatpumps pm' = heatpumps pm.
Proof.
  intros Hempty. unfold _build_load.
  destruct (drop (loads psa_net) cps) as [|loads1] eqn:E1; [discriminate|]. cbn [bind].
  destruct (drop loads1 hps) as [|loads_df] eqn:E2; [discriminate|]. cbn [bind].
  intros Hrun. exists loads1, loads_df. split; [reflexivity|]. split; [exact E2|].
  split; [|split].
  - eapply (insert_loop_from_empty load _ (fun _ _ _ => True)); [|exact Hempty|exact Hrun].
    intros i l s s' Hb. cbv beta in Hb. destruct (_mapping _ _ _); [discriminate|].
    cbn [bind ret] in Hb. injection Hb as <-. eexists. split; [exact I|reflexivity].
  - revert Hrun. apply for_each_from_keeps. intros i l st st' Hb. keeps_branch.
  - revert Hrun. apply for_each_from_keeps. intros i l st st' Hb. keeps_branch.
Qed.

Lemma loc_length (loads out : list Load) (labels : list string) :
  loc loads labels = inr out -> length out = length labels.
Proof. apply mapM_length. Qed.

Lemma _build_electromobility_table (pm pm' : PM) (cps : list string) :
  electromobility pm = ∅ ->
  _build_electromobility psa_net pm cps = inr pm' ->
  size (electromobility pm') = length cps
  /\ load pm' = load pm /\ heatpumps pm' = heatpumps pm.
Proof.
  intros Hempty. unfold _build_electromobility.
  destruct (length cps =? 0)%nat eqn:E0.
  - apply Nat.eqb_eq, length_zero_iff_nil in E0. subst cps.
    intros [= <-]. rewrite Hempty, map_size_empty. auto.
  - destruct (loc _ _) as [|emob_df] eqn:El; [discriminate|]. cbn [bind].
    intros Hrun. rewrite <- (loc_length _ _ _ El). split; [|split].
    + eapply (insert_loop_from_empty electromobility _ (fun _ _ _ => True));
        [|exact Hempty|exact Hrun].
      intros i l s s' Hb. cbv beta in Hb. destruct (_mapping _ _ _); [discriminate|].
      cbn [bind ret] in Hb. injection Hb as <-. eexists. split; [exact I|reflexivity].
    + revert Hrun. apply for_each_from_keeps. intros i l st st' Hb. keeps_branch.
    + revert Hrun. apply for_each_from_keeps. intros i l st st' Hb. keeps_branch.
Qed.

Lemma _build_heatpumps_table (pm pm' : PM) (hps : list string) :
  heatpumps pm = ∅ ->
  _build_heatpumps psa_net pm hps = inr pm' ->
  size (heatpumps pm') = length hps
  /\ load pm' = load pm /\ electromobility pm' = electromobility pm.
Proof.
  intros Hempty. unfold _build_heatpumps.
  destruct (length hps =? 0)%nat eqn:E0.
  - apply Nat.eqb_eq, length_zero_iff_nil in E0. subst hps.
    intros [= <-]. rewrite Hempty, map_size_empty. auto.
  - destruct (loc _ _) as [|heat_df] eqn:El; [discriminate|]. cbn [bind].
    intros Hrun. rewrite <- (loc_length _ _ _ El). split; [|split].
    + eapply (insert_loop_from_empty heatpumps _ (fun _ _ _ => True));
        [|exact Hempty|exact Hrun].
      intros i l s s' Hb. cbv beta in Hb. destruct (_mapping _ _ _); [discriminate|].
      cbn [bind ret] in Hb. injection Hb as <-. eexists. split; [exact I|reflexivity].
    + revert Hrun. apply for_each_from_keeps. intros i l st st' Hb. keeps_branch.
    + revert Hrun. apply for_each_from_keeps. intros i l st st' Hb. keeps_branch.
Qed.

(** X15: the exporter splits the loads of the network over three sections
    without losing or doubling one: the flexible charging points go to the
    electromobility section, the flexible heat pumps to the heat pump
    section and all other loads to the load section, so that the three
    sections together hold as many records as the network has loads.  For
    the three builders to return, no name may be listed both as a flexible
    charging point and as a flexible heat pump. *)
Theorem loads_are_split_over_three_sections
    (cps hps : list string) (pm pm1 pm2 pm3 : PM) :
  List.NoDup (map load_name (loads psa_net)) ->
  List.NoDup cps -> List.NoDup hps ->
  load pm = ∅ -> electromobility pm = ∅ -> heatpumps pm = ∅ ->
  _build_load psa_net pm cps hps = inr pm1 ->
  _build_electromobility psa_net pm1 cps = inr pm2 ->
  _build_heatpumps psa_net pm2 hps = inr pm3 ->
  (size (load pm3) + size (electromobility pm3) + size (heatpumps pm3))%nat
  = length (loads psa_net)
  /\ size (electromobility pm3) = length cps
  /\ size (heatpumps pm3) = length hps
  /\ (forall n, In n cps -> In n (map load_name (loads psa_net)))
  /\ (forall n, In n hps -> In n (map load_name (loads psa_net)) /\ ~ In n cps).
Proof.
  intros Hnd Hcps Hhps Hl He Hh H1 H2 H3.
  destruct (_build_load_table pm pm1 cps hps Hl H1)
    as (loads1 & loads_df & Hd1 & Hd2 & Hsize1 & He1 & Hh1).
  destruct (_build_electromobility_table pm1 pm2 cps) as (Hsize2 & Hl2 & Hh2);
    [congruence|exact H2|].
  destruct (_build_heatpumps_table pm2 pm3 hps) as (Hsize3 & Hl3 & He3);
    [congruence|exact H3|].
  apply drop_inr in Hd1 as [-> Hin1]. apply drop_inr in Hd2 as [-> Hin2].
  set (keep1 := fun n => negb (isin n cps)) in *.
  set (keep2 := fun n => negb (isin n hps)) in *.
  assert (Hnames1 : map load_name (List.filter (fun l => keep1 (load_name l)) (loads psa_net))
                    = List.filter keep1 (map load_name (loads psa_net)))
    by apply filter_names.
  assert (Hhps_in : forall n, In n hps ->
                      In n (List.filter keep1 (map load_name (loads psa_net)))).
  { intros n Hn. rewrite <- Hnames1. now apply Hin2. }
  assert (Hc1 : (length (List.filter keep1 (map load_name (loads psa_net))) + length cps)%nat
                = length (loads psa_net)).
  { rewrite <- (length_map load_name (loads psa_net)). now apply length_dropped. }
  assert (Hc2 : (length (List.filter keep2
                           (List.filter keep1 (map load_name (loads psa_net))))
                 + length hps)%nat
                = length (List.filter keep1 (map load_name (loads psa_net)))).
  { apply length_dropped; [now apply List.NoDup_filter|assumption|assumption]. }
  assert (Hlen : size (load pm1)
                 = length (List.filter keep2
                             (List.filter keep1 (map load_name (loads psa_net))))).
  { rewrite Hsize1, <- Hnames1.
    rewrite <- (filter_names keep2). now rewrite length_map. }
  split; [|split; [|split; [|split]]].
  - rewrite Hl3, Hl2, He3, Hsize2, Hsize3, Hlen. lia.
  - now rewrite He3.
  - exact Hsize3.
  - exact Hin1.
  - intros n Hn. specialize (Hhps_in n Hn). apply filter_In in Hhps_in as [Hin Hk].
    split; [exact Hin|]. unfold keep1 in Hk. rewrite negb_true_iff in Hk.
    now apply isin_not_In.
Qed.

End Split.

Lemma loads_are_split_over_three_sections_witness :
  exists pm1 pm2 pm3,
    _build_load exporter_examples.small_network _init_pm ["Charging_Point_home"] []
    = inr pm1
    /\ _build_electromobility exporter_examples.small_network pm1 ["Charging_Point_home"]
       = inr pm2
    /\ _build_heatpumps exporter_examples.small_network pm2 [] = inr pm3
    /\ (size (load pm3) + size (electromobility pm3) + size (heatpumps pm3))%nat = 3%nat.
Proof.
  eexists. eexists. eexists.
  split; [vm_compute; reflexivity|]. split; [vm_compute; reflexivity|].
  split; [vm_compute; reflexivity|].
  refine (proj1 (loads_are_split_over_three_sections exporter_examples.small_network
                   ["Charging_Point_home"] [] _init_pm _ _ _ _ _ _ eq_refl eq_refl eq_refl
                   _ _ _)).
  - cbn. distinct_names.
  - distinct_names.
  - constructor.
  - vm_compute. reflexivity.
  - vm_compute. reflexivity.
  - vm_compute. reflexivity.
Defined.

End section_facts.

(** ** Time series, accepted arguments and aggregated transformers *)

Module series_facts.
Import pd powermodels_io exporter_terms pd_facts index_facts branch_facts table_facts.
Import aggregation_facts section_terms section_facts series_terms.

(** *** The time series of the generators *)

Section GeneratorSeries.

Variable psa_net : Network.

Local Abbreviation names := (map gen_name (generators psa_net)).
Local Abbreviation p_set := (generators_t_p_set psa_net).
Local Abbreviation q_set := (generators_t_q_set psa_net).

Lemma _mapping_gen (comp : string) i :
  _mapping psa_net comp "gen" = inr i ->
  exists j, position comp names = Some j /\ i = (j + 1)%nat.
Proof.
  unfold _mapping. cbn [String.eqb Ascii.eqb Bool.eqb bind ret].
  destruct (position comp names) as [j|]; [|discriminate].
  intros [= <-]. eauto.
Qed.

Lemma tolist_inr (df : DataFrame Timestamp string Q) comp a :
  tolist df comp = inr a -> a = values df comp /\ In comp (columns df).
Proof.
  unfold tolist. destruct (isin comp (columns df)) eqn:E; [|discriminate].
  intros [= <-]. split; [reflexivity|]. now apply isin_In.
Qed.

Local Abbreviation gen_body :=
  (fun (_ : nat) comp (pm_comp : option (gmap string TsRec)) =>
     let* comp_i := _mapping psa_net comp "gen" in
     let* a := tolist p_set comp in
     let* q := bound (Some q_set) "q_set" in
     let* b := tolist q comp in
     let* d := bound pm_comp "pm_comp" in
     ret (Some (<[str comp_i := TsGen a b]> d))).

Lemma gen_body_writes i comp (d : gmap string TsRec) st :
  gen_body i comp (Some d) = inr st ->
  exists j, position comp names = Some j
            /\ st = Some (<[str (j + 1) := generator_series psa_net comp]> d).
Proof.
  cbv beta.
  destruct (_mapping psa_net comp "gen") as [|comp_i] eqn:Em; [discriminate|].
  cbn [bind].
  destruct (tolist p_set comp) as [|a] eqn:Ea; [discriminate|]. cbn [bind bound ret].
  destruct (tolist q_set comp) as [|b] eqn:Eb; [discriminate|]. cbn [bind].
  intros [= <-].
  apply _mapping_gen in Em as (j & Hj & ->).
  apply tolist_inr in Ea as [-> _]. apply tolist_inr in Eb as [-> _].
  exists j. split; [exact Hj|reflexivity].
Qed.

Lemma gen_series_loop (cols : list string) (i : nat) (d : gmap string TsRec) st :
  for_each_from i cols gen_body (Some d) = inr st ->
  exists d',
    st = Some d'
    /\ (forall comp, In comp cols ->
          exists j, position comp names = Some j
                    /\ d' !! str (j + 1) = Some (generator_series psa_net comp))
    /\ (forall k s, d' !! k = Some s ->
          d !! k = Some s
          \/ exists comp j, In comp cols /\ position comp names = Some j
                            /\ k = str (j + 1) /\ s = generator_series psa_net comp)
    /\ (forall comp j, position comp names = Some j ->
          d !! str (j + 1) = Some (generator_series psa_net comp) ->
          d' !! str (j + 1) = Some (generator_series psa_net comp)).
Proof.
  revert i d. induction cols as [|comp cols IH]; intros i d; cbn [for_each_from].
  - unfold ret. intros [= <-]. exists d. split; [reflexivity|]. split; [intros c []|].
    split; [auto|auto].
  - match goal with
    | |- bind ?m _ = _ -> _ => destruct m as [|st1] eqn:E; [discriminate|]
    end.
    cbn [bind]. apply (gen_body_writes i comp d st1) in E as (j & Hj & ->). intros Hrun.
    destruct (IH _ _ Hrun) as (d' & -> & Hall & Honly & Hkeep).
    exists d'. split; [reflexivity|]. split; [|split].
    + intros c [<-|Hc]; [|now apply Hall].
      exists j. split; [exact Hj|]. apply Hkeep; [exact Hj|apply lookup_insert_eq].
    + intros k s Hk. destruct (Honly k s Hk) as [H1|(c & j' & Hc & Hj' & -> & ->)].
      * destruct (decide (k = str (j + 1))) as [->|Hne].
        -- rewrite lookup_insert_eq in H1. injection H1 as <-.
           right. exists comp, j. cbn. auto.
        -- rewrite lookup_insert_ne in H1 by congruence. now left.
      * right. exists c, j'. cbn. auto.
    + intros c j' Hj' Hd. apply Hkeep; [exact Hj'|].
      destruct (decide (j' = j)) as [->|Hne].
      * apply position_lookup in Hj, Hj'. rewrite Hj in Hj'. injection Hj' as <-.
        apply lookup_insert_eq.
      * rewrite lookup_insert_ne; [exact Hd|].
        intros Heq. apply str_inj in Heq. lia.
Qed.

Lemma generator_at (comp : string) j :
  position comp names = Some j ->
  exists g, generators psa_net !! j = Some g /\ gen_name g = comp.
Proof.
  intros Hj. apply position_lookup in Hj.
  rewrite list_lookup_fmap in Hj.
  destruct (generators psa_net !! j) as [g|]; [|discriminate].
  injection Hj as <-. eauto.
Qed.

Lemma _build_gen_table (pm pm' : PM) :
  _build_gen psa_net pm = inr pm' ->
  forall j g, generators psa_net !! j = Some g ->
    exists r, gen pm' !! str (j + 1) = Some r
              /\ pg r = gen_p_set g /\ qg r = gen_q_set g
              /\ mbase r = gen_p_nom g /\ gen_index r = (j + 1)%nat
              /\ _mapping psa_net (gen_at_bus g) "bus" = inr (gen_bus r).
Proof.
  unfold _build_gen.
  destruct (match List.filter _ _ with [] => _ | _ => _ end); [discriminate|]. cbn [bind].
  destruct (_mapping _ _ _); [discriminate|]. cbn [bind].
  destruct (bus pm !! _); [|discriminate]. cbn [bind].
  intros Hrun j g Hg.
  unshelve epose proof
    (insert_loop gen _
       (fun j g r => pg r = gen_p_set g /\ qg r = gen_q_set g
                     /\ mbase r = gen_p_nom g /\ gen_index r = (j + 1)%nat
                     /\ _mapping psa_net (gen_at_bus g) "bus" = inr (gen_bus r))
       _ _ 0%nat _ pm' Hrun) as [Hkeys _].
  { intros i0 g0 st0 st1 Hb. cbv beta in Hb.
    destruct (_mapping psa_net (gen_at_bus g0) "bus") eqn:Em; [discriminate|].
    cbn [bind ret] in Hb. injection Hb as <-.
    eexists. split; [|reflexivity]. cbn. auto. }
  destruct (Hkeys j g Hg) as (r & Hw & Hr). cbn [Nat.add] in Hr, Hw. eauto.
Qed.

(** X16: the time series of a generator is stored under the key of the
    generator's record in the generator section: every entry of the time
    series section of the generators belongs to a column of the generators'
    time series table, and its key is the key under which the generator of
    that name has its record.  Every column has its entry. *)
Theorem generator_series_share_the_generator_keys
    (pm pm' : PM) (edisgo_obj : option EDisGo) (cps hps : option (list string))
    (ts : gmap string TsRec) :
  _build_gen psa_net pm = inr pm' ->
  _build_component_timeseries psa_net "gen" edisgo_obj cps hps = inr ts ->
  (forall k series,
      ts !! k = Some series ->
      exists j g r,
        generators psa_net !! j = Some g /\ k = str (j + 1)
        /\ In (gen_name g) (columns p_set)
        /\ series = generator_series psa_net (gen_name g)
        /\ gen pm' !! k = Some r
        /\ pg r = gen_p_set g /\ mbase r = gen_p_nom g /\ gen_index r = (j + 1)%nat)
  /\ (forall comp,
        In comp (columns p_set) ->
        exists j g, generators psa_net !! j = Some g /\ gen_name g = comp
                    /\ ts !! str (j + 1) = Some (generator_series psa_net comp)).
Proof.
  intros Hgen. unfold _build_component_timeseries.
  cbn [String.eqb Ascii.eqb Bool.eqb bind ret bound].
  unfold for_each.
  destruct (for_each_from 0 (columns p_set) _ (Some ∅)) as [|st] eqn:E; [discriminate|].
  cbn [bind].
  apply gen_series_loop in E as (d' & -> & Hall & Honly & _). cbn [bound].
  intros [= <-]. split.
  - intros k series Hk.
    destruct (Honly k series Hk) as [H0|(comp & j & Hc & Hj & -> & ->)].
    { rewrite lookup_empty in H0. discriminate. }
    destruct (generator_at comp j Hj) as (g & Hg & <-).
    destruct (_build_gen_table pm pm' Hgen j g Hg) as (r & Hr & Hpg & _ & Hm & Hi & _).
    exists j, g, r. auto 10.
  - intros comp Hc. destruct (Hall comp Hc) as (j & Hj & Hts).
    destruct (generator_at comp j Hj) as (g & Hg & Hn). eauto.
Qed.

End GeneratorSeries.

Lemma generator_series_share_the_generator_keys_witness :
  exists pm1 pm2 ts,
    _build_bus exporter_examples.small_network _init_pm = inr pm1
    /\ _build_gen exporter_examples.small_network pm1 = inr pm2
    /\ _build_component_timeseries exporter_examples.small_network "gen" None None None
       = inr ts
    /\ ts !! "1" = Some (generator_series exporter_examples.small_network "Generator_slack")
    /\ option_map gen_index (gen pm2 !! "1") = Some 1%nat.
Proof.
  eexists. eexists. eexists.
  split; [vm_compute; reflexivity|]. split; [vm_compute; reflexivity|].
  split; [vm_compute; reflexivity|].
  match goal with
  | |- ?ts !! _ = _ /\ option_map _ (gen ?pm2 !! _) = _ =>
      destruct (generator_series_share_the_generator_keys
                  exporter_examples.small_network
                  ltac:(match goal with
                        | |- PM =>
                            exact (match _build_bus exporter_examples.small_network _init_pm
                                   with inr pm => pm | inl _ => _init_pm end)
                        end)
                  pm2 None None None ts)
        as [Honly Hall]
  end.
  - vm_compute. reflexivity.
  - vm_compute. reflexivity.
  - destruct (Hall "Generator_slack") as (j & g & Hg & Hn & Hts); [cbn; auto|].
    destruct j as [|j]; [|destruct j; discriminate].
    split; [exact Hts|]. vm_compute. reflexivity.
Defined.

(** *** Which lists of flexible components the exporter accepts *)

Lemma heatpump_series_raise (psa_net : Network) (edisgo_obj : option EDisGo)
    (cps : option (list string)) (hps : list string) :
  hps <> [] ->
  exists e, _build_component_timeseries psa_net "heatpumps" edisgo_obj cps (Some hps) = inl e.
Proof.
  intros Hne. unfold _build_component_timeseries.
  cbn [String.eqb Ascii.eqb Bool.eqb bind ret len].
  destruct hps as [|h hps]; [contradiction|]. cbn [length Nat.eqb default id].
  destruct (loc_columns (loads_t_p_set psa_net) (h :: hps)) as [e|p_set] eqn:E.
  - cbn [bind]. eauto.
  - apply loc_columns_inr in E as [-> _]. cbn [bind ret bound columns].
    unfold for_each. cbn [for_each_from].
    unfold _mapping at 1. cbn [String.eqb Ascii.eqb Bool.eqb bind raise]. eauto.
Qed.

Lemma _mapping_emob (psa_net : Network) (comp : string) i :
  _mapping psa_net comp "emob" = inr i ->
  startswith "Charging" comp = true /\ In comp (map load_name (loads psa_net)).
Proof.
  unfold _mapping. cbn [String.eqb Ascii.eqb Bool.eqb bind ret].
  destruct (position comp _) as [j|] eqn:E; [|discriminate]. intros _.
  apply position_lookup in E.
  assert (Hin : In comp (List.filter (startswith "Charging")
                           (map load_name (loads psa_net)))).
  { apply list_elem_of_In. eapply list_elem_of_lookup_2. exact E. }
  apply filter_In in Hin. tauto.
Qed.

Lemma charging_point_series_return (psa_net : Network) (edisgo_obj : option EDisGo)
    (cps : list string) (hps : option (list string)) ts :
  _build_component_timeseries psa_net "emob" edisgo_obj (Some cps) hps = inr ts ->
  cps <> []
  /\ forall comp, In comp cps ->
       startswith "Charging" comp = true /\ In comp (map load_name (loads psa_net)).
Proof.
  unfold _build_component_timeseries.
  cbn [String.eqb Ascii.eqb Bool.eqb bind ret len].
  destruct cps as [|c cps]; [discriminate|]. cbn [length Nat.eqb Nat.ltb Nat.leb default id].
  destruct (loc_columns (loads_t_p_set psa_net) (c :: cps)) as [e|p_set] eqn:E;
    [discriminate|].
  apply loc_columns_inr in E as [-> _]. cbn [bind].
  destruct edisgo_obj as [obj|]; [|discriminate]. cbn [bind ret bound columns].
  unfold for_each.
  destruct (for_each_from 0 (c :: cps) _ _) as [|st] eqn:E; [discriminate|].
  intros _. split; [discriminate|].
  intros comp Hc. apply list_elem_of_In, list_elem_of_lookup_1 in Hc as [j Hj].
  destruct (loop_returns_rows _ _ _ _ _ E j comp Hj) as (s1 & s2 & Hb).
  cbv beta in Hb.
  destruct (_mapping psa_net comp "emob") as [|i] eqn:Em; [discriminate|].
  now apply _mapping_emob in Em.
Qed.

(** X17: the exporter returns a structure only for a list of flexible heat pumps
    that is empty and a list of flexible charging points that is not: with a
    flexible heat pump the time series of the heat pumps cannot be built,
    since the mapping of names to indices knows no kind 'heatpumps'.  Every
    flexible charging point must be a load of the network whose name starts
    with 'Charging'. *)
Theorem to_powermodels_returns_only_for
    (calc : list (Q * Q * Q) -> Q * Q * Q) (dependent_values : Network -> Network)
    (edisgo_object : EDisGo) (flexible_cps flexible_hps : list string) (pm : PM) :
  to_powermodels calc dependent_values edisgo_object flexible_cps flexible_hps = inr pm ->
  let psa_net :=
    dependent_values
      (with_transformers (to_pypsa edisgo_object)
         (aggregate_parallel_transformers calc (transformers (to_pypsa edisgo_object)))) in
  flexible_hps = []
  /\ flexible_cps <> []
  /\ forall comp, In comp flexible_cps ->
       startswith "Charging" comp = true /\ In comp (map load_name (loads psa_net)).
Proof.
  intros H. cbv zeta. unfold to_powermodels in H. cbv zeta in H.
  set (psa_net := dependent_values _) in *.
  repeat match type of H with
         | bind ?m _ = inr _ => destruct m; [discriminate|]; cbn [bind] in H
         end.
  unfold _build_timeseries in H.
  destruct (_build_component_timeseries psa_net "gen" None None None);
    [discriminate|]; cbn [bind] in H.
  destruct (_build_component_timeseries psa_net "load" None None None);
    [discriminate|]; cbn [bind] in H.
  destruct (_build_component_timeseries psa_net "storage" None None None);
    [discriminate|]; cbn [bind] in H.
  destruct (_build_component_timeseries psa_net "emob" _ _ _) as [|e] eqn:Ee;
    [discriminate|]; cbn [bind] in H.
  destruct (_build_component_timeseries psa_net "heatpumps" _ _ _) as [|h] eqn:Eh;
    [discriminate|].
  split.
  - destruct flexible_hps as [|hp hps]; [reflexivity|exfalso].
    destruct (heatpump_series_raise psa_net None None (hp :: hps)) as [e' He'];
      [discriminate|]. congruence.
  - now apply charging_point_series_return in Ee.
Qed.

Lemma to_powermodels_returns_only_for_witness :
  exists pm,
    to_powermodels exporter_examples.parallel_equal exporter_examples.per_unit_values_given
      exporter_examples.small_edisgo ["Charging_Point_home"] [] = inr pm
    /\ startswith "Charging" "Charging_Point_home" = true.
Proof.
  eexists. split; [vm_compute; reflexivity|].
  match goal with
  | |- startswith _ ?c = true =>
      refine (proj1 (proj2 (proj2
                (to_powermodels_returns_only_for exporter_examples.parallel_equal
                   exporter_examples.per_unit_values_given exporter_examples.small_edisgo
                   [c] [] _ _)) c _))
  end.
  - vm_compute. reflexivity.
  - now left.
Defined.

(** *** What the aggregation of parallel transformers returns *)




Section Aggregated.

Variable calc : list (Q * Q * Q) -> Q * Q * Q.


End Aggregated.

End series_facts.

(** ** The header of the exported structure *)

Module header_facts.
Import pd powermodels_io exporter_terms pd_facts index_facts branch_facts header_terms.

Section Kept.

Context {B : Type}.

(** An entry of the dictionary that the assignments to the component
    sections leave alone. *)
Variable f : PM -> B.
Hypothesis keeps_bus : forall g pm, f (set_bus g pm) = f pm.
Hypothesis keeps_gen : forall g pm, f (set_gen g pm) = f pm.
Hypothesis keeps_branch : forall g pm, f (set_branch g pm) = f pm.
Hypothesis keeps_storage : forall g pm, f (set_storage g pm) = f pm.
Hypothesis keeps_load : forall g pm, f (set_load g pm) = f pm.
Hypothesis keeps_electromobility : forall g pm, f (set_electromobility g pm) = f pm.
Hypothesis keeps_heatpumps : forall g pm, f (set_heatpumps g pm) = f pm.

Ltac kept :=
  match goal with
  | H : bind ?m _ = inr _ |- _ =>
      destruct m; [discriminate|]; cbn [bind] in H; kept
  | H : (let '(_, _) := ?p in _) = inr _ |- _ => destruct p; kept
  | H : match ?m with Some _ => _ | None => _ end = inr _ |- _ =>
      destruct m; [|discriminate]; kept
  | H : ret _ = inr _ |- _ => unfold ret in H; injection H as <-; auto
  | H : inr _ = inr _ |- _ => injection H as <-; auto
  end.

Lemma builders_keep (psa_net : Network) (cps hps : list string) (pm0 pm7 : PM) :
  (let* pm := _build_bus psa_net pm0 in
   let* pm := _build_gen psa_net pm in
   let* pm := _build_branch psa_net pm in
   let* pm := _build_storage psa_net pm in
   let* pm := _build_load psa_net pm cps hps in
   let* pm := _build_electromobility psa_net pm cps in
   _build_heatpumps psa_net pm hps) = inr pm7 ->
  f pm7 = f pm0.
Proof.
  destruct (_build_bus psa_net pm0) as [|pm1] eqn:E1; [discriminate|]. cbn [bind].
  destruct (_build_gen psa_net pm1) as [|pm2] eqn:E2; [discriminate|]. cbn [bind].
  destruct (_build_branch psa_net pm2) as [|pm3] eqn:E3; [discriminate|]. cbn [bind].
  destruct (_build_storage psa_net pm3) as [|pm4] eqn:E4; [discriminate|]. cbn [bind].
  destruct (_build_load psa_net pm4 cps hps) as [|pm5] eqn:E5; [discriminate|].
  cbn [bind].
  destruct (_build_electromobility psa_net pm5 cps) as [|pm6] eqn:E6; [discriminate|].
  cbn [bind]. intros E7.
  assert (H1 : f pm1 = f pm0).
  { revert E1. unfold _build_bus. destruct (mapM _ _); [discriminate|]. cbn [bind].
    apply for_each_from_keeps. intros i [b ty] st st' Hb. kept. }
  assert (H2 : f pm2 = f pm1).
  { revert E2. unfold _build_gen.
    destruct (match List.filter _ _ with [] => _ | _ => _ end); [discriminate|]. cbn [bind].
    destruct (_mapping _ _ _); [discriminate|]. cbn [bind].
    destruct (bus pm1 !! _); [|discriminate]. cbn [bind]. intros H.
    apply (for_each_from_keeps f) in H; [now rewrite H|].
    intros i x st st' Hb. kept. }
  assert (H3 : f pm3 = f pm2).
  { revert E3. apply for_each_from_keeps. intros i x st st' Hb. kept. }
  assert (H4 : f pm4 = f pm3).
  { revert E4. apply for_each_from_keeps. intros i x st st' Hb. kept. }
  assert (H5 : f pm5 = f pm4).
  { revert E5. unfold _build_load. destruct (drop _ cps); [discriminate|]. cbn [bind].
    destruct (drop _ hps); [discriminate|]. cbn [bind].
    apply for_each_from_keeps. intros i x st st' Hb. kept. }
  assert (H6 : f pm6 = f pm5).
  { revert E6. unfold _build_electromobility.
    destruct (_ =? _)%nat; [now intros [= <-]|].
    destruct (loc _ _); [discriminate|]. cbn [bind].
    apply for_each_from_keeps. intros i x st st' Hb. kept. }
  assert (H7 : f pm7 = f pm6).
  { revert E7. unfold _build_heatpumps.
    destruct (_ =? _)%nat; [now intros [= <-]|].
    destruct (loc _ _); [discriminate|]. cbn [bind].
    apply for_each_from_keeps. intros i x st st' Hb. kept. }
  congruence.
Qed.

End Kept.

Lemma _build_timeseries_sets (psa_net : Network) (pm pm' : PM) edisgo_obj cps hps :
  _build_timeseries psa_net pm edisgo_obj cps hps = inr pm' ->
  unused_sections pm' = unused_sections pm
  /\ scalars pm' = scalars pm
  /\ option_map num_steps (time_series pm') = Some (length (snapshots psa_net)).
Proof.
  unfold _build_timeseries. intros H.
  repeat match type of H with
         | bind ?m _ = inr _ => destruct m; [discriminate|]; cbn [bind] in H
         end.
  unfold ret in H. injection H as <-. repeat split.
Qed.

(** X19: what the exporter returns carries the header the exporter writes: the
    name 'ding0_<id>_t_<n>' for the id of the topology and the number [n] of
    snapshots, no elapsed time, base power 1 and source version 2; the time
    series count the same [n] steps.  No builder touches the sections
    'dcline', 'switch', 'shunt' and 'dsm': they are returned empty. *)
Theorem to_powermodels_header
    (calc : list (Q * Q * Q) -> Q * Q * Q) (dependent_values : Network -> Network)
    (edisgo_object : EDisGo) (flexible_cps flexible_hps : list string) (pm : PM) :
  to_powermodels calc dependent_values edisgo_object flexible_cps flexible_hps = inr pm ->
  let psa_net :=
    dependent_values
      (with_transformers (to_pypsa edisgo_object)
         (aggregate_parallel_transformers calc (transformers (to_pypsa edisgo_object)))) in
  let n := length (snapshots psa_net) in
  name pm = ("ding0_" ++ pretty (topology_id edisgo_object) ++ "_t_" ++ pretty n)%string
  /\ time_elapsed pm = Some 0%Z /\ baseMVA pm = 1%Z /\ source_version pm = 2%Z
  /\ sourcetype pm = "eDisGo" /\ per_unit pm = true
  /\ option_map num_steps (time_series pm) = Some n
  /\ dcline pm = ∅ /\ switch pm = ∅ /\ shunt pm = ∅ /\ dsm pm = ∅.
Proof.
  intros H. cbv zeta. unfold to_powermodels in H. cbv zeta in H.
  set (psa_net := dependent_values _) in *.
  set (pm0 := set_header _ _ _ _ _) in H.
  assert (Hsplit : exists pm7,
             (let* pm := _build_bus psa_net pm0 in
              let* pm := _build_gen psa_net pm in
              let* pm := _build_branch psa_net pm in
              let* pm := _build_storage psa_net pm in
              let* pm := _build_load psa_net pm flexible_cps flexible_hps in
              let* pm := _build_electromobility psa_net pm flexible_cps in
              _build_heatpumps psa_net pm flexible_hps) = inr pm7
             /\ _build_timeseries psa_net pm7 edisgo_object flexible_cps flexible_hps
                = inr pm).
  { repeat match type of H with
           | bind ?m _ = inr _ =>
               destruct m; [discriminate|]; cbn [bind] in H |- *
           end.
    eauto. }
  destruct Hsplit as (pm7 & Hbuild & Hts).
  apply _build_timeseries_sets in Hts as (Hu & Hs & Hn).
  assert (Hu7 : unused_sections pm7 = unused_sections pm0)
    by (apply (builders_keep unused_sections) in Hbuild; auto).
  assert (Hs7 : scalars pm7 = scalars pm0)
    by (apply (builders_keep scalars) in Hbuild; auto).
  rewrite Hu7 in Hu. rewrite Hs7 in Hs.
  unfold unused_sections, scalars in Hu, Hs. cbn in Hu, Hs.
  injection Hu as -> -> -> ->. injection Hs as -> -> -> -> -> ->.
  repeat split. exact Hn.
Qed.

Lemma to_powermodels_header_witness :
  exists pm,
    to_powermodels exporter_examples.parallel_equal exporter_examples.per_unit_values_given
      exporter_examples.small_edisgo ["Charging_Point_home"] [] = inr pm
    /\ name pm = "ding0_1_t_2"
    /\ dsm pm = ∅.
Proof.
  eexists. split; [vm_compute; reflexivity|].
  match goal with
  | |- name ?pm = _ /\ _ =>
      destruct (to_powermodels_header exporter_examples.parallel_equal
                  exporter_examples.per_unit_values_given exporter_examples.small_edisgo
                  ["Charging_Point_home"] [] pm) as (Hname & _ & _ & _ & _ & _ & _ & _ & _ & _ & Hdsm)
  end.
  - vm_compute. reflexivity.
  - split; [exact Hname|exact Hdsm].
Defined.

End header_facts.
